(** * Q-Chem input sets: the settings builder [QChemDictSet.__init__]

    A shallow embedding of [pymatgen/io/qchem/sets.py].  The constructor of
    [QChemDictSet] assembles twelve keyword sections (Python dicts) from its
    arguments and hands them to the parent constructor.  Python dicts are
    objects: several of the builder's local variables are bound to dicts that
    outlive the call (the caller's [opt_variables], [scan_variables] and
    [new_geom_opt], and the inner dicts of the module-level table
    [CMIRS_SETTINGS]).  The embedding therefore keeps a heap of dict objects
    and an environment binding each local variable to an object. *)

From Stdlib Require Import ZArith String Ascii List Bool Lia DecimalString.
Import ListNotations.

Open Scope string_scope.
Open Scope list_scope.
Open Scope Z_scope.

(** ** Python values *)

(** The values that occur in the sections: strings, [None], integers (an NBO
    ["version"] of 7) and lists of strings (the [$opt] lines). *)
Inductive pyval : Type :=
  | VNone
  | VStr (s : string)
  | VInt (z : Z)
  | VList (l : list string).

Definition pyval_eq_dec (a b : pyval) : {a = b} + {a <> b}.
Proof.
  decide equality;
    [ apply string_dec | apply Z.eq_dec | apply (list_eq_dec string_dec) ].
Defined.

(** Python [a == b] on these values. *)
Definition py_eq (a b : pyval) : bool :=
  if pyval_eq_dec a b then true else false.

(** Truth value of an object, as tested by [if x:]. *)
Definition truthy (v : pyval) : bool :=
  match v with
  | VNone => false
  | VStr s => negb (String.eqb s "")
  | VInt z => negb (Z.eqb z 0)
  | VList l => match l with [] => false | _ => true end
  end.

(** [str(n)] for an [int]. *)
Definition str_of_Z (z : Z) : string := NilZero.string_of_int (Z.to_int z).

(** A dielectric constant is only ever used through [str(...)] and
    [is not None]; a float is carried with the text [str] gives for it. *)
Inductive pynum : Type :=
  | NumInt (z : Z)
  | NumFloat (shown : string).

Definition str_of_num (n : pynum) : string :=
  match n with
  | NumInt z => str_of_Z z
  | NumFloat s => s
  end.

(** [str.lower()] on ASCII letters (the only ones that can produce one of the
    job types the builder compares with). *)
Definition lower_ascii (c : ascii) : ascii :=
  let n := nat_of_ascii c in
  if (Nat.leb 65 n && Nat.leb n 90)%bool then ascii_of_nat (n + 32) else c.

Fixpoint lower (s : string) : string :=
  match s with
  | EmptyString => EmptyString
  | String c s' => String (lower_ascii c) (lower s')
  end.

Fixpoint str_in (s : string) (l : list string) : bool :=
  match l with
  | [] => false
  | x :: l' => String.eqb s x || str_in s l'
  end.

(** ** Insertion-ordered dictionaries *)

Module Dict.

(** A Python [dict] with string keys: the entries in insertion order. *)
Definition t : Type := list (string * pyval).

Definition keys (d : t) : list string := map fst d.

Fixpoint get (k : string) (d : t) : option pyval :=
  match d with
  | [] => None
  | (k', v) :: d' => if String.eqb k k' then Some v else get k d'
  end.

(** [k in d] *)
Definition mem (k : string) (d : t) : bool :=
  match get k d with Some _ => true | None => false end.

(** [d[k] = v]: an existing key keeps its position, a new one goes last. *)
Fixpoint set (k : string) (v : pyval) (d : t) : t :=
  match d with
  | [] => [(k, v)]
  | (k', v') :: d' =>
      if String.eqb k k' then (k', v) :: d' else (k', v') :: set k v d'
  end.

(** [for k, v in src.items(): d[k] = v] *)
Definition update (d : t) (src : t) : t :=
  fold_left (fun acc kv => set (fst kv) (snd kv) acc) src d.

(** [d.get(k)]: [None] for a missing key. *)
Definition get_default (k : string) (d : t) : pyval :=
  match get k d with Some v => v | None => VNone end.

(** Keys are unique, as in every Python dict. *)
Definition wf (d : t) : Prop := NoDup (keys d).

Fixpoint wfb (d : t) : bool :=
  match d with
  | [] => true
  | (k, _) :: d' => negb (str_in k (keys d')) && wfb d'
  end.

End Dict.

Definition dict : Type := Dict.t.

(** ** The static CMIRS table *)

Definition coeffs (a b c d gamma solvrho : pyval) : dict :=
  [("a", a); ("b", b); ("c", c); ("d", d); ("gamma", gamma); ("solvrho", solvrho)].

(** The outer keys of [CMIRS_SETTINGS]. *)
Definition CMIRS_solvents : list string :=
  ["water"; "benzene"; "cyclohexane"; "dimethyl sulfoxide"; "acetonitrile"].

(** [CMIRS_SETTINGS[solvent]["dielst"]] *)
Definition CMIRS_dielst (solvent : string) : string :=
  if String.eqb solvent "water" then "78.39"
  else if String.eqb solvent "benzene" then "2.28"
  else if String.eqb solvent "cyclohexane" then "2.02"
  else if String.eqb solvent "dimethyl sulfoxide" then "47"
  else if String.eqb solvent "acetonitrile" then "36.64"
  else "".

(** [CMIRS_SETTINGS[solvent][rhoiso]] as the module defines it: the contents
    of the inner dicts when the module is loaded. *)
Definition CMIRS_SETTINGS (solvent rhoiso : string) : dict :=
  if String.eqb solvent "water" then
    if String.eqb rhoiso "0.001" then
      coeffs (VStr "-0.006736") (VStr "0.032698") (VStr "-1249.6")
             (VStr "-21.405") (VStr "3.7") (VStr "0.05")
    else if String.eqb rhoiso "0.0005" then
      coeffs (VStr "-0.006496") (VStr "0.050833") (VStr "-566.7")
             (VStr "-30.503") (VStr "3.2") (VStr "0.05")
    else []
  else if String.eqb solvent "benzene" then
    if String.eqb rhoiso "0.001" then
      coeffs (VStr "-0.00522") (VStr "0.01294") VNone VNone VNone (VStr "0.0421")
    else if String.eqb rhoiso "0.0005" then
      coeffs (VStr "-0.00572") (VStr "0.01116") VNone VNone VNone (VStr "0.0421")
    else []
  else if String.eqb solvent "cyclohexane" then
    if String.eqb rhoiso "0.001" then
      coeffs (VStr "-0.00938") (VStr "0.03184") VNone VNone VNone (VStr "0.0396")
    else if String.eqb rhoiso "0.0005" then
      coeffs (VStr "-0.00721") (VStr "0.05618") VNone VNone VNone (VStr "0.0396")
    else []
  else if String.eqb solvent "dimethyl sulfoxide" then
    if String.eqb rhoiso "0.001" then
      coeffs (VStr "-0.00951") (VStr "0.044791") VNone
             (VStr "-162.07") (VStr "4.1") (VStr "0.05279")
    else if String.eqb rhoiso "0.0005" then
      coeffs (VStr "-0.002523") (VStr "0.011757") VNone
             (VStr "-817.93") (VStr "4.3") (VStr "0.05279")
    else []
  else if String.eqb solvent "acetonitrile" then
    if String.eqb rhoiso "0.001" then
      coeffs (VStr "-0.008178") (VStr "0.045278") VNone
             (VStr "-0.33914") (VStr "1.3") (VStr "0.03764")
    else if String.eqb rhoiso "0.0005" then
      coeffs (VStr "-0.003805") (VStr "0.03223") VNone
             (VStr "-0.44492") (VStr "1.2") (VStr "0.03764")
    else []
  else [].

(** ** Objects, variables, exceptions *)

(** The local variables of [__init__] that hold sections. *)
Inductive var : Type :=
  | myrem | myopt | mypcm | mysolvent | mysmx | myscan | myvdw | myplots
  | mynbo | my_geom_opt | mysvp | mypcm_nonels.

(** The dict objects the constructor can reach. *)
Inductive obj : Type :=
  | Fresh (x : var)            (* the dict made by [dict()] or [{}] for [x] *)
  | pcm_defaults               (* the three literals built on entry *)
  | svp_defaults
  | plots_defaults
  | O_opt_variables            (* the caller's dicts *)
  | O_scan_variables
  | O_nbo_params
  | O_new_geom_opt
  | O_CMIRS (solvent rhoiso : string).  (* CMIRS_SETTINGS[solvent][rhoiso] *)

Definition var_eq_dec (a b : var) : {a = b} + {a <> b}.
Proof. decide equality. Defined.

Definition obj_eq_dec (a b : obj) : {a = b} + {a <> b}.
Proof. decide equality; try apply string_dec; apply var_eq_dec. Defined.

Inductive exn : Type :=
  | ValueError (msg : string)
  | RuntimeError (msg : string)
  | KeyError (key : string)
  | TypeError (msg : string).

(** The errors the claims name. *)
Definition dft_rung_error : exn :=
  ValueError "dft_rung should be between 1 and 5!".

Definition solvation_conflict : exn :=
  ValueError "Only one of PCM, ISOSVP, SMD, and CMIRSmay be used for solvation.".

Definition custom_smd_message : string :=
  "A user-defined SMD requires passing custom_smd, a string"
  ++ " of seven comma separated values in the following order:"
  ++ " dielectric, refractive index, acidity, basicity, surface"
  ++ " tension, aromaticity, electronegative halogenicity".

Definition custom_smd_missing : exn := ValueError custom_smd_message.

Definition maxiter_mismatch : exn :=
  RuntimeError "Max # of optimization cycles must be the same! Exiting...".

(** ** Constructor arguments *)

Record Args : Type := mkArgs {
  job_type : string;
  basis_set : string;
  scf_algorithm : string;
  dft_rung : Z;
  pcm_dielectric : option pynum;
  isosvp_dielectric : option pynum;
  smd_solvent : option string;
  cmirs_solvent : option string;
  custom_smd : option string;
  opt_variables : option dict;
  scan_variables : option dict;
  max_scf_cycles : Z;
  geom_opt_max_cycles : Z;
  plot_cubes : bool;
  nbo_params : option dict;
  new_geom_opt : option dict;
  overwrite_inputs : option (list (string * dict));
  vdw_mode : string;
  extra_scf_print : bool
}.

(** ** Machine state *)

Definition heap_t : Type := obj -> dict.
Definition env_t : Type := var -> option obj.

Record State : Type := mkState {
  heap : heap_t;              (* contents of every dict object *)
  env : env_t;                (* what each variable is bound to; [None] is Python's None *)
  warned : list string        (* messages passed to [warnings.warn], oldest first *)
}.

Inductive outcome : Type :=
  | Done (st : State)
  | Raised (e : exn) (st : State).

Definition step : Type := State -> outcome.

Definition seq (f g : step) : step :=
  fun st => match f st with
            | Done st' => g st'
            | Raised e st' => Raised e st'
            end.

Notation "f ;; g" := (seq f g) (at level 61, right associativity).

Definition skip : step := Done.

Definition raise (e : exn) : step := fun st => Raised e st.

Definition upd_heap (h : heap_t) (o : obj) (d : dict) : heap_t :=
  fun o' => if obj_eq_dec o' o then d else h o'.

Definition upd_env (e : env_t) (x : var) (o : option obj) : env_t :=
  fun x' => if var_eq_dec x' x then o else e x'.

(** [x = o] *)
Definition bind_var (x : var) (o : option obj) : step :=
  fun st => Done (mkState (heap st) (upd_env (env st) x o) (warned st)).

(** [x[k] = v] *)
Definition setitem (x : var) (k : string) (v : pyval) : step :=
  fun st =>
    match env st x with
    | Some o => Done (mkState (upd_heap (heap st) o (Dict.set k v (heap st o)))
                              (env st) (warned st))
    | None => Raised (TypeError "'NoneType' object does not support item assignment") st
    end.

(** [for k, v in src.items(): x[k] = v] *)
Fixpoint setitems (x : var) (src : dict) : step :=
  match src with
  | [] => skip
  | (k, v) :: src' => setitem x k v ;; setitems x src'
  end.

(** [warnings.warn(msg, UserWarning)] *)
Definition warn (msg : string) : step :=
  fun st => Done (mkState (heap st) (env st) (warned st ++ [msg])).

(** The dict a variable denotes, [None] when the variable is None. *)
Definition section (st : State) (x : var) : option dict :=
  option_map (heap st) (env st x).

(** A step that depends on what the state holds when it starts. *)
Definition with_state (F : State -> step) : step := fun st => F st st.

(** [x[k]] as a step that continues with the value, [KeyError] when absent. *)
Definition with_item (x : var) (k : string) (cont : pyval -> step) : step :=
  with_state (fun st =>
    match section st x with
    | Some d =>
        match Dict.get k d with
        | Some v => cont v
        | None => raise (KeyError k)
        end
    | None => raise (TypeError "'NoneType' object is not subscriptable")
    end).

(** ** The constructor body *)

Section Builder.

(** [pymatgen.io.qchem.utils.lower_and_check_unique] lives in another
    module: it returns a new dict with lower-cased keys, or raises.  The
    builder is read for an arbitrary such function. *)
Variable lower_and_check_unique : dict -> dict + exn.

(** Python's [int(s)] on a string, [None] when it raises [ValueError]. *)
Variable py_int : string -> option Z.

Variable a : Args.

(** [temp = lower_and_check_unique(sec_dict)], then the body. *)
Definition with_normalized (sec_dict : dict) (cont : dict -> step) : step :=
  match lower_and_check_unique sec_dict with
  | inl temp => cont temp
  | inr e => raise e
  end.

(** Lines 289-306: the bindings of the section variables. *)
Definition initial_env : env_t :=
  fun x =>
    match x with
    | myopt => Some (match opt_variables a with
                     | None => Fresh myopt
                     | Some _ => O_opt_variables
                     end)
    | myscan => Some (match scan_variables a with
                      | None => Fresh myscan
                      | Some _ => O_scan_variables
                      end)
    | mynbo => None
    | my_geom_opt => None
    | x => Some (Fresh x)
    end.

(** The heap on entry: the literals of lines 277-287, the caller's dicts,
    and the inner dicts of the table as the previous calls left them. *)
Definition initial_heap (table : string -> string -> dict) : heap_t :=
  fun o =>
    match o with
    | Fresh _ => []
    | pcm_defaults =>
        [("heavypoints", VStr "194"); ("hpoints", VStr "194");
         ("radii", VStr "uff"); ("theory", VStr "cpcm");
         ("vdwscale", VStr "1.1")]
    | svp_defaults =>
        [("rhoiso", VStr "0.001"); ("nptleb", VStr "1202");
         ("itrngr", VStr "2"); ("irotgr", VStr "2")]
    | plots_defaults =>
        [("grid_spacing", VStr "0.05"); ("total_density", VStr "0")]
    | O_opt_variables => match opt_variables a with Some d => d | None => [] end
    | O_scan_variables => match scan_variables a with Some d => d | None => [] end
    | O_nbo_params => match nbo_params a with Some d => d | None => [] end
    | O_new_geom_opt => match new_geom_opt a with Some d => d | None => [] end
    | O_CMIRS s r => table s r
    end.

Definition initial_state (table : string -> string -> dict) : State :=
  mkState (initial_heap table) initial_env [].

(** Lines 307-317. *)
Definition seed_rem : step :=
  setitem myrem "job_type" (VStr (job_type a)) ;;
  setitem myrem "basis" (VStr (basis_set a)) ;;
  setitem myrem "max_scf_cycles" (VStr (str_of_Z (max_scf_cycles a))) ;;
  setitem myrem "gen_scfman" (VStr "true") ;;
  setitem myrem "xc_grid" (VStr "3") ;;
  setitem myrem "thresh" (VStr "14") ;;
  setitem myrem "s2thresh" (VStr "16") ;;
  setitem myrem "scf_algorithm" (VStr (scf_algorithm a)) ;;
  setitem myrem "resp_charges" (VStr "true") ;;
  setitem myrem "symmetry" (VStr "false") ;;
  setitem myrem "sym_ignore" (VStr "true").

(** Lines 319-331. *)
Definition set_dft_rung : step :=
  if dft_rung a =? 1 then setitem myrem "method" (VStr "b3lyp")
  else if dft_rung a =? 2 then
    setitem myrem "method" (VStr "b3lyp") ;;
    setitem myrem "dft_D" (VStr "D3_BJ")
  else if dft_rung a =? 3 then setitem myrem "method" (VStr "wb97xd")
  else if dft_rung a =? 4 then setitem myrem "method" (VStr "wb97xv")
  else if dft_rung a =? 5 then setitem myrem "method" (VStr "wb97mv")
  else raise dft_rung_error.

(** Lines 333-334. *)
Definition set_geom_opt_max_cycles : step :=
  if str_in (lower (job_type a)) ["opt"; "ts"; "pes_scan"] then
    setitem myrem "geom_opt_max_cycles" (VStr (str_of_Z (geom_opt_max_cycles a)))
  else skip.

(** [1] when the argument is not None. *)
Definition count_set {A : Type} (x : option A) : Z :=
  match x with Some _ => 1 | None => 0 end.

(** Lines 336-339: how many of the four selectors are not None. *)
Definition solvent_def : Z :=
  count_set (pcm_dielectric a) + count_set (isosvp_dielectric a)
  + count_set (smd_solvent a) + count_set (cmirs_solvent a).

(** Lines 340-341. *)
Definition check_solvent_def : step :=
  if 1 <? solvent_def then
    raise solvation_conflict
  else skip.

(** Lines 343-346. *)
Definition setup_pcm : step :=
  match pcm_dielectric a with
  | Some eps =>
      bind_var mypcm (Some pcm_defaults) ;;
      setitem mysolvent "dielectric" (VStr (str_of_num eps)) ;;
      setitem myrem "solvent_method" (VStr "pcm")
  | None => skip
  end.

(** Lines 348-352. *)
Definition setup_isosvp : step :=
  match isosvp_dielectric a with
  | Some eps =>
      bind_var mysvp (Some svp_defaults) ;;
      setitem mysvp "dielst" (VStr (str_of_num eps)) ;;
      setitem myrem "solvent_method" (VStr "isosvp") ;;
      setitem myrem "gen_scfman" (VStr "false")
  | None => skip
  end.

(** Lines 354-368. *)
Definition setup_smd : step :=
  match smd_solvent a with
  | Some s =>
      (if String.eqb s "custom" then setitem mysmx "solvent" (VStr "other")
       else setitem mysmx "solvent" (VStr s)) ;;
      setitem myrem "solvent_method" (VStr "smd") ;;
      setitem myrem "ideriv" (VStr "1") ;;
      (if str_in s ["custom"; "other"] then
         match custom_smd a with
         | None => raise custom_smd_missing
         | Some _ => skip
         end
       else skip)
  | None => skip
  end.

(** [CMIRS_SETTINGS[s]]: the outer keys never change. *)
Definition with_solvent_entry (s : string) (cont : step) : step :=
  if str_in s CMIRS_solvents then cont else raise (KeyError s).

(** [CMIRS_SETTINGS[s][r]] where an inner dict is expected: the two contour
    keys give one; ["dielst"] gives a string, which supports neither item
    assignment nor [.get]. *)
Definition with_coeffs (s : string) (r : pyval) (cont : obj -> step) : step :=
  with_solvent_entry s
    (match r with
     | VStr r' =>
         if str_in r' ["0.001"; "0.0005"] then cont (O_CMIRS s r')
         else if String.eqb r' "dielst" then
           raise (TypeError "'str' object is not a coefficient dict")
         else raise (KeyError r')
     | VNone => raise (KeyError "None")
     | VInt z => raise (KeyError (str_of_Z z))
     | VList _ => raise (TypeError "unhashable type: 'list'")
     end).

(** Lines 370-380. *)
Definition setup_cmirs : step :=
  match cmirs_solvent a with
  | Some s =>
      bind_var mysvp (Some svp_defaults) ;;
      setitem myrem "solvent_method" (VStr "isosvp") ;;
      setitem myrem "gen_scfman" (VStr "false") ;;
      with_solvent_entry s (setitem mysvp "dielst" (VStr (CMIRS_dielst s))) ;;
      setitem mysvp "idefesr" (VStr "1") ;;
      setitem mysvp "ipnrf" (VStr "1") ;;
      with_item mysvp "rhoiso" (fun r =>
        with_coeffs s r (fun o => bind_var mypcm_nonels (Some o))) ;;
      setitem mypcm_nonels "delta" (VStr "7") ;;
      setitem mypcm_nonels "gaulag_n" (VStr "40")
  | None => skip
  end.

(** Lines 382-385. *)
Definition setup_plots : step :=
  if plot_cubes a then
    bind_var myplots (Some plots_defaults) ;;
    setitem myrem "plots" (VStr "true") ;;
    setitem myrem "make_cube_files" (VStr "true")
  else skip.

(** Lines 396-398: copy every entry but ["version"]. *)
Fixpoint copy_nbo (src : dict) : step :=
  match src with
  | [] => skip
  | (k, v) :: src' =>
      (if String.eqb k "version" then skip else setitem mynbo k v) ;;
      copy_nbo src'
  end.

(** Lines 387-398. *)
Definition setup_nbo : step :=
  match nbo_params a with
  | Some p =>
      bind_var mynbo (Some O_nbo_params) ;;
      setitem myrem "nbo" (VStr "true") ;;
      (match Dict.get "version" p with
       | Some v =>
           if py_eq v (VInt 7) then setitem myrem "nbo_external" (VStr "true")
           else raise (RuntimeError "nbo params version should only be set to 7! Exiting...")
       | None => skip
       end) ;;
      bind_var mynbo (Some (Fresh mynbo)) ;;
      copy_nbo p
  | None => bind_var mynbo None
  end.

(** Lines 400-410. *)
Definition setup_new_geom_opt : step :=
  match new_geom_opt a with
  | Some _ =>
      bind_var my_geom_opt (Some O_new_geom_opt) ;;
      setitem myrem "geom_opt2" (VStr "3") ;;
      with_state (fun st =>
         match Dict.get "maxiter" (heap st O_new_geom_opt) with
         | Some v =>
             if py_eq v (VStr (str_of_Z (geom_opt_max_cycles a))) then skip
             else raise maxiter_mismatch
         | None =>
             (* self.new_geom_opt["maxiter"] = ...: written into the caller's dict *)
             setitem my_geom_opt "maxiter"
                     (VStr (str_of_Z (geom_opt_max_cycles a)))
         end) ;;
      with_state (fun st =>
         bind_var my_geom_opt (Some (Fresh my_geom_opt)) ;;
         setitems my_geom_opt (heap st O_new_geom_opt))
  | None => bind_var my_geom_opt None
  end.

(** Lines 474-476: one round of the loop over [mypcm_nonels.items()]. *)
Definition reselect_coeff (src : obj) (k2 : string) : step :=
  with_state (fun st =>
    if truthy (Dict.get_default k2 (heap st src)) then
      setitem mypcm_nonels k2 (Dict.get_default k2 (heap st src))
    else skip).

Fixpoint reselect_coeffs (src : obj) (ks : list string) : step :=
  match ks with
  | [] => skip
  | k2 :: ks' => reselect_coeff src k2 ;; reselect_coeffs src ks'
  end.

(** Lines 467-476. *)
Definition svp_rhoiso (v : pyval) : step :=
  match cmirs_solvent a with
  | Some s =>
      if negb (py_eq v (VStr "0.001") || py_eq v (VStr "0.0005")) then
        raise (RuntimeError
          "CMIRS is only parameterized for RHOISO values of 0.001 or 0.0005! Exiting...")
      else
        with_state (fun st =>
          match section st mypcm_nonels with
          | Some d =>
              match Dict.keys d with
              | [] => skip
              | ks => with_coeffs s v (fun src => reselect_coeffs src ks)
              end
          | None => raise (TypeError "'NoneType' object has no attribute 'items'")
          end)
  | None => skip
  end.

(** Lines 477-486. *)
Definition svp_idefesr (v : pyval) : step :=
  (match cmirs_solvent a with
   | Some _ =>
       if py_eq v (VStr "0") then
         warn "Setting IDEFESR=0 will disable the CMIRS calculation you requested!"
       else skip
   | None => skip
   end) ;;
  (match cmirs_solvent a with
   | None =>
       if py_eq v (VStr "1") then
         warn "Setting IDEFESR=1 will have no effect unless you specify a cmirs_solvent!"
       else skip
   | Some _ => skip
   end).

(** Lines 487-491. *)
Definition svp_dielst : step :=
  with_item myrem "solvent_method" (fun m =>
    if negb (py_eq m (VStr "isosvp")) then
      warn "Setting DIELST will have no effect unless you specify a solvent_method=isosvp!"
    else skip).

(** Lines 466-493: the loop over [temp_svp.items()]. *)
Fixpoint overwrite_svp (temp_svp : dict) : step :=
  match temp_svp with
  | [] => skip
  | (k, v) :: rest =>
      (if String.eqb k "rhoiso" then svp_rhoiso v else skip) ;;
      (if String.eqb k "idefesr" then svp_idefesr v else skip) ;;
      (if String.eqb k "dielst" then svp_dielst else skip) ;;
      setitem mysvp k v ;;
      overwrite_svp rest
  end.

Definition when (c : bool) (body : step) : step := if c then body else skip.

(** Lines 414-497: the body of the loop over [overwrite_inputs.items()]. *)
Definition overwrite_section (sec : string) (sec_dict : dict) : step :=
  when (String.eqb sec "rem")
    (with_normalized sec_dict (fun temp_rem => setitems myrem temp_rem)) ;;
  when (String.eqb sec "pcm")
    (with_normalized sec_dict (fun temp_pcm => setitems mypcm temp_pcm)) ;;
  when (String.eqb sec "solvent")
    (with_normalized sec_dict (fun temp_solvent =>
       with_item myrem "solvent_method" (fun m =>
         if negb (py_eq m (VStr "pcm")) then
           warn "The solvent section will be ignored unless solvent_method=pcm!"
         else skip) ;;
       setitems mysolvent temp_solvent)) ;;
  when (String.eqb sec "smx")
    (with_normalized sec_dict (fun temp_smx => setitems mysmx temp_smx)) ;;
  when (String.eqb sec "scan")
    (with_normalized sec_dict (fun temp_scan => setitems myscan temp_scan)) ;;
  when (String.eqb sec "van_der_waals")
    (with_normalized sec_dict (fun temp_vdw =>
       setitems myvdw temp_vdw ;;
       setitem mypcm "radii" (VStr "read"))) ;;
  when (String.eqb sec "plots")
    (with_normalized sec_dict (fun temp_plots => setitems myplots temp_plots)) ;;
  when (String.eqb sec "nbo")
    (with_state (fun st =>
       match env st mynbo with
       | None => raise (RuntimeError
           "Can't overwrite nbo params when NBO is not being run! Exiting...")
       | Some _ =>
           with_normalized sec_dict (fun temp_nbo => setitems mynbo temp_nbo)
       end)) ;;
  when (String.eqb sec "geom_opt")
    (with_state (fun st =>
       match env st my_geom_opt with
       | None => raise (RuntimeError
           "Can't overwrite geom_opt params when not using the new optimizer! Exiting...")
       | Some _ =>
           with_normalized sec_dict
             (fun temp_geomopt => setitems my_geom_opt temp_geomopt)
       end)) ;;
  when (String.eqb sec "opt")
    (with_normalized sec_dict (fun temp_opts => setitems myopt temp_opts)) ;;
  when (String.eqb sec "svp")
    (with_normalized sec_dict (fun temp_svp => overwrite_svp temp_svp)) ;;
  when (String.eqb sec "pcm_nonels")
    (with_normalized sec_dict
       (fun temp_pcm_nonels => setitems mypcm_nonels temp_pcm_nonels)).

Fixpoint overwrite_sections (ov : list (string * dict)) : step :=
  match ov with
  | [] => skip
  | (sec, sec_dict) :: ov' =>
      overwrite_section sec sec_dict ;; overwrite_sections ov'
  end.

(** Lines 412-497.  An empty dict is falsy, like None. *)
Definition apply_overwrite_inputs : step :=
  match overwrite_inputs a with
  | Some ov => overwrite_sections ov
  | None => skip
  end.

(** [int(x)] *)
Definition int_of (v : pyval) : Z + exn :=
  match v with
  | VStr s => match py_int s with
              | Some z => inl z
              | None => inr (ValueError "invalid literal for int() with base 10")
              end
  | VInt z => inl z
  | VNone => inr (TypeError "int() argument must be a string or a real number, not 'NoneType'")
  | VList _ => inr (TypeError "int() argument must be a string or a real number, not 'list'")
  end.

(** Lines 499-508. *)
Definition apply_extra_scf_print : step :=
  if extra_scf_print a then
    setitem myrem "scf_final_print" (VStr "3") ;;
    with_state (fun st =>
       match section st myrem with
       | Some d =>
           match Dict.get "scf_convergence" d with
           | None => setitem myrem "scf_convergence" (VStr "8")
           | Some v =>
               match int_of v with
               | inl z => if z <? 8 then setitem myrem "scf_convergence" (VStr "8")
                          else skip
               | inr e => raise e
               end
           end
       | None => raise (TypeError "argument of type 'NoneType' is not iterable")
       end)
  else skip.

(** Everything before the override merge: lines 289-410. *)
Definition derive_sections : step :=
  seed_rem ;; set_dft_rung ;; set_geom_opt_max_cycles ;; check_solvent_def ;;
  setup_pcm ;; setup_isosvp ;; setup_smd ;; setup_cmirs ;;
  setup_plots ;; setup_nbo ;; setup_new_geom_opt.

(** The body of [__init__] up to the call of the parent constructor, which
    receives the twelve sections [section st x]. *)
Definition QChemDictSet_init (table : string -> string -> dict) : outcome :=
  (derive_sections ;; apply_overwrite_inputs ;; apply_extra_scf_print)
    (initial_state table).

(** The same body with the override merge run twice in succession. *)
Definition QChemDictSet_init_merge_twice (table : string -> string -> dict) : outcome :=
  (derive_sections ;; apply_overwrite_inputs ;; apply_overwrite_inputs ;;
   apply_extra_scf_print) (initial_state table).

End Builder.

Arguments QChemDictSet_init lower_and_check_unique py_int a table : assert.

(** ** [QChemDictSet.write] *)

(** What [write] puts on disk: the rendered input at [input_file], and
    [solvent_data] in the directory of [input_file]. *)
Inductive file_write : Type :=
  | InputFile (input_file : string)
  | SolventData (input_file : string) (text : string).

(** Lines 527-535.  The files written, and the exception if one is raised
    ([f.write(None)] after the file has been opened). *)
Definition write (a : Args) (input_file : string) : list file_write * option exn :=
  match smd_solvent a with
  | Some s =>
      if str_in s ["custom"; "other"] then
        match custom_smd a with
        | Some text => ([InputFile input_file; SolventData input_file text], None)
        | None => ([InputFile input_file; SolventData input_file ""],
                   Some (TypeError "write() argument must be str, not None"))
        end
      else ([InputFile input_file], None)
  | None => ([InputFile input_file], None)
  end.

Definition set_smd_solvent (s : option string) (a : Args) : Args :=
  mkArgs (job_type a) (basis_set a) (scf_algorithm a) (dft_rung a)
         (pcm_dielectric a) (isosvp_dielectric a) s (cmirs_solvent a)
         (custom_smd a) (opt_variables a) (scan_variables a)
         (max_scf_cycles a) (geom_opt_max_cycles a) (plot_cubes a)
         (nbo_params a) (new_geom_opt a) (overwrite_inputs a) (vdw_mode a)
         (extra_scf_print a).

(** ** The collaborators, for running the builder *)

(** Modelled from the spec: [lower_and_check_unique] of
    [pymatgen.io.qchem.utils], which is not part of this file.  The spec gives
    it as [normalize(mapping) -> mapping]: it case-folds the keys and fails
    with a duplicate-key error if two input keys normalize to the same
    string. *)
Fixpoint normalize_into (acc : dict) (d : dict) : dict + exn :=
  match d with
  | [] => inl acc
  | (k, v) :: d' =>
      if Dict.mem (lower k) acc then inr (ValueError "duplicate key")
      else normalize_into (acc ++ [(lower k, v)]) d'
  end.

Definition normalize (d : dict) : dict + exn := normalize_into [] d.

(** A reading of decimal literals, standing for [int(s)] on them. *)
Fixpoint digits_value (acc : Z) (s : string) : option Z :=
  match s with
  | EmptyString => Some acc
  | String c s' =>
      let n := nat_of_ascii c in
      if (Nat.leb 48 n && Nat.leb n 57)%bool
      then digits_value (10 * acc + Z.of_nat (n - 48)) s'
      else None
  end.

Definition decimal_int (s : string) : option Z :=
  match s with
  | EmptyString => None
  | String "-" (String c s') => option_map Z.opp (digits_value 0 (String c s'))
  | _ => digits_value 0 s
  end.

(** The builder with these two collaborators, on the table as loaded. *)
Definition build (a : Args) : outcome :=
  QChemDictSet_init normalize decimal_int a CMIRS_SETTINGS.

(** A geometry optimisation with every optional argument at its default. *)
Definition opt_job : Args :=
  mkArgs "opt" "def2-tzvpd" "diis" 4 None None None None None None None
         100 200 false None None None "atomic" false.

Definition set_cmirs_solvent (s : option string) (a : Args) : Args :=
  mkArgs (job_type a) (basis_set a) (scf_algorithm a) (dft_rung a)
         (pcm_dielectric a) (isosvp_dielectric a) (smd_solvent a) s
         (custom_smd a) (opt_variables a) (scan_variables a)
         (max_scf_cycles a) (geom_opt_max_cycles a) (plot_cubes a)
         (nbo_params a) (new_geom_opt a) (overwrite_inputs a) (vdw_mode a)
         (extra_scf_print a).

Definition set_overwrite_inputs (ov : option (list (string * dict))) (a : Args) : Args :=
  mkArgs (job_type a) (basis_set a) (scf_algorithm a) (dft_rung a)
         (pcm_dielectric a) (isosvp_dielectric a) (smd_solvent a) (cmirs_solvent a)
         (custom_smd a) (opt_variables a) (scan_variables a)
         (max_scf_cycles a) (geom_opt_max_cycles a) (plot_cubes a)
         (nbo_params a) (new_geom_opt a) ov (vdw_mode a)
         (extra_scf_print a).

Definition set_new_geom_opt (g : option dict) (a : Args) : Args :=
  mkArgs (job_type a) (basis_set a) (scf_algorithm a) (dft_rung a)
         (pcm_dielectric a) (isosvp_dielectric a) (smd_solvent a) (cmirs_solvent a)
         (custom_smd a) (opt_variables a) (scan_variables a)
         (max_scf_cycles a) (geom_opt_max_cycles a) (plot_cubes a)
         (nbo_params a) g (overwrite_inputs a) (vdw_mode a)
         (extra_scf_print a).

Definition set_dft_rung_arg (r : Z) (a : Args) : Args :=
  mkArgs (job_type a) (basis_set a) (scf_algorithm a) r
         (pcm_dielectric a) (isosvp_dielectric a) (smd_solvent a) (cmirs_solvent a)
         (custom_smd a) (opt_variables a) (scan_variables a)
         (max_scf_cycles a) (geom_opt_max_cycles a) (plot_cubes a)
         (nbo_params a) (new_geom_opt a) (overwrite_inputs a) (vdw_mode a)
         (extra_scf_print a).

(** The sections of a finished build, [None] if it raised. *)
Definition result_section (r : outcome) (x : var) : option dict :=
  match r with
  | Done st => section st x
  | Raised _ _ => None
  end.

Definition raised (r : outcome) : option exn :=
  match r with
  | Done _ => None
  | Raised e _ => Some e
  end.

Definition final_state (r : outcome) : State :=
  match r with
  | Done st => st
  | Raised _ st => st
  end.


(** ** The job presets *)

(** The arguments every preset takes, with the defaults they share
    ([basis_set="def2-tzvppd"], [scf_algorithm="diis"], [dft_rung=3], ...). *)
Record PresetArgs : Type := mkPreset {
  p_basis_set : string;
  p_scf_algorithm : string;
  p_dft_rung : Z;
  p_pcm_dielectric : option pynum;
  p_isosvp_dielectric : option pynum;
  p_smd_solvent : option string;
  p_cmirs_solvent : option string;
  p_custom_smd : option string;
  p_max_scf_cycles : Z;
  p_plot_cubes : bool;
  p_nbo_params : option dict;
  p_overwrite_inputs : option (list (string * dict));
  p_vdw_mode : string
}.

Definition preset_defaults : PresetArgs :=
  mkPreset "def2-tzvppd" "diis" 3 None None None None None 100 false None None "atomic".

(** What a preset hands to [QChemDictSet.__init__]: the arguments it does not
    pass take the defaults of that constructor ([geom_opt_max_cycles=200],
    [extra_scf_print=False], None for the dicts). *)
Definition preset_call (p : PresetArgs) (job : string)
           (opt_vars scan_vars : option dict) (geom_cycles : Z)
           (new_opt : option dict) (extra_print : bool) : Args :=
  mkArgs job (p_basis_set p) (p_scf_algorithm p) (p_dft_rung p)
         (p_pcm_dielectric p) (p_isosvp_dielectric p) (p_smd_solvent p)
         (p_cmirs_solvent p) (p_custom_smd p) opt_vars scan_vars
         (p_max_scf_cycles p) geom_cycles (p_plot_cubes p) (p_nbo_params p)
         new_opt (p_overwrite_inputs p) (p_vdw_mode p) extra_print.

(** Lines 538-662. *)
Definition SinglePointSet (p : PresetArgs) (extra_scf_print : bool) : Args :=
  preset_call p "sp" None None 200 None extra_scf_print.

(** Lines 665-788. *)
Definition OptSet (p : PresetArgs) (opt_variables : option dict)
           (geom_opt_max_cycles : Z) (new_geom_opt : option dict) : Args :=
  preset_call p "opt" opt_variables None geom_opt_max_cycles new_geom_opt false.

(** Lines 791-909. *)
Definition TransitionStateSet (p : PresetArgs) (opt_variables : option dict)
           (geom_opt_max_cycles : Z) : Args :=
  preset_call p "ts" opt_variables None geom_opt_max_cycles None false.

(** Lines 912-1025. *)
Definition ForceSet (p : PresetArgs) : Args :=
  preset_call p "force" None None 200 None false.

(** Lines 1028-1141. *)
Definition FreqSet (p : PresetArgs) : Args :=
  preset_call p "freq" None None 200 None false.

Definition no_scan_variables : exn :=
  ValueError "Cannot run a pes_scan job without some variable to scan over!".

(** Lines 1144-1282: the check of [scan_variables] comes before the call of
    the parent constructor. *)
Definition PESScanSet (p : PresetArgs) (opt_variables scan_variables : option dict)
  : Args + exn :=
  match scan_variables with
  | None => inr no_scan_variables
  | Some _ => inl (preset_call p "pes_scan" opt_variables scan_variables 200 None false)
  end.

(** The six presets. *)
Inductive preset : Type :=
  | PSinglePoint (extra_scf_print : bool)
  | POpt (opt_variables : option dict) (geom_opt_max_cycles : Z)
         (new_geom_opt : option dict)
  | PTransitionState (opt_variables : option dict) (geom_opt_max_cycles : Z)
  | PForce
  | PFreq
  | PPESScan (opt_variables scan_variables : option dict).

Definition preset_args (p : PresetArgs) (k : preset) : Args + exn :=
  match k with
  | PSinglePoint e => inl (SinglePointSet p e)
  | POpt o g n => inl (OptSet p o g n)
  | PTransitionState o g => inl (TransitionStateSet p o g)
  | PForce => inl (ForceSet p)
  | PFreq => inl (FreqSet p)
  | PPESScan o s => PESScanSet p o s
  end.

(** What constructing a preset gives: the exception of the preset itself, or
    the outcome of the parent constructor. *)
Inductive preset_outcome : Type :=
  | Rejected (e : exn)
  | Built (r : outcome).

Definition preset_init (norm : dict -> dict + exn) (py_int : string -> option Z)
           (p : PresetArgs) (k : preset) (table : string -> string -> dict)
  : preset_outcome :=
  match preset_args p k with
  | inl a => Built (QChemDictSet_init norm py_int a table)
  | inr e => Rejected e
  end.
(** * Notions used to state the properties *)

Arguments str_of_Z : simpl never.
Arguments lower : simpl never.

(** The spec's reading of "two or more of the four selectors are set". *)
Definition at_least_two_set (a : Args) : Prop :=
  (pcm_dielectric a <> None /\ isosvp_dielectric a <> None) \/
  (pcm_dielectric a <> None /\ smd_solvent a <> None) \/
  (pcm_dielectric a <> None /\ cmirs_solvent a <> None) \/
  (isosvp_dielectric a <> None /\ smd_solvent a <> None) \/
  (isosvp_dielectric a <> None /\ cmirs_solvent a <> None) \/
  (smd_solvent a <> None /\ cmirs_solvent a <> None).

(** The state in which the solvent selectors are counted. *)
Definition before_solvation (a : Args) (table : string -> string -> dict) : outcome :=
  (seed_rem a ;; set_dft_rung a ;; set_geom_opt_max_cycles a) (initial_state a table).

(** The variable through which the constructor reaches an object: no two
    variables are ever bound to the same dict. *)
Definition owner (o : obj) : var :=
  match o with
  | Fresh x => x
  | pcm_defaults => mypcm
  | svp_defaults => mysvp
  | plots_defaults => myplots
  | O_opt_variables => myopt
  | O_scan_variables => myscan
  | O_nbo_params => mynbo
  | O_new_geom_opt => my_geom_opt
  | O_CMIRS _ _ => mypcm_nonels
  end.

Definition env_ok (st : State) : Prop :=
  forall x o, env st x = Some o -> owner o = x.

Definition var_eqb (x y : var) : bool :=
  if var_eq_dec x y then true else false.

(** [footprint Rb Wk f]: whether [f] returns or raises, it rebinds only the
    variables in [Rb] and assigns only to the items [x[k]] with [Wk x k]. *)
Definition footprint (Rb : var -> bool) (Wk : var -> string -> bool) (f : step) : Prop :=
  forall st, env_ok st ->
    env_ok (final_state (f st)) /\
    (forall x, Rb x = false -> env (final_state (f st)) x = env st x) /\
    (forall o k, Wk (owner o) k = false ->
                 Dict.get k (heap (final_state (f st)) o) = Dict.get k (heap st o)) /\
    (forall o, (forall k, Wk (owner o) k = false) ->
               heap (final_state (f st)) o = heap st o).

(** ** Inputs used as examples *)

(** A single point with both a PCM dielectric and an SMD solvent. *)
Definition two_models : Args :=
  mkArgs "sp" "def2-tzvpd" "diis" 4 (Some (NumFloat "78.39")) None (Some "water")
         None None None None 100 200 false None None None "atomic" false.

(** The same with a DFT tier that does not exist. *)
Definition two_models_rung0 : Args := set_dft_rung_arg 0 two_models.

Definition benzene_job : Args := set_cmirs_solvent (Some "benzene") opt_job.

Definition toluene_job : Args := set_cmirs_solvent (Some "toluene") opt_job.

Definition water_job : Args := set_cmirs_solvent (Some "water") opt_job.

(** No solvation model, and an override of the [$solvent] section. *)
Definition solvent_override_job : Args :=
  set_overwrite_inputs (Some [("solvent", [("dielectric", VStr "10.0")])]) opt_job.

(** The new optimizer requested with an empty dict. *)
Definition new_optimizer_job : Args := set_new_geom_opt (Some []) opt_job.

(** The table after a build, as the next build finds it. *)
Definition table_after (r : outcome) : string -> string -> dict :=
  fun s rho => heap (final_state r) (O_CMIRS s rho).

(** CMIRS in water with the contour value overridden to 0.0005. *)
Definition water_0005_job : Args :=
  set_overwrite_inputs (Some [("svp", [("rhoiso", VStr "0.0005")])]) water_job.

(** SMD with a solvent of the caller's own. *)
Definition custom_smd_job : Args :=
  mkArgs "opt" "def2-tzvpd" "diis" 4 None None (Some "custom") None
         (Some "90.00,1.415,0.00,0.735,20.2,0.00,0.00") None None
         100 200 false None None None "atomic" false.

Definition set_custom_smd (c : option string) (a : Args) : Args :=
  mkArgs (job_type a) (basis_set a) (scf_algorithm a) (dft_rung a)
         (pcm_dielectric a) (isosvp_dielectric a) (smd_solvent a) (cmirs_solvent a)
         c (opt_variables a) (scan_variables a)
         (max_scf_cycles a) (geom_opt_max_cycles a) (plot_cubes a)
         (nbo_params a) (new_geom_opt a) (overwrite_inputs a) (vdw_mode a)
         (extra_scf_print a).

(** ** The constructor body in two halves *)

Definition through_solvation (a : Args) : step :=
  seed_rem a ;; set_dft_rung a ;; set_geom_opt_max_cycles a ;; check_solvent_def a ;;
  setup_pcm a ;; setup_isosvp a ;; setup_smd a ;; setup_cmirs a.

Definition after_solvation (norm : dict -> dict + exn) (py_int : string -> option Z)
           (a : Args) : step :=
  setup_plots a ;; setup_nbo a ;; setup_new_geom_opt a ;;
  apply_overwrite_inputs norm a ;; apply_extra_scf_print py_int a.

(** Which variable the override of a section is merged into. *)
Definition section_var (sec : string) : option var :=
  if String.eqb sec "rem" then Some myrem
  else if String.eqb sec "pcm" then Some mypcm
  else if String.eqb sec "solvent" then Some mysolvent
  else if String.eqb sec "smx" then Some mysmx
  else if String.eqb sec "scan" then Some myscan
  else if String.eqb sec "van_der_waals" then Some myvdw
  else if String.eqb sec "plots" then Some myplots
  else if String.eqb sec "nbo" then Some mynbo
  else if String.eqb sec "geom_opt" then Some my_geom_opt
  else if String.eqb sec "opt" then Some myopt
  else if String.eqb sec "svp" then Some mysvp
  else if String.eqb sec "pcm_nonels" then Some mypcm_nonels
  else None.

(** The items the override of section [sec] with [d] can assign to. *)
Definition may_write (norm : dict -> dict + exn) (sec : string) (d : dict)
           (x : var) (k : string) : Prop :=
  (sec = "van_der_waals" /\ x = mypcm /\ k = "radii") \/
  (sec = "svp" /\ x = mypcm_nonels) \/
  (section_var sec = Some x /\
   exists temp, norm d = inl temp /\ In k (Dict.keys temp)).

Definition everywhere : var -> string -> bool := fun _ _ => true.
Definition every_var : var -> bool := fun _ => true.
Definition no_var : var -> bool := fun _ => false.

(** Everything but the items of [x]. *)
Definition outside_var (x : var) : var -> string -> bool :=
  fun y _ => negb (var_eqb y x).

Definition other_var (x : var) : var -> bool :=
  fun y => negb (var_eqb y x).

(** Everything but the item [x[k]]. *)
Definition outside_item (x : var) (k : string) : var -> string -> bool :=
  fun y k' => negb (var_eqb y x && String.eqb k' k).

(** The override of section [sec] assigns key [k] (after normalization). *)
Definition override_sets (norm : dict -> dict + exn) (a : Args)
           (sec k : string) : Prop :=
  exists ov d temp,
    overwrite_inputs a = Some ov /\ In (sec, d) ov /\
    norm d = inl temp /\ In k (Dict.keys temp).

(** The overrides name section [sec]. *)
Definition overrides_section (a : Args) (sec : string) : Prop :=
  exists ov d, overwrite_inputs a = Some ov /\ In (sec, d) ov.

(** Two steps that do the same on every state. *)
Definition same_step (f g : step) : Prop := forall st, f st = g st.

(** The name under which the overrides address a variable's section. *)
Definition section_name (x : var) : string :=
  match x with
  | myrem => "rem"
  | myopt => "opt"
  | mypcm => "pcm"
  | mysolvent => "solvent"
  | mysmx => "smx"
  | myscan => "scan"
  | myvdw => "van_der_waals"
  | myplots => "plots"
  | mynbo => "nbo"
  | my_geom_opt => "geom_opt"
  | mysvp => "svp"
  | mypcm_nonels => "pcm_nonels"
  end.

(** The nonelectrostatic section of a CMIRS build in benzene. *)
Definition benzene_nonels : dict :=
  [("a", VStr "-0.00522"); ("b", VStr "0.01294"); ("c", VNone); ("d", VNone);
   ("gamma", VNone); ("solvrho", VStr "0.0421");
   ("delta", VStr "7"); ("gaulag_n", VStr "40")].

(** The fixed table of DFT tiers, as the spec gives it: the functional of
    each tier, and the dispersion flag of tier 2. *)
Definition tier_functional (tier : Z) : string :=
  if tier =? 1 then "b3lyp"
  else if tier =? 2 then "b3lyp"
  else if tier =? 3 then "wb97xd"
  else if tier =? 4 then "wb97xv"
  else "wb97mv".

Definition tier_dispersion (tier : Z) : option pyval :=
  if tier =? 2 then Some (VStr "D3_BJ") else None.

(** What follows the tier resolution. *)
Definition after_dft_rung (norm : dict -> dict + exn) (py_int : string -> option Z)
           (a : Args) : step :=
  set_geom_opt_max_cycles a ;; check_solvent_def a ;;
  setup_pcm a ;; setup_isosvp a ;; setup_smd a ;; setup_cmirs a ;;
  setup_plots a ;; setup_nbo a ;; setup_new_geom_opt a ;;
  apply_overwrite_inputs norm a ;; apply_extra_scf_print py_int a.

(** What precedes the step of the new optimizer. *)
Definition before_new_geom_opt (a : Args) : step :=
  seed_rem a ;; set_dft_rung a ;; set_geom_opt_max_cycles a ;; check_solvent_def a ;;
  setup_pcm a ;; setup_isosvp a ;; setup_smd a ;; setup_cmirs a ;;
  setup_plots a ;; setup_nbo a.

(** The value the optimizer's ["maxiter"] has to have. *)
Definition cycle_limit (a : Args) : pyval := VStr (str_of_Z (geom_opt_max_cycles a)).

Definition other_vars (x y : var) : var -> bool :=
  fun z => negb (var_eqb z x || var_eqb z y).

(** The keys of [myrem] that the phases after the tier resolution assign. *)
Definition later_rem_keys : list string :=
  ["geom_opt_max_cycles"; "solvent_method"; "gen_scfman"; "ideriv"; "plots";
   "make_cube_files"; "nbo"; "nbo_external"; "geom_opt2"; "scf_final_print";
   "scf_convergence"].

(** Tier 1 with the functional overridden in the [rem] section. *)
Definition functional_override_job : Args :=
  set_overwrite_inputs (Some [("rem", [("method", VStr "pbe")])])
                       (set_dft_rung_arg 1 opt_job).

(** A custom SMD solvent with the [smx] section overridden. *)
Definition smx_override_job : Args :=
  set_overwrite_inputs (Some [("smx", [("solvent", VStr "water")])]) custom_smd_job.

(** The new optimizer requested without ["maxiter"], and ["maxiter"]
    overridden afterwards in the [geom_opt] section. *)
Definition maxiter_override_job : Args :=
  set_overwrite_inputs (Some [("geom_opt", [("maxiter", VStr "5")])])
                       new_optimizer_job.

(** The new optimizer requested with ["maxiter"] equal to the cycle limit. *)
Definition maxiter_equal_job : Args :=
  set_new_geom_opt (Some [("maxiter", VStr "200")]) opt_job.

(** The same with another value. *)
Definition maxiter_unequal_job : Args :=
  set_new_geom_opt (Some [("maxiter", VStr "300")]) opt_job.

(** The override merge and what follows it. *)
Definition merge_and_print (norm : dict -> dict + exn) (py_int : string -> option Z)
           (a : Args) : step :=
  apply_overwrite_inputs norm a ;; apply_extra_scf_print py_int a.

(** ** Notions for the override merge *)

(** Every dict on the heap has unique keys. *)
Definition heap_wf (st : State) : Prop := forall o, Dict.wf (heap st o).

(** Every key of [d1] is a key of [d2]. *)
Definition keys_incl (d1 d2 : dict) : Prop :=
  forall k, Dict.get k d1 <> None -> Dict.get k d2 <> None.

(** Two states with the same bindings and the same dicts. *)
Definition state_eq (s t : State) : Prop :=
  (forall x, env s x = env t x) /\ (forall o, heap s o = heap t o).

(** No variable is bound to [o]. *)
Definition unbound (st : State) (o : obj) : Prop := forall x, env st x <> Some o.

(** [dict_sim a b f]: a dict [a] of the first merge, on its way to [f], and
    the dict [b] of the second merge, which started from [f]: [b] has the
    keys of [f], and each item of [b] is either not yet in [a], or as in
    [a], or as in [f]. *)
Definition dict_sim (a b f : dict) : Prop :=
  Dict.keys b = Dict.keys f /\
  forall k, Dict.get k a = None \/ Dict.get k b = Dict.get k a
            \/ Dict.get k b = Dict.get k f.

Definition sim (A B F : State) : Prop :=
  (forall x, env B x = env A x) /\
  (forall o, dict_sim (heap A o) (heap B o) (heap F o)) /\
  (forall o, unbound A o -> heap B o = heap A o).

(** A step of the merge only adds keys, writes only through variables and
    keeps the keys of every dict unique. *)
Definition grows (f : step) : Prop :=
  forall st st', f st = Done st' ->
    (forall x, env st' x = env st x) /\
    (forall o, keys_incl (heap st o) (heap st' o)) /\
    (forall o, unbound st o -> heap st' o = heap st o) /\
    (heap_wf st -> heap_wf st').

(** A step of the first merge can be replayed in the second. *)
Definition simulates (f : step) : Prop :=
  forall A B F A',
    env_ok A -> sim A B F -> f A = Done A' ->
    (forall o, keys_incl (heap A' o) (heap F o)) ->
    exists B', f B = Done B' /\ sim A' B' F.

Definition good (f : step) : Prop := grows f /\ simulates f.

(** The CMIRS solvent, if any, is a key of the table. *)
Definition cmirs_valid (a : Args) : Prop :=
  forall s, cmirs_solvent a = Some s -> str_in s CMIRS_solvents = true.

(** The loop of lines 474-476 on the dicts themselves: [T] is the table entry
    of the new contour value, [d] the nonelectrostatic section. *)
Definition reselect (T : dict) (d : dict) (ks : list string) : dict :=
  fold_left (fun acc k2 =>
               if truthy (Dict.get_default k2 T)
               then Dict.set k2 (Dict.get_default k2 T) acc else acc)
            ks d.

(** The caller's dicts have unique keys, as every Python dict has. *)
Definition args_wf (a : Args) : Prop :=
  (forall d, opt_variables a = Some d -> Dict.wf d) /\
  (forall d, scan_variables a = Some d -> Dict.wf d) /\
  (forall d, nbo_params a = Some d -> Dict.wf d) /\
  (forall d, new_geom_opt a = Some d -> Dict.wf d).

(** A step never completes. *)
Definition never_done (f : step) : Prop := forall st st', f st <> Done st'.

(** A step keeps the keys of every dict unique. *)
Definition keeps_wf (f : step) : Prop :=
  forall st, heap_wf st -> heap_wf (final_state (f st)).

(** A step that at most emits warnings. *)
Definition only_warns (f : step) : Prop :=
  forall st, exists ws, f st = Done (mkState (heap st) (env st) ws).

(** ** Notions for the further properties *)

(** The job types for which [geom_opt_max_cycles] is written (line 333). *)
Definition job_has_cycle_limit (a : Args) : bool :=
  str_in (lower (job_type a)) ["opt"; "ts"; "pes_scan"].

(** The first three phases, and what follows them. *)
Definition seed_tier_cycles (a : Args) : step :=
  seed_rem a ;; set_dft_rung a ;; set_geom_opt_max_cycles a.

Definition after_cycle_limit (norm : dict -> dict + exn) (py_int : string -> option Z)
           (a : Args) : step :=
  check_solvent_def a ;;
  setup_pcm a ;; setup_isosvp a ;; setup_smd a ;; setup_cmirs a ;;
  setup_plots a ;; setup_nbo a ;; setup_new_geom_opt a ;;
  apply_overwrite_inputs norm a ;; apply_extra_scf_print py_int a.

(** The keys of [myrem] assigned after the cycle limit, apart from the
    overrides. *)
Definition rem_keys_after_cycles : list string :=
  ["solvent_method"; "gen_scfman"; "ideriv"; "plots"; "make_cube_files";
   "nbo"; "nbo_external"; "geom_opt2"; "scf_final_print"; "scf_convergence"].

(** The cycle limit a preset ends up with in its primary section. *)
Definition preset_cycle_limit (k : preset) : option pyval :=
  match k with
  | PSinglePoint _ | PForce | PFreq => None
  | POpt _ g _ | PTransitionState _ g => Some (VStr (str_of_Z g))
  | PPESScan _ _ => Some (VStr "200")
  end.

(** A frequency job with the presets' defaults. *)
Definition freq_job : Args := FreqSet preset_defaults.

(** A transition-state search with 75 optimization cycles. *)
Definition ts_job : Args := TransitionStateSet preset_defaults None 75.

(** A step that completes leaves the binding of [x] as it was. *)
Definition keeps_binding (x : var) (f : step) : Prop :=
  forall st st', f st = Done st' -> env st' x = env st x.

Definition nbo_not_run : exn :=
  RuntimeError "Can't overwrite nbo params when NBO is not being run! Exiting...".

Definition new_optimizer_not_used : exn :=
  RuntimeError "Can't overwrite geom_opt params when not using the new optimizer! Exiting...".

(** A frequency job with an override of the [geom_opt] section. *)
Definition freq_geom_opt_job : Args :=
  FreqSet (mkPreset "def2-tzvppd" "diis" 3 None None None None None 100 false None
                    (Some [("geom_opt", [("maxiter", VStr "50")])]) "atomic").

(** An override of the [nbo] section without NBO parameters. *)
Definition nbo_override_job : Args :=
  set_overwrite_inputs (Some [("nbo", [("bndidx", VStr "")])]) opt_job.

(** The phases up to the override merge. *)
Definition derive_and_merge (norm : dict -> dict + exn) (a : Args) : step :=
  derive_sections a ;; apply_overwrite_inputs norm a.

(** A single point with extra SCF printing and a loose convergence
    requested in the [rem] override. *)
Definition loose_scf_job : Args :=
  set_overwrite_inputs (Some [("rem", [("scf_convergence", VStr "5")])])
                       (SinglePointSet preset_defaults true).

(** The same with a tighter convergence than the floor. *)
Definition tight_scf_job : Args :=
  set_overwrite_inputs (Some [("rem", [("scf_convergence", VStr "10")])])
                       (SinglePointSet preset_defaults true).


(** [mypcm["radii"]] is "read". *)
Definition radii_read (st : State) : Prop :=
  exists d, section st mypcm = Some d /\ Dict.get "radii" d = Some (VStr "read").

(** No [pcm] override of [ov] assigns "radii". *)
Definition keeps_radii (norm : dict -> dict + exn) (ov : list (string * dict)) : Prop :=
  forall d temp, In ("pcm", d) ov -> norm d = inl temp -> ~ In "radii" (Dict.keys temp).

(** A PCM single point whose overrides ask for Bondi radii in the [pcm]
    section and then give a custom radius in the [van_der_waals] section. *)
Definition vdw_job : Args :=
  SinglePointSet
    (mkPreset "def2-tzvppd" "diis" 3 (Some (NumFloat "78.39")) None None None None 100
              false None
              (Some [("pcm", [("radii", VStr "bondi")]);
                     ("van_der_waals", [("16", VStr "3.0")])])
              "atomic")
    false.

(** The SMD solvent asks for the solvent data file. *)
Definition needs_solvent_data (a : Args) : bool :=
  match smd_solvent a with
  | Some s => str_in s ["custom"; "other"]
  | None => false
  end.

(** A single point in a custom SMD solvent, with its parameters. *)
Definition custom_solvent_job : Args :=
  SinglePointSet
    (mkPreset "def2-tzvppd" "diis" 3 None None (Some "custom") None
              (Some "18.5,1.415,0.00,0.735,20.2,0.00,0.00") 100 false None None "atomic")
    false.

(** ** Dicts that outlive the call *)

(** Only the variables of [V] are bound to [o]. *)
Definition held_by (V : var -> bool) (o : obj) (st : State) : Prop :=
  forall x, env st x = Some o -> V x = true.

(** [spares V V' o f]: started where only the variables of [V] are bound to
    the dict [o], [f] leaves [o] as it is, whether it returns or raises, and
    when it returns only the variables of [V'] are bound to [o]. *)
Definition spares (V V' : var -> bool) (o : obj) (f : step) : Prop :=
  forall st, held_by V o st ->
    heap (final_state (f st)) o = heap st o /\
    (forall st', f st = Done st' -> held_by V' o st').


(** The solvation phases up to the choice of the coefficient dict
    (lines 307-376), what that choice is (lines 377-378), and the rest. *)
Definition cmirs_head (a : Args) (s : string) : step :=
  bind_var mysvp (Some svp_defaults) ;;
  setitem myrem "solvent_method" (VStr "isosvp") ;;
  setitem myrem "gen_scfman" (VStr "false") ;;
  with_solvent_entry s (setitem mysvp "dielst" (VStr (CMIRS_dielst s))) ;;
  setitem mysvp "idefesr" (VStr "1") ;;
  setitem mysvp "ipnrf" (VStr "1").


Definition cmirs_tail : step :=
  setitem mypcm_nonels "delta" (VStr "7") ;;
  setitem mypcm_nonels "gaulag_n" (VStr "40").




(** The dicts that exist before the call and after it: the caller's NBO
    parameters and the inner dicts of the table.  (The caller's
    [opt_variables], [scan_variables] and [new_geom_opt] are written through
    [myopt], [myscan] and [my_geom_opt].) *)
Definition outlives (o : obj) : Prop :=
  o = O_nbo_params \/ exists s r, o = O_CMIRS s r.

(** The two contour values for which CMIRS is parameterized. *)
Definition cmirs_contour (v : pyval) : Prop :=
  v = VStr "0.001" \/ v = VStr "0.0005".

(** CMIRS in water with a contour value of 0.002 in the [svp] override. *)
Definition water_0002_job : Args :=
  set_overwrite_inputs (Some [("svp", [("rhoiso", VStr "0.002")])]) water_job.

(** ** The NBO step *)







(** ** The caller's [opt_variables] and [scan_variables] *)




(** ** The last assignment to an item *)

(** The value an item has after two steps, from what each assigns to it. *)
Definition last_value (w1 w2 : option pyval) : option pyval :=
  match w2 with Some v => Some v | None => w1 end.

(** [sets_item x k w f]: a run of [f] that completes leaves [x] bound to the
    dict it was bound to, with [x[k]] holding [v] when [w] is [Some v], and
    as it was when [w] is [None]. *)
Definition sets_item (x : var) (k : string) (w : option pyval) (f : step) : Prop :=
  forall st st' o,
    env_ok st -> env st x = Some o -> f st = Done st' ->
    env_ok st' /\ env st' x = Some o /\
    Dict.get k (heap st' o) = last_value (Dict.get k (heap st o)) w.

(** The solvation switches of the primary section, as lines 343-380 assign
    them in turn. *)
Definition solvent_method_of (a : Args) : option pyval :=
  match cmirs_solvent a, smd_solvent a, isosvp_dielectric a, pcm_dielectric a with
  | Some _, _, _, _ => Some (VStr "isosvp")
  | None, Some _, _, _ => Some (VStr "smd")
  | None, None, Some _, _ => Some (VStr "isosvp")
  | None, None, None, Some _ => Some (VStr "pcm")
  | None, None, None, None => None
  end.

Definition gen_scfman_of (a : Args) : pyval :=
  match cmirs_solvent a, isosvp_dielectric a with
  | None, None => VStr "true"
  | _, _ => VStr "false"
  end.

Definition ideriv_of (a : Args) : option pyval :=
  match smd_solvent a with
  | Some _ => Some (VStr "1")
  | None => None
  end.

(** A single point in SMD water, and one in the isodensity model. *)
Definition smd_water_job : Args :=
  SinglePointSet
    (mkPreset "def2-tzvppd" "diis" 3 None None (Some "water") None None 100 false
              None None "atomic")
    false.

Definition isosvp_job : Args :=
  SinglePointSet
    (mkPreset "def2-tzvppd" "diis" 3 None (Some (NumFloat "78.39")) None None None 100
              false None None "atomic")
    false.

(** ** Warnings *)

(** A step that emits no warning, whether it returns or raises. *)
Definition quiet (f : step) : Prop :=
  forall st, warned (final_state (f st)) = warned st.
(** * Properties *)

Lemma count_set_range {A : Type} (x : option A) :
  (x = None /\ count_set x = 0) \/ (x <> None /\ count_set x = 1).
Proof. destruct x; [right | left]; split; try reflexivity; discriminate. Qed.

Lemma at_least_two_set_solvent_def (a : Args) :
  at_least_two_set a <-> 1 < solvent_def a.
Proof.
  unfold at_least_two_set, solvent_def.
  destruct (count_set_range (pcm_dielectric a)) as [[P Pc] | [P Pc]];
  destruct (count_set_range (isosvp_dielectric a)) as [[I Ic] | [I Ic]];
  destruct (count_set_range (smd_solvent a)) as [[S Sc] | [S Sc]];
  destruct (count_set_range (cmirs_solvent a)) as [[C Cc] | [C Cc]];
  rewrite Pc, Ic, Sc, Cc; split; intros H; try lia; tauto.
Qed.

Lemma valid_rung_cases (r : Z) :
  1 <= r <= 5 -> r = 1 \/ r = 2 \/ r = 3 \/ r = 4 \/ r = 5.
Proof. lia. Qed.

Ltac rung_cases H :=
  apply valid_rung_cases in H;
  destruct H as [H | [H | [H | [H | H]]]]; subst.

(** ** Dictionaries *)

Module DictFacts.

Import Dict.

Lemma get_set_same (k : string) (v : pyval) (d : dict) :
  get k (set k v d) = Some v.
Proof.
  induction d as [| [k' v'] d IH]; simpl.
  - now rewrite String.eqb_refl.
  - destruct (String.eqb k k') eqn:E; simpl; rewrite E; auto.
Qed.

Lemma get_set_other (k k' : string) (v : pyval) (d : dict) :
  k' <> k -> get k' (set k v d) = get k' d.
Proof.
  intros N. induction d as [| [k0 v0] d IH]; simpl.
  - apply String.eqb_neq in N. now rewrite N.
  - destruct (String.eqb k k0) eqn:E; simpl.
    + apply String.eqb_eq in E. subst k0.
      apply String.eqb_neq in N. now rewrite N.
    + now rewrite IH.
Qed.

Lemma get_set (k k' : string) (v : pyval) (d : dict) :
  get k' (set k v d) = if String.eqb k' k then Some v else get k' d.
Proof.
  destruct (String.eqb k' k) eqn:E.
  - apply String.eqb_eq in E. subst. apply get_set_same.
  - apply String.eqb_neq in E. now apply get_set_other.
Qed.

Lemma get_none_iff (k : string) (d : dict) :
  get k d = None <-> ~ In k (keys d).
Proof.
  induction d as [| [k' v'] d IH]; simpl.
  - tauto.
  - destruct (String.eqb k k') eqn:E.
    + apply String.eqb_eq in E. subst. split; [discriminate | tauto].
    + apply String.eqb_neq in E. rewrite IH. split; intros H.
      * intros [C | C]; [congruence | tauto].
      * tauto.
Qed.

Lemma get_some_in (k : string) (d : dict) :
  get k d <> None <-> In k (keys d).
Proof.
  rewrite get_none_iff. split; [| tauto].
  intros H. destruct (in_dec string_dec k (keys d)); tauto.
Qed.

Lemma keys_set_present (k : string) (v : pyval) (d : dict) :
  get k d <> None -> keys (set k v d) = keys d.
Proof.
  induction d as [| [k' v'] d IH]; simpl; intros H.
  - congruence.
  - destruct (String.eqb k k') eqn:E; simpl; [reflexivity |].
    now rewrite IH.
Qed.

Lemma keys_set_absent (k : string) (v : pyval) (d : dict) :
  get k d = None -> keys (set k v d) = keys d ++ [k].
Proof.
  induction d as [| [k' v'] d IH]; simpl; intros H.
  - reflexivity.
  - destruct (String.eqb k k') eqn:E; [discriminate |].
    simpl. now rewrite IH.
Qed.

Lemma set_same_value (k : string) (v : pyval) (d : dict) :
  get k d = Some v -> set k v d = d.
Proof.
  induction d as [| [k' v'] d IH]; simpl; intros H.
  - discriminate.
  - destruct (String.eqb k k') eqn:E.
    + congruence.
    + now rewrite IH.
Qed.

Lemma wf_set (k : string) (v : pyval) (d : dict) :
  wf d -> wf (set k v d).
Proof.
  unfold wf. intros W.
  destruct (get k d) eqn:G.
  - rewrite keys_set_present; [assumption | congruence].
  - rewrite keys_set_absent by assumption.
    apply NoDup_app; [assumption | repeat constructor; intros [] | ].
    intros x Hx [<- | []]. now apply get_none_iff in G.
Qed.

Lemma wf_update (src d : dict) : wf d -> wf (update d src).
Proof.
  unfold update. revert d.
  induction src as [| [k v] src IH]; simpl; intros d W; auto using wf_set.
Qed.

(** Two dicts with the same keys in the same order and the same values
    are the same dict. *)
Lemma ext (d1 d2 : dict) :
  wf d1 -> keys d1 = keys d2 -> (forall k, get k d1 = get k d2) -> d1 = d2.
Proof.
  revert d2. induction d1 as [| [k v] d1 IH]; intros [| [k2 v2] d2] W K G;
    try discriminate; [reflexivity |].
  simpl in K. injection K as -> K.
  assert (v = v2).
  { specialize (G k2). simpl in G. rewrite String.eqb_refl in G. congruence. }
  subst v2. f_equal.
  inversion W as [| ? ? Hn W']; subst.
  apply IH; [assumption | assumption |].
  intros k. destruct (string_dec k k2) as [-> | N].
  - assert (E1 : get k2 d1 = None) by now apply get_none_iff.
    assert (E2 : get k2 d2 = None).
    { apply get_none_iff. unfold keys in *. now rewrite <- K. }
    congruence.
  - specialize (G k). simpl in G. apply String.eqb_neq in N.
    now rewrite N in G.
Qed.

Lemma get_update (src d : dict) (k : string) :
  wf src ->
  get k (update d src) = match get k src with Some v => Some v | None => get k d end.
Proof.
  unfold update, wf. revert d.
  induction src as [| [k' v'] src IH]; simpl; intros d W; [reflexivity |].
  inversion W as [| ? ? Hn W']; subst.
  rewrite IH by assumption.
  destruct (String.eqb k k') eqn:E.
  - apply String.eqb_eq in E. subst k'.
    assert (G : get k src = None) by now apply get_none_iff.
    rewrite G. apply get_set_same.
  - destruct (get k src); [reflexivity |].
    apply get_set_other. now apply String.eqb_neq.
Qed.

Lemma str_in_In (k : string) (l : list string) : str_in k l = true <-> In k l.
Proof.
  induction l as [| x l IH]; simpl.
  - split; [discriminate | tauto].
  - rewrite orb_true_iff, IH, String.eqb_eq. split; intros [H | H]; auto.
Qed.

Lemma wfb_wf (d : dict) : wfb d = true -> wf d.
Proof.
  unfold wf. induction d as [| [k v] d IH]; simpl; intros H.
  - constructor.
  - apply andb_true_iff in H as [H1 H2]. constructor; auto.
    intros C. apply str_in_In in C. now rewrite C in H1.
Qed.

End DictFacts.

(** ** Footprints of the steps *)

Section Footprint.

Variable Rb : var -> bool.
Variable Wk : var -> string -> bool.

Lemma fp_skip : footprint Rb Wk skip.
Proof. intros st H. cbn. auto. Qed.

Lemma fp_raise (e : exn) : footprint Rb Wk (raise e).
Proof. intros st H. cbn. auto. Qed.

Lemma fp_warn (m : string) : footprint Rb Wk (warn m).
Proof. intros st H. cbn. auto. Qed.

Lemma fp_seq (f g : step) :
  footprint Rb Wk f -> footprint Rb Wk g -> footprint Rb Wk (f ;; g).
Proof.
  intros Hf Hg st H. unfold seq.
  destruct (Hf st H) as (E1 & B1 & G1 & O1).
  destruct (f st) as [st1 | e st1]; cbn in *; [| auto].
  destruct (Hg st1 E1) as (E2 & B2 & G2 & O2).
  repeat split; auto.
  - intros x Hx. now rewrite B2, B1.
  - intros o k Hk. now rewrite G2, G1.
  - intros o Ho. now rewrite O2, O1.
Qed.

Lemma fp_if (b : bool) (f g : step) :
  footprint Rb Wk f -> footprint Rb Wk g ->
  footprint Rb Wk (if b then f else g).
Proof. now destruct b. Qed.

Lemma fp_when (b : bool) (f : step) :
  footprint Rb Wk f -> footprint Rb Wk (when b f).
Proof. intros H. destruct b; [exact H | apply fp_skip]. Qed.

Lemma fp_setitem (x : var) (k : string) (v : pyval) :
  Wk x k = true -> footprint Rb Wk (setitem x k v).
Proof.
  intros W st H. unfold setitem.
  destruct (env st x) as [o |] eqn:E; cbn; [| auto].
  apply H in E. unfold upd_heap.
  repeat split; auto.
  - intros o' k' Hk. destruct (obj_eq_dec o' o) as [-> | N]; [| reflexivity].
    rewrite E in Hk. apply DictFacts.get_set_other. congruence.
  - intros o' Hk. destruct (obj_eq_dec o' o) as [-> | N]; [| reflexivity].
    rewrite E in Hk. specialize (Hk k). congruence.
Qed.

Lemma fp_bind_var (x : var) (oo : option obj) :
  Rb x = true -> (forall o, oo = Some o -> owner o = x) ->
  footprint Rb Wk (bind_var x oo).
Proof.
  intros R Ho st H. cbn. unfold upd_env. repeat split; auto.
  - intros y o. cbn. destruct (var_eq_dec y x) as [-> | N]; auto.
  - intros y Hy. destruct (var_eq_dec y x) as [-> | N]; congruence.
Qed.

Lemma fp_setitems (x : var) (src : dict) :
  (forall k, In k (Dict.keys src) -> Wk x k = true) ->
  footprint Rb Wk (setitems x src).
Proof.
  induction src as [| [k v] src IH]; intros W; simpl.
  - apply fp_skip.
  - apply fp_seq.
    + apply fp_setitem. apply W. now left.
    + apply IH. intros k' Hk. apply W. now right.
Qed.

Lemma fp_with_state (F : State -> step) :
  (forall s, footprint Rb Wk (F s)) -> footprint Rb Wk (with_state F).
Proof. intros HF st H. now apply HF. Qed.

Lemma fp_with_item (x : var) (k : string) (cont : pyval -> step) :
  (forall v, footprint Rb Wk (cont v)) -> footprint Rb Wk (with_item x k cont).
Proof.
  intros Hc. apply fp_with_state. intros s.
  destruct (section s x) as [d |]; [| apply fp_raise].
  destruct (Dict.get k d) as [v |]; [apply Hc | apply fp_raise].
Qed.

Lemma fp_with_normalized (norm : dict -> dict + exn) (d : dict) (cont : dict -> step) :
  (forall temp, norm d = inl temp -> footprint Rb Wk (cont temp)) ->
  footprint Rb Wk (with_normalized norm d cont).
Proof.
  intros Hc. unfold with_normalized.
  destruct (norm d) as [temp | e] eqn:E; [now apply Hc | apply fp_raise].
Qed.

End Footprint.

(** ** Footprints of the phases *)

Lemma fp_copy_nbo (Rb : var -> bool) (Wk : var -> string -> bool) (p : dict) :
  (forall k, Wk mynbo k = true) -> footprint Rb Wk (copy_nbo p).
Proof.
  intros W. induction p as [| [k v] p IH]; simpl.
  - apply fp_skip.
  - apply fp_seq; [| exact IH].
    destruct (String.eqb k "version"); [apply fp_skip | now apply fp_setitem].
Qed.

Lemma fp_reselect_coeffs (Rb : var -> bool) (Wk : var -> string -> bool)
      (src : obj) (ks : list string) :
  (forall k, Wk mypcm_nonels k = true) -> footprint Rb Wk (reselect_coeffs src ks).
Proof.
  intros W. induction ks as [| k ks IH]; simpl.
  - apply fp_skip.
  - apply fp_seq; [| exact IH].
    apply fp_with_state. intros s.
    destruct (truthy _); [now apply fp_setitem | apply fp_skip].
Qed.

Ltac fp_step side :=
  lazymatch goal with
  | |- footprint _ _ (_ ;; _) => apply fp_seq
  | |- footprint _ _ skip => apply fp_skip
  | |- footprint _ _ (raise _) => apply fp_raise
  | |- footprint _ _ (warn _) => apply fp_warn
  | |- footprint _ _ (setitem _ _ _) => apply fp_setitem; side
  | |- footprint _ _ (bind_var _ None) =>
      apply fp_bind_var; [reflexivity | discriminate]
  | |- footprint _ _ (bind_var _ (Some _)) =>
      apply fp_bind_var; [reflexivity | intros ? [= <-]; reflexivity]
  | |- footprint _ _ (setitems _ _) => apply fp_setitems; intros; side
  | |- footprint _ _ (copy_nbo _) => apply fp_copy_nbo; intros; side
  | |- footprint _ _ (reselect_coeffs _ _) =>
      apply fp_reselect_coeffs; intros; side
  | |- footprint _ _ (with_solvent_entry _ _) => unfold with_solvent_entry
  | |- footprint _ _ (with_coeffs _ _ _) => unfold with_coeffs
  | |- footprint _ _ (when _ _) => apply fp_when
  | |- footprint _ _ (with_state _) => apply fp_with_state; intros ?
  | |- footprint _ _ (with_item _ _ _) => apply fp_with_item; intros ?
  | |- footprint _ _ (if ?b then _ else _) => destruct b
  | |- footprint _ _ (match ?x with _ => _ end) => destruct x
  end.

Ltac fp := repeat fp_step ltac:(reflexivity).

Ltac unfold_phases :=
  unfold through_solvation, after_solvation, derive_sections,
    seed_rem, set_dft_rung, set_geom_opt_max_cycles, check_solvent_def,
    setup_pcm, setup_isosvp, setup_smd, setup_cmirs, setup_plots, setup_nbo,
    setup_new_geom_opt, apply_extra_scf_print, with_solvent_entry, with_coeffs.

(** Every phase before the override merge keeps each variable on a dict of
    its own. *)
Lemma fp_derive_sections (a : Args) :
  footprint every_var everywhere (derive_sections a).
Proof. unfold_phases. fp. Qed.

Lemma fp_apply_extra_scf_print (Rb : var -> bool) (Wk : var -> string -> bool)
      (py_int : string -> option Z) (a : Args) :
  Wk myrem "scf_final_print" = true -> Wk myrem "scf_convergence" = true ->
  footprint Rb Wk (apply_extra_scf_print py_int a).
Proof.
  intros W1 W2. unfold apply_extra_scf_print.
  destruct (extra_scf_print a); [| apply fp_skip].
  apply fp_seq; [now apply fp_setitem |].
  apply fp_with_state. intros s.
  destruct (section s myrem) as [d |]; [| apply fp_raise].
  destruct (Dict.get "scf_convergence" d) as [v |]; [| now apply fp_setitem].
  destruct (int_of py_int v) as [z | e]; [| apply fp_raise].
  destruct (z <? 8); [now apply fp_setitem | apply fp_skip].
Qed.

(** ** Footprint of the override merge *)

Section OverwriteFootprint.

Variable norm : dict -> dict + exn.
Variable a : Args.
Variable Rb : var -> bool.
Variable Wk : var -> string -> bool.

Lemma fp_when_eqb (sec name : string) (body : step) :
  (sec = name -> footprint Rb Wk body) ->
  footprint Rb Wk (when (String.eqb sec name) body).
Proof.
  intros H. destruct (String.eqb_spec sec name); [now apply H | apply fp_skip].
Qed.

Lemma fp_overwrite_svp (temp : dict) :
  (forall k, Wk mypcm_nonels k = true) ->
  (forall k, In k (Dict.keys temp) -> Wk mysvp k = true) ->
  footprint Rb Wk (overwrite_svp a temp).
Proof.
  intros Wn. induction temp as [| [k v] temp IH]; intros Ws; simpl.
  - apply fp_skip.
  - repeat apply fp_seq.
    + destruct (String.eqb k "rhoiso"); [| apply fp_skip].
      unfold svp_rhoiso. destruct (cmirs_solvent a); [| apply fp_skip].
      destruct (negb _); [apply fp_raise |].
      apply fp_with_state. intros s0.
      destruct (section s0 mypcm_nonels) as [d |]; [| apply fp_raise].
      destruct (Dict.keys d) as [| k0 ks]; [apply fp_skip |].
      unfold with_coeffs, with_solvent_entry.
      destruct (str_in s CMIRS_solvents); [| apply fp_raise].
      destruct v as [| r | z | l]; try apply fp_raise.
      destruct (str_in r ["0.001"; "0.0005"]).
      * now apply fp_reselect_coeffs.
      * destruct (String.eqb r "dielst"); apply fp_raise.
    + destruct (String.eqb k "idefesr"); [| apply fp_skip].
      unfold svp_idefesr.
      apply fp_seq; destruct (cmirs_solvent a); try apply fp_skip;
        destruct (py_eq v _); first [apply fp_warn | apply fp_skip].
    + destruct (String.eqb k "dielst"); [| apply fp_skip].
      unfold svp_dielst. apply fp_with_item. intros m.
      destruct (negb _); [apply fp_warn | apply fp_skip].
    + apply fp_setitem. apply Ws. now left.
    + apply IH. intros k' Hk. apply Ws. now right.
Qed.

Lemma fp_overwrite_section (sec : string) (d : dict) :
  (forall x k, may_write norm sec d x k -> Wk x k = true) ->
  footprint Rb Wk (overwrite_section norm a sec d).
Proof.
  intros H.
  assert (T : forall x temp, section_var sec = Some x -> norm d = inl temp ->
                footprint Rb Wk (setitems x temp)).
  { intros x temp Hx Ht. apply fp_setitems. intros k Hk.
    apply H. right; right. split; [exact Hx | now exists temp]. }
  unfold overwrite_section.
  repeat apply fp_seq; apply fp_when_eqb; intros ->;
    try (apply fp_with_normalized; intros temp Ht).
  - now apply T.
  - now apply T.
  - apply fp_seq; [| now apply T].
    apply fp_with_item. intros m.
    destruct (negb _); [apply fp_warn | apply fp_skip].
  - now apply T.
  - now apply T.
  - apply fp_seq; [now apply T |].
    apply fp_setitem. apply H. left. auto.
  - now apply T.
  - apply fp_with_state. intros s.
    destruct (env s mynbo); [| apply fp_raise].
    apply fp_with_normalized; intros temp Ht. now apply T.
  - apply fp_with_state. intros s.
    destruct (env s my_geom_opt); [| apply fp_raise].
    apply fp_with_normalized; intros temp Ht. now apply T.
  - now apply T.
  - apply fp_overwrite_svp.
    + intros k. apply H. right; left. auto.
    + intros k Hk. apply H. right; right. split; [reflexivity | now exists temp].
  - now apply T.
Qed.

Lemma fp_overwrite_sections (ov : list (string * dict)) :
  (forall sec d x k, In (sec, d) ov -> may_write norm sec d x k -> Wk x k = true) ->
  footprint Rb Wk (overwrite_sections norm a ov).
Proof.
  induction ov as [| [sec d] ov IH]; intros H; simpl.
  - apply fp_skip.
  - apply fp_seq.
    + apply fp_overwrite_section. intros x k. apply H. now left.
    + apply IH. intros sec' d' x k Hin. apply H. now right.
Qed.

Lemma fp_apply_overwrite_inputs :
  (forall ov sec d x k, overwrite_inputs a = Some ov -> In (sec, d) ov ->
                        may_write norm sec d x k -> Wk x k = true) ->
  footprint Rb Wk (apply_overwrite_inputs norm a).
Proof.
  intros H. unfold apply_overwrite_inputs.
  destruct (overwrite_inputs a) as [ov |] eqn:E; [| apply fp_skip].
  apply fp_overwrite_sections. intros sec d x k. now apply H.
Qed.

End OverwriteFootprint.

(** ** Running the body *)

Lemma env_ok_initial (a : Args) (table : string -> string -> dict) :
  env_ok (initial_state a table).
Proof.
  intros x o. destruct x; cbn;
    try destruct (opt_variables a); try destruct (scan_variables a);
    intros [= <-]; reflexivity.
Qed.

Lemma seq_assoc (f g h : step) : same_step ((f ;; g) ;; h) (f ;; g ;; h).
Proof. intros st. unfold seq. destruct (f st); reflexivity. Qed.

Lemma seq_same_r (f g g' : step) : same_step g g' -> same_step (f ;; g) (f ;; g').
Proof. intros H st. unfold seq. destruct (f st); [apply H | reflexivity]. Qed.

Lemma same_step_trans (f g h : step) :
  same_step f g -> same_step g h -> same_step f h.
Proof. intros H1 H2 st. now rewrite H1. Qed.

Lemma same_step_refl (f : step) : same_step f f.
Proof. intros st. reflexivity. Qed.

Lemma same_step_sym (f g : step) : same_step f g -> same_step g f.
Proof. intros H st. now rewrite H. Qed.

Ltac reassoc :=
  repeat (eapply same_step_trans; [apply seq_assoc |]; apply seq_same_r);
  apply same_step_refl.

Lemma init_after_solvation (norm : dict -> dict + exn) (py_int : string -> option Z)
      (a : Args) (table : string -> string -> dict) :
  QChemDictSet_init norm py_int a table
  = (through_solvation a ;; after_solvation norm py_int a) (initial_state a table).
Proof.
  unfold QChemDictSet_init.
  enough (H : same_step
                (derive_sections a ;; apply_overwrite_inputs norm a ;;
                 apply_extra_scf_print py_int a)
                (through_solvation a ;; after_solvation norm py_int a))
    by apply H.
  unfold derive_sections, through_solvation, after_solvation.
  eapply same_step_trans; [| apply same_step_sym; reassoc ].
  reassoc.
Qed.

Lemma section_var_name (sec : string) (x : var) :
  section_var sec = Some x -> sec = section_name x.
Proof.
  unfold section_var.
  repeat match goal with
         | |- context [String.eqb sec ?n] =>
             destruct (String.eqb_spec sec n) as [-> | _];
             [intros [= <-]; reflexivity |]
         end.
  discriminate.
Qed.

Lemma seq_done (f g : step) (st st' : State) :
  f st = Done st' -> (f ;; g) st = g st'.
Proof. intros H. unfold seq. now rewrite H. Qed.

Lemma seq_raised (f g : step) (st st' : State) (e : exn) :
  f st = Raised e st' -> (f ;; g) st = Raised e st'.
Proof. intros H. unfold seq. now rewrite H. Qed.

(** What is left of the body after the solvation dispatch rebinds no
    variable but [myplots], [mynbo] and [my_geom_opt], and assigns, apart from
    the overrides, only to items of [myrem], [mynbo] and [my_geom_opt]. *)
Lemma fp_after_solvation_away (norm : dict -> dict + exn)
      (py_int : string -> option Z) (a : Args) (x : var)
      (Wk : var -> string -> bool) :
  x <> myrem -> x <> myplots -> x <> mynbo -> x <> my_geom_opt ->
  (forall y k, y <> x -> Wk y k = true) ->
  (forall ov sec d y k, overwrite_inputs a = Some ov -> In (sec, d) ov ->
                        may_write norm sec d y k -> Wk y k = true) ->
  footprint (other_var x) Wk (after_solvation norm py_int a).
Proof.
  intros N1 N2 N3 N4 W Hov.
  assert (V : forall y, y <> x -> var_eqb y x = false).
  { intros y Hy. unfold var_eqb. destruct (var_eq_dec y x); congruence. }
  assert (R : forall y, y <> x -> other_var x y = true).
  { intros y Hy. unfold other_var. now rewrite V. }
  unfold after_solvation. repeat apply fp_seq.
  - unfold setup_plots. destruct (plot_cubes a); [| apply fp_skip].
    repeat apply fp_seq; try (apply fp_setitem; now apply W).
    apply fp_bind_var; [now apply R | intros ? [= <-]; reflexivity].
  - unfold setup_nbo. destruct (nbo_params a) as [p |].
    + repeat apply fp_seq;
        try (apply fp_bind_var; [now apply R | intros ? [= <-]; reflexivity]);
        try (apply fp_setitem; now apply W).
      * destruct (Dict.get "version" p); [| apply fp_skip].
        destruct (py_eq _ _); [apply fp_setitem; now apply W | apply fp_raise].
      * apply fp_copy_nbo. intros k. now apply W.
    + apply fp_bind_var; [now apply R | discriminate].
  - unfold setup_new_geom_opt. destruct (new_geom_opt a) as [g |].
    + repeat apply fp_seq;
        try (apply fp_bind_var; [now apply R | intros ? [= <-]; reflexivity]);
        try (apply fp_setitem; now apply W).
      * apply fp_with_state. intros s.
        destruct (Dict.get "maxiter" _).
        -- destruct (py_eq _ _); [apply fp_skip | apply fp_raise].
        -- apply fp_setitem; now apply W.
      * apply fp_with_state. intros s. apply fp_seq.
        -- apply fp_bind_var; [now apply R | intros ? [= <-]; reflexivity].
        -- apply fp_setitems. intros k _. now apply W.
    + apply fp_bind_var; [now apply R | discriminate].
  - now apply fp_apply_overwrite_inputs.
  - apply fp_apply_extra_scf_print; now apply W.
Qed.

Lemma var_eqb_refl (x : var) : var_eqb x x = true.
Proof. unfold var_eqb. destruct (var_eq_dec x x); congruence. Qed.

Lemma var_eqb_neq (x y : var) : x <> y -> var_eqb x y = false.
Proof. intros N. unfold var_eqb. destruct (var_eq_dec x y); congruence. Qed.

Lemma outside_var_true (x y : var) (k : string) : y <> x -> outside_var x y k = true.
Proof. intros N. unfold outside_var. now rewrite var_eqb_neq. Qed.

Lemma outside_item_true (x y : var) (k k' : string) :
  y <> x \/ k' <> k -> outside_item x k y k' = true.
Proof.
  intros [N | N]; unfold outside_item.
  - now rewrite var_eqb_neq.
  - apply String.eqb_neq in N. rewrite N. now rewrite andb_false_r.
Qed.

(** Overrides that do not set key [k] of the section of [x] leave the item
    [x[k]] alone; the two items the merge assigns on its own account,
    [mypcm["radii"]] and the coefficients, are set apart. *)
Lemma override_outside_item (norm : dict -> dict + exn) (a : Args)
      (x : var) (k : string) :
  ~ override_sets norm a (section_name x) k ->
  x <> mypcm -> x <> mypcm_nonels ->
  forall ov sec d y k', overwrite_inputs a = Some ov -> In (sec, d) ov ->
                        may_write norm sec d y k' -> outside_item x k y k' = true.
Proof.
  intros Hno N1 N2 ov sec d y k' Ho Hin Hw.
  apply outside_item_true.
  destruct (var_eq_dec y x) as [-> | N]; [right | now left].
  destruct Hw as [(_ & -> & _) | [(_ & ->) | (Hs & temp & Ht & Hk)]];
    try congruence.
  intros ->. apply Hno. apply section_var_name in Hs. subst sec.
  now exists ov, d, temp.
Qed.

(** What follows the tier resolution assigns to [myrem] only under the keys
    of [later_rem_keys], apart from the overrides, and never rebinds it. *)
Lemma fp_after_dft_rung (norm : dict -> dict + exn)
      (py_int : string -> option Z) (a : Args) (k : string) :
  ~ In k later_rem_keys ->
  ~ override_sets norm a "rem" k ->
  footprint (other_var myrem) (outside_item myrem k) (after_dft_rung norm py_int a).
Proof.
  intros Hk Hno.
  assert (S : forall y k', y <> myrem \/ In k' later_rem_keys ->
                           outside_item myrem k y k' = true).
  { intros y k' [N | Hin]; apply outside_item_true; [now left | right].
    intros ->. contradiction. }
  unfold after_dft_rung.
  repeat (apply fp_seq;
          [ unfold_phases;
            repeat fp_step ltac:(apply S; first [left; discriminate | right; simpl; tauto])
          | ]).
  - apply fp_apply_overwrite_inputs.
    apply (override_outside_item norm a myrem k Hno); discriminate.
  - apply fp_apply_extra_scf_print; apply S; right; simpl; tauto.
Qed.

Lemma init_after_dft_rung (norm : dict -> dict + exn) (py_int : string -> option Z)
      (a : Args) (table : string -> string -> dict) :
  QChemDictSet_init norm py_int a table
  = ((seed_rem a ;; set_dft_rung a) ;; after_dft_rung norm py_int a)
      (initial_state a table).
Proof.
  unfold QChemDictSet_init.
  enough (H : same_step
                (derive_sections a ;; apply_overwrite_inputs norm a ;;
                 apply_extra_scf_print py_int a)
                ((seed_rem a ;; set_dft_rung a) ;; after_dft_rung norm py_int a))
    by apply H.
  unfold derive_sections, after_dft_rung.
  eapply same_step_trans; [| apply same_step_sym; reassoc ].
  reassoc.
Qed.

Lemma fp_after_dft_rung_bindings (norm : dict -> dict + exn)
      (py_int : string -> option Z) (a : Args) :
  footprint (other_var myrem) everywhere (after_dft_rung norm py_int a).
Proof.
  unfold after_dft_rung.
  repeat (apply fp_seq; [ unfold_phases; fp | ]).
  - apply fp_apply_overwrite_inputs. reflexivity.
  - apply fp_apply_extra_scf_print; reflexivity.
Qed.

(** ** Single steps *)

Lemma setitem_done (x : var) (k : string) (v : pyval) (st : State) (o : obj) :
  env st x = Some o ->
  setitem x k v st
  = Done (mkState (upd_heap (heap st) o (Dict.set k v (heap st o))) (env st) (warned st)).
Proof. intros E. unfold setitem. now rewrite E. Qed.

Lemma setitems_done (x : var) (src : dict) (st : State) (o : obj) :
  env st x = Some o ->
  exists st',
    setitems x src st = Done st' /\ env st' = env st /\ warned st' = warned st /\
    heap st' o = Dict.update (heap st o) src /\
    (forall o', o' <> o -> heap st' o' = heap st o').
Proof.
  revert st. induction src as [| [k v] src IH]; intros st E; simpl.
  - exists st. repeat split; reflexivity.
  - rewrite (seq_done _ _ _ _ (setitem_done x k v st o E)).
    destruct (IH (mkState (upd_heap (heap st) o (Dict.set k v (heap st o)))
                          (env st) (warned st)) E)
      as (st' & R & Ee & Ew & Ho & Hother).
    exists st'. cbn in *. repeat split; try assumption.
    + rewrite Ho. unfold upd_heap. destruct (obj_eq_dec o o); [reflexivity | congruence].
    + intros o' N. rewrite (Hother o' N). unfold upd_heap.
      destruct (obj_eq_dec o' o); [congruence | reflexivity].
Qed.

(** What precedes the step of the new optimizer neither rebinds [myrem] nor
    touches the dicts of [my_geom_opt]. *)
Lemma fp_before_new_geom_opt (a : Args) :
  footprint (other_vars myrem my_geom_opt) (outside_var my_geom_opt)
            (before_new_geom_opt a).
Proof. unfold before_new_geom_opt. unfold_phases. fp. Qed.

Lemma derive_before_new_geom_opt (a : Args) :
  same_step (derive_sections a) (before_new_geom_opt a ;; setup_new_geom_opt a).
Proof.
  unfold derive_sections, before_new_geom_opt.
  apply same_step_sym. reassoc.
Qed.

(** The phases before the override merge leave [myrem] bound and do not
    assign ["scf_convergence"]. *)
Lemma fp_derive_scf_convergence (a : Args) :
  footprint (other_var myrem) (outside_item myrem "scf_convergence")
            (derive_sections a).
Proof. unfold_phases. fp. Qed.

Lemma fp_merge_and_print (norm : dict -> dict + exn) (py_int : string -> option Z)
      (a : Args) (x : var) (k : string) :
  ~ override_sets norm a (section_name x) k ->
  x <> mypcm -> x <> mypcm_nonels -> x <> myrem ->
  footprint (other_var x) (outside_item x k) (merge_and_print norm py_int a).
Proof.
  intros Hno N1 N2 N3. unfold merge_and_print. apply fp_seq.
  - apply fp_apply_overwrite_inputs. now apply override_outside_item.
  - apply fp_apply_extra_scf_print; apply outside_item_true; left; congruence.
Qed.

Lemma upd_heap_same (h : heap_t) (o : obj) (d : dict) : upd_heap h o d o = d.
Proof. unfold upd_heap. destruct (obj_eq_dec o o); congruence. Qed.

Lemma upd_heap_other (h : heap_t) (o o' : obj) (d : dict) :
  o' <> o -> upd_heap h o d o' = h o'.
Proof. intros N. unfold upd_heap. destruct (obj_eq_dec o' o); congruence. Qed.

Lemma copy_new_geom_opt (sb : State) (g : dict) :
  heap sb O_new_geom_opt = g -> heap sb (Fresh my_geom_opt) = [] ->
  exists s2,
    with_state (fun st => bind_var my_geom_opt (Some (Fresh my_geom_opt)) ;;
                          setitems my_geom_opt (heap st O_new_geom_opt)) sb = Done s2 /\
    section s2 my_geom_opt = Some (Dict.update [] g) /\
    heap s2 O_new_geom_opt = g.
Proof.
  intros Hobj Hfresh. unfold with_state. rewrite Hobj.
  unfold seq, bind_var.
  set (sc := mkState _ _ _).
  assert (Ec : env sc my_geom_opt = Some (Fresh my_geom_opt)) by reflexivity.
  destruct (setitems_done my_geom_opt g sc _ Ec) as (s2 & R & Ee & _ & Ho & Hother).
  exists s2. split; [exact R | split].
  - unfold section. rewrite Ee, Ec. cbn. rewrite Ho. cbn. now rewrite Hfresh.
  - rewrite Hother by discriminate. exact Hobj.
Qed.

Lemma new_geom_opt_step (a : Args) (s1 : State) (g : dict) :
  new_geom_opt a = Some g ->
  env s1 myrem = Some (Fresh myrem) ->
  heap s1 O_new_geom_opt = g ->
  heap s1 (Fresh my_geom_opt) = [] ->
  match Dict.get "maxiter" g with
  | Some v =>
      if py_eq v (cycle_limit a) then
        exists s2, setup_new_geom_opt a s1 = Done s2 /\
                   section s2 my_geom_opt = Some (Dict.update [] g) /\
                   heap s2 O_new_geom_opt = g
      else exists s2, setup_new_geom_opt a s1 = Raised maxiter_mismatch s2
  | None =>
      exists s2, setup_new_geom_opt a s1 = Done s2 /\
                 section s2 my_geom_opt
                   = Some (Dict.update [] (Dict.set "maxiter" (cycle_limit a) g)) /\
                 heap s2 O_new_geom_opt = Dict.set "maxiter" (cycle_limit a) g
  end.
Proof.
  intros Hg Hrem Hobj Hfresh.
  set (sa := mkState (heap s1) (upd_env (env s1) my_geom_opt (Some O_new_geom_opt))
                     (warned s1)).
  assert (Ea : env sa myrem = Some (Fresh myrem)) by exact Hrem.
  set (sb := mkState (upd_heap (heap sa) (Fresh myrem)
                        (Dict.set "geom_opt2" (VStr "3") (heap sa (Fresh myrem))))
                     (env sa) (warned sa)).
  assert (Hb : heap sb O_new_geom_opt = g) by exact Hobj.
  assert (Hf : heap sb (Fresh my_geom_opt) = []) by exact Hfresh.
  assert (Eb : env sb my_geom_opt = Some O_new_geom_opt) by reflexivity.
  assert (E : setup_new_geom_opt a s1
              = (match Dict.get "maxiter" g with
                 | Some v => if py_eq v (cycle_limit a) then skip
                             else raise maxiter_mismatch
                 | None => setitem my_geom_opt "maxiter" (cycle_limit a)
                 end ;;
                 with_state (fun st =>
                   bind_var my_geom_opt (Some (Fresh my_geom_opt)) ;;
                   setitems my_geom_opt (heap st O_new_geom_opt))) sb).
  { unfold setup_new_geom_opt. rewrite Hg.
    unfold seq at 1. unfold bind_var at 1. fold sa.
    rewrite (seq_done _ _ _ _ (setitem_done myrem "geom_opt2" (VStr "3") sa _ Ea)).
    fold sb. unfold seq at 1. unfold with_state at 1. rewrite Hb. reflexivity. }
  rewrite E.
  destruct (Dict.get "maxiter" g) as [v |] eqn:Gm.
  - destruct (py_eq v (cycle_limit a)).
    + unfold seq at 1. cbn [skip].
      destruct (copy_new_geom_opt sb g Hb Hf) as (s2 & R & Hs & Ho).
      exists s2. repeat split; assumption.
    + cbn. eexists. reflexivity.
  - rewrite (seq_done _ _ _ _ (setitem_done my_geom_opt "maxiter" (cycle_limit a) sb _ Eb)).
    set (sb' := mkState _ _ _).
    assert (Hb' : heap sb' O_new_geom_opt = Dict.set "maxiter" (cycle_limit a) g).
    { unfold sb'. cbn [heap]. rewrite upd_heap_same. now rewrite Hb. }
    assert (Hf' : heap sb' (Fresh my_geom_opt) = []).
    { unfold sb'. cbn [heap]. rewrite upd_heap_other by discriminate. exact Hf. }
    destruct (copy_new_geom_opt sb' _ Hb' Hf') as (s2 & R & Hs & Ho).
    exists s2. repeat split; assumption.
Qed.

Lemma extra_scf_print_completes (py_int : string -> option Z) (a : Args)
      (s2 : State) (o : obj) :
  env s2 myrem = Some o -> Dict.get "scf_convergence" (heap s2 o) = None ->
  exists st, apply_extra_scf_print py_int a s2 = Done st.
Proof.
  intros E G. unfold apply_extra_scf_print.
  destruct (extra_scf_print a); [| now exists s2].
  rewrite (seq_done _ _ _ _ (setitem_done myrem "scf_final_print" (VStr "3") s2 o E)).
  unfold with_state, section. cbn [env heap]. rewrite E. cbn [option_map].
  rewrite upd_heap_same.
  rewrite DictFacts.get_set_other by discriminate. rewrite G.
  unfold setitem. cbn [env]. rewrite E. eexists. reflexivity.
Qed.

(** ** The override merge, replayed *)

Lemma keys_incl_refl (d : dict) : keys_incl d d.
Proof. intros k H. exact H. Qed.

Lemma keys_incl_trans (d1 d2 d3 : dict) :
  keys_incl d1 d2 -> keys_incl d2 d3 -> keys_incl d1 d3.
Proof. intros H1 H2 k H. auto. Qed.

Lemma keys_incl_set (k : string) (v : pyval) (d : dict) :
  keys_incl d (Dict.set k v d).
Proof.
  intros k' H. rewrite DictFacts.get_set.
  destruct (String.eqb k' k); [discriminate | exact H].
Qed.

Lemma get_of_keys (d1 d2 : dict) (k : string) :
  Dict.keys d1 = Dict.keys d2 -> Dict.get k d1 <> None -> Dict.get k d2 <> None.
Proof.
  intros K H. apply DictFacts.get_some_in. rewrite <- K.
  now apply DictFacts.get_some_in.
Qed.

Lemma dict_sim_set (a b f : dict) (k : string) (v : pyval) :
  dict_sim a b f -> Dict.get k f <> None ->
  dict_sim (Dict.set k v a) (Dict.set k v b) f.
Proof.
  intros [K G] Hk. split.
  - rewrite DictFacts.keys_set_present; [exact K |].
    apply (get_of_keys f b); [now symmetry | exact Hk].
  - intros k'. rewrite !DictFacts.get_set.
    destruct (String.eqb k' k); [right; left; reflexivity | apply G].
Qed.

(** At the end of the replay the two dicts are the same. *)
Lemma dict_sim_final (b f : dict) : Dict.wf f -> dict_sim f b f -> b = f.
Proof.
  intros W [K G]. symmetry. apply DictFacts.ext; [exact W | now symmetry |].
  intros k. destruct (G k) as [H | [H | H]]; try (now symmetry).
  rewrite H. symmetry. apply DictFacts.get_none_iff. rewrite K.
  now apply DictFacts.get_none_iff.
Qed.

(** *** The coefficient loop on dicts *)

Lemma reselect_keys (T d : dict) (ks : list string) :
  (forall k, In k ks -> Dict.get k d <> None) ->
  Dict.keys (reselect T d ks) = Dict.keys d.
Proof.
  unfold reselect. revert d.
  induction ks as [| k ks IH]; intros d H; simpl; [reflexivity |].
  destruct (truthy (Dict.get_default k T)).
  - rewrite IH.
    + apply DictFacts.keys_set_present. apply H. now left.
    + intros k' Hk. apply keys_incl_set. apply H. now right.
  - apply IH. intros k' Hk. apply H. now right.
Qed.

Lemma reselect_get (T d : dict) (ks : list string) (k : string) :
  Dict.get k (reselect T d ks)
  = if str_in k ks && truthy (Dict.get_default k T)
    then Some (Dict.get_default k T) else Dict.get k d.
Proof.
  unfold reselect. revert d.
  induction ks as [| k0 ks IH]; intros d; simpl; [reflexivity |].
  rewrite IH. destruct (String.eqb k k0) eqn:E; simpl.
  - apply String.eqb_eq in E. subst k0.
    destruct (truthy (Dict.get_default k T)) eqn:Tk.
    + destruct (str_in k ks); simpl; [reflexivity | apply DictFacts.get_set_same].
    + now rewrite andb_false_r.
  - destruct (str_in k ks && truthy (Dict.get_default k T)); [reflexivity |].
    destruct (truthy (Dict.get_default k0 T)); [| reflexivity].
    apply DictFacts.get_set_other. now apply String.eqb_neq.
Qed.

Lemma reselect_wf (T d : dict) (ks : list string) :
  Dict.wf d -> Dict.wf (reselect T d ks).
Proof.
  unfold reselect. revert d.
  induction ks as [| k ks IH]; intros d W; simpl; [exact W |].
  destruct (truthy _); apply IH; [now apply DictFacts.wf_set | exact W].
Qed.

Lemma str_in_keys (k : string) (d : dict) :
  str_in k (Dict.keys d) = true <-> Dict.get k d <> None.
Proof. rewrite DictFacts.str_in_In. symmetry. apply DictFacts.get_some_in. Qed.
Lemma sim_same_dicts (A B F A' B' : State) :
  sim A B F ->
  (forall x, env A' x = env A x) -> (forall o, heap A' o = heap A o) ->
  (forall x, env B' x = env B x) -> (forall o, heap B' o = heap B o) ->
  sim A' B' F.
Proof.
  intros (E & R & U) EA HA EB HB. split; [| split].
  - intros x. now rewrite EB, EA.
  - intros o. rewrite HA, HB. apply R.
  - intros o Ho. rewrite HA, HB. apply U. intros x. rewrite <- EA. apply Ho.
Qed.

Lemma env_ok_same_env (A A' : State) :
  env_ok A -> (forall x, env A' x = env A x) -> env_ok A'.
Proof. intros H E x o. rewrite E. apply H. Qed.

Lemma good_only_warns (f : step) : only_warns f -> good f.
Proof.
  intros H. split.
  - intros st st' E. destruct (H st) as (ws & E'). rewrite E' in E.
    injection E as <-. cbn. repeat split; auto using keys_incl_refl.
  - intros A B F A' Hok S E _. destruct (H A) as (ws & E'). rewrite E' in E.
    injection E as <-. destruct (H B) as (ws' & EB). eexists. split; [exact EB |].
    apply (sim_same_dicts A B); auto.
Qed.

Lemma only_warns_skip : only_warns skip.
Proof. intros st. exists (warned st). now destruct st. Qed.

Lemma only_warns_warn (m : string) : only_warns (warn m).
Proof. intros st. eexists. reflexivity. Qed.

Lemma only_warns_if (b : bool) (f g : step) :
  only_warns f -> only_warns g -> only_warns (if b then f else g).
Proof. now destruct b. Qed.

Lemma good_skip : good skip.
Proof. apply good_only_warns, only_warns_skip. Qed.

Lemma good_warn (m : string) : good (warn m).
Proof. apply good_only_warns, only_warns_warn. Qed.

Lemma good_raise (e : exn) : good (raise e).
Proof. split; [intros st st' E | intros A B F A' _ _ E _]; discriminate. Qed.

Lemma good_if (b : bool) (f g : step) : good f -> good g -> good (if b then f else g).
Proof. now destruct b. Qed.

Lemma good_when (b : bool) (f : step) : good f -> good (when b f).
Proof. intros H. destruct b; [exact H | apply good_skip]. Qed.

Lemma seq_done_inv (f g : step) (st st' : State) :
  (f ;; g) st = Done st' -> exists st1, f st = Done st1 /\ g st1 = Done st'.
Proof.
  unfold seq. destruct (f st) as [st1 | e st1]; [| discriminate].
  intros E. now exists st1.
Qed.

Lemma good_seq (f g : step) : good f -> good g -> good (f ;; g).
Proof.
  intros [Gf Sf] [Gg Sg]. split.
  - intros st st' E. apply seq_done_inv in E as (st1 & E1 & E2).
    destruct (Gf _ _ E1) as (Ee1 & K1 & U1 & W1).
    destruct (Gg _ _ E2) as (Ee2 & K2 & U2 & W2).
    repeat split.
    + intros x. now rewrite Ee2, Ee1.
    + intros o. eapply keys_incl_trans; [apply K1 | apply K2].
    + intros o Ho. rewrite U2, U1; auto.
      intros x. rewrite Ee1. apply Ho.
    + auto.
  - intros A B F A' Hok S E KF. apply seq_done_inv in E as (A1 & E1 & E2).
    destruct (Gf _ _ E1) as (Ee1 & _).
    destruct (Gg _ _ E2) as (_ & K2 & _).
    destruct (Sf A B F A1 Hok S E1) as (B1 & EB1 & S1).
    { intros o. eapply keys_incl_trans; [apply K2 | apply KF]. }
    destruct (Sg A1 B1 F A' (env_ok_same_env A A1 Hok Ee1) S1 E2 KF) as (B' & EB' & S').
    exists B'. split; [| exact S']. unfold seq. now rewrite EB1.
Qed.

Lemma good_with_normalized (norm : dict -> dict + exn) (d : dict) (cont : dict -> step) :
  (forall temp, good (cont temp)) -> good (with_normalized norm d cont).
Proof.
  intros H. unfold with_normalized. destruct (norm d); [apply H | apply good_raise].
Qed.

Lemma good_setitem (x : var) (k : string) (v : pyval) : good (setitem x k v).
Proof.
  split.
  - intros st st'. unfold setitem. destruct (env st x) as [o |] eqn:E; [| discriminate].
    intros [= <-]. cbn. repeat split; auto.
    + intros o'. unfold upd_heap. destruct (obj_eq_dec o' o) as [-> | N].
      * apply keys_incl_set.
      * apply keys_incl_refl.
    + intros o' Ho. apply upd_heap_other. intros ->. now apply (Ho x).
    + intros W o'. cbn. unfold upd_heap. destruct (obj_eq_dec o' o); [| apply W].
      apply DictFacts.wf_set, W.
  - intros A B F A' Hok (Ee & R & U). unfold setitem.
    destruct (env A x) as [o |] eqn:E; [| discriminate].
    intros [= <-] KF. rewrite Ee, E. eexists. split; [reflexivity |].
    split; [| split]; cbn.
    + exact Ee.
    + intros o'. unfold upd_heap. destruct (obj_eq_dec o' o) as [-> | N]; [| apply R].
      apply dict_sim_set; [apply R |].
      specialize (KF o). cbn in KF. rewrite upd_heap_same in KF. apply KF.
      rewrite DictFacts.get_set_same. discriminate.
    + intros o' Ho. assert (N : o' <> o) by (intros ->; now apply (Ho x)).
      rewrite !upd_heap_other by assumption. now apply U.
Qed.

Lemma good_setitems (x : var) (src : dict) : good (setitems x src).
Proof.
  induction src as [| [k v] src IH]; simpl.
  - apply good_skip.
  - apply good_seq; [apply good_setitem | exact IH].
Qed.

Lemma good_with_item (x : var) (k : string) (cont : pyval -> step) :
  (forall m, only_warns (cont m)) -> good (with_item x k cont).
Proof.
  intros H. split.
  - intros st st'. unfold with_item, with_state.
    destruct (section st x) as [d |]; [| discriminate].
    destruct (Dict.get k d) as [m |]; [| discriminate].
    apply (good_only_warns _ (H m)).
  - intros A B F A' Hok (Ee & R & U). unfold with_item, with_state, section.
    rewrite Ee. destruct (env A x) as [o |] eqn:E; [| discriminate]. cbn.
    destruct (Dict.get k (heap A o)) as [m |] eqn:G; [| discriminate].
    intros EA KF.
    destruct (H m A) as (ws & EA'). rewrite EA' in EA. injection EA as <-.
    assert (GB : Dict.get k (heap B o) <> None).
    { apply (get_of_keys (heap F o)); [symmetry; apply R |].
      apply (KF o). cbn. rewrite G. discriminate. }
    destruct (Dict.get k (heap B o)) as [m' |]; [| congruence].
    destruct (H m' B) as (ws' & EB). eexists. split; [exact EB |].
    apply (sim_same_dicts A B); auto. now split.
Qed.

Lemma good_with_env (x : var) (G : option obj -> step) :
  (forall oo, good (G oo)) -> good (with_state (fun st => G (env st x))).
Proof.
  intros H. split.
  - intros st st'. unfold with_state. apply H.
  - intros A B F A' Hok S. unfold with_state.
    destruct S as (Ee & R & U). rewrite Ee. apply H; [exact Hok | now split].
Qed.
Lemma loop_run (src tgt : obj) (T : dict) (ks : list string) (st : State) :
  env st mypcm_nonels = Some tgt ->
  heap st src = T ->
  (src = tgt -> forall k, In k ks -> Dict.get k T <> None) ->
  exists st',
    reselect_coeffs src ks st = Done st' /\
    env st' = env st /\
    heap st' tgt = reselect T (heap st tgt) ks /\
    (forall o, o <> tgt -> heap st' o = heap st o).
Proof.
  revert st. induction ks as [| k ks IH]; intros st E HT Hself; simpl.
  - exists st. repeat split; reflexivity.
  - unfold seq, reselect_coeff, with_state. rewrite HT.
    destruct (truthy (Dict.get_default k T)) eqn:Tk.
    + rewrite (setitem_done _ _ _ _ _ E).
      set (st1 := mkState _ _ _).
      assert (HT1 : heap st1 src = T).
      { unfold st1. cbn [heap]. unfold upd_heap.
        destruct (obj_eq_dec src tgt) as [-> | N]; [| exact HT].
        rewrite HT. apply DictFacts.set_same_value.
        specialize (Hself eq_refl k (or_introl eq_refl)).
        unfold Dict.get_default. now destruct (Dict.get k T). }
      destruct (IH st1 E HT1) as (st' & R & Ee & Ht & Ho).
      { intros Hs k' Hk. apply Hself; [exact Hs | now right]. }
      exists st'. split; [exact R | split; [exact Ee | split]].
      * rewrite Ht. unfold st1. cbn [heap]. now rewrite upd_heap_same.
      * intros o N. rewrite (Ho o N). unfold st1. cbn [heap].
        now apply upd_heap_other.
    + cbn [skip]. apply IH; [exact E | exact HT |].
      intros Hs k' Hk. apply Hself; [exact Hs | now right].
Qed.

Lemma reselect_self (d : dict) (ks : list string) (k : string) :
  (forall k', In k' ks -> Dict.get k' d <> None) ->
  Dict.get k (reselect d d ks) = Dict.get k d.
Proof.
  intros H. rewrite reselect_get.
  destruct (str_in k ks) eqn:E; [| reflexivity].
  apply DictFacts.str_in_In in E. specialize (H k E).
  unfold Dict.get_default. destruct (Dict.get k d) as [v |]; [| congruence].
  now destruct (truthy v).
Qed.

(** When the re-selection of lines 467-476 completes, it was given one of
    the two contour values and found the section bound. *)
Lemma rhoiso_inv (a : Args) (v : pyval) (st st' : State) (s : string) :
  cmirs_solvent a = Some s -> svp_rhoiso a v st = Done st' ->
  exists r tgt, v = VStr r /\ str_in r ["0.001"; "0.0005"] = true /\
                env st mypcm_nonels = Some tgt.
Proof.
  intros Hs. unfold svp_rhoiso. rewrite Hs.
  destruct (negb (py_eq v (VStr "0.001") || py_eq v (VStr "0.0005"))) eqn:Hr;
    [discriminate |].
  assert (Hvr : exists r, v = VStr r /\ str_in r ["0.001"; "0.0005"] = true).
  { apply negb_false_iff, orb_true_iff in Hr. unfold py_eq in Hr.
    destruct Hr as [Hr | Hr];
      [destruct (pyval_eq_dec v (VStr "0.001")) as [-> |]
      |destruct (pyval_eq_dec v (VStr "0.0005")) as [-> |]];
      try discriminate; eexists; split; reflexivity. }
  destruct Hvr as (r & -> & Hin).
  unfold with_state, section.
  destruct (env st mypcm_nonels) as [tgt |] eqn:E; [| discriminate].
  intros _. now exists r, tgt.
Qed.

(** What it does then. *)
Lemma rhoiso_done (a : Args) (r s : string) (tgt : obj) (st : State) :
  cmirs_solvent a = Some s -> str_in s CMIRS_solvents = true ->
  str_in r ["0.001"; "0.0005"] = true ->
  env st mypcm_nonels = Some tgt ->
  exists st',
    svp_rhoiso a (VStr r) st = Done st' /\
    (forall x, env st' x = env st x) /\
    heap st' tgt
    = reselect (heap st (O_CMIRS s r)) (heap st tgt) (Dict.keys (heap st tgt)) /\
    (forall o, o <> tgt -> heap st' o = heap st o).
Proof.
  intros Hs Hv Hin E. unfold svp_rhoiso. rewrite Hs.
  assert (Hr : negb (py_eq (VStr r) (VStr "0.001") || py_eq (VStr r) (VStr "0.0005"))
               = false).
  { simpl in Hin. rewrite orb_false_r in Hin. apply orb_true_iff in Hin.
    unfold py_eq.
    destruct Hin as [H | H]; apply String.eqb_eq in H; subst r; reflexivity. }
  rewrite Hr. unfold with_state, section. rewrite E. cbn [option_map].
  assert (Hloop := loop_run (O_CMIRS s r) tgt (heap st (O_CMIRS s r))
                            (Dict.keys (heap st tgt)) st E eq_refl).
  destruct Hloop as (st' & R & Ee & Ht & Ho).
  { intros <- k Hk. now apply DictFacts.get_some_in. }
  destruct (Dict.keys (heap st tgt)) as [| k0 ks] eqn:Hk.
  - exists st. cbn in R. injection R as <-. repeat split; auto.
  - exists st'. unfold with_coeffs, with_solvent_entry. rewrite Hv, Hin.
    repeat split; auto. intros x. now rewrite Ee.
Qed.

Lemma keys_incl_same_keys (d1 d2 : dict) :
  Dict.keys d1 = Dict.keys d2 -> keys_incl d1 d2.
Proof. intros K k. now apply get_of_keys. Qed.

Lemma wf_same_keys (d1 d2 : dict) :
  Dict.keys d1 = Dict.keys d2 -> Dict.wf d1 -> Dict.wf d2.
Proof. unfold Dict.wf. now intros ->. Qed.

Lemma reselect_own_keys (T d : dict) :
  Dict.keys (reselect T d (Dict.keys d)) = Dict.keys d.
Proof. apply reselect_keys. intros k Hk. now apply DictFacts.get_some_in. Qed.

Lemma good_svp_rhoiso (a : Args) (v : pyval) :
  cmirs_valid a -> good (svp_rhoiso a v).
Proof.
  intros Hv. destruct (cmirs_solvent a) as [s |] eqn:Hs.
  2:{ unfold svp_rhoiso. rewrite Hs. apply good_skip. }
  specialize (Hv s Hs). split.
  - intros st st' E.
    destruct (rhoiso_inv a v st st' s Hs E) as (r & tgt & -> & Hin & Eb).
    destruct (rhoiso_done a r s tgt st Hs Hv Hin Eb) as (st1 & R & Ee & Ht & Ho).
    rewrite R in E. injection E as <-.
    repeat split; [exact Ee | | |].
    + intros o. destruct (obj_eq_dec o tgt) as [-> | N].
      * rewrite Ht. apply keys_incl_same_keys. symmetry. apply reselect_own_keys.
      * rewrite Ho by assumption. apply keys_incl_refl.
    + intros o U. apply Ho. intros ->. now apply (U mypcm_nonels).
    + intros W o. destruct (obj_eq_dec o tgt) as [-> | N].
      * rewrite Ht. apply reselect_wf, W.
      * rewrite Ho by assumption. apply W.
  - intros A B F A' Hok (Ee & R & U) E KF.
    destruct (rhoiso_inv a v A A' s Hs E) as (r & tgt & -> & Hin & Eb).
    destruct (rhoiso_done a r s tgt A Hs Hv Hin Eb) as (A1 & RA & EeA & HtA & HoA).
    rewrite RA in E. injection E as <-.
    assert (EbB : env B mypcm_nonels = Some tgt) by now rewrite Ee.
    destruct (rhoiso_done a r s tgt B Hs Hv Hin EbB) as (B' & RB & EeB & HtB & HoB).
    exists B'. split; [exact RB |]. split; [| split].
    + intros x. now rewrite EeB, EeA.
    + intros o. destruct (obj_eq_dec o tgt) as [-> | N].
      2:{ rewrite HoA, HoB by assumption. apply R. }
      rewrite HtA, HtB. destruct (R tgt) as [K G]. split.
      * now rewrite reselect_own_keys.
      * intros k. rewrite !reselect_get.
        assert (Hcase : Dict.get k (heap A tgt) = None \/
                        Dict.get k (heap A tgt) <> None).
        { destruct (Dict.get k (heap A tgt)); [right; discriminate | now left]. }
        destruct Hcase as [Ga | Ga].
        { left. assert (Hn : str_in k (Dict.keys (heap A tgt)) = false).
          { destruct (str_in k (Dict.keys (heap A tgt))) eqn:Hk; [| reflexivity].
            apply str_in_keys in Hk. congruence. }
          now rewrite Hn. }
        assert (Ha : str_in k (Dict.keys (heap A tgt)) = true).
        { now apply str_in_keys. }
        assert (Hb : str_in k (Dict.keys (heap B tgt)) = true).
        { apply str_in_keys. apply (get_of_keys (heap F tgt)); [now symmetry |].
          apply (KF tgt). rewrite HtA.
          apply (get_of_keys (heap A tgt));
            [symmetry; apply reselect_own_keys | exact Ga]. }
        rewrite Ha, Hb. cbn [andb].
        destruct (obj_eq_dec (O_CMIRS s r) tgt) as [Esrc | Nsrc].
        -- (* the section is the table entry read: nothing changes *)
           assert (SA : forall d k, Dict.get k d <> None ->
                     (if truthy (Dict.get_default k d)
                      then Some (Dict.get_default k d) else Dict.get k d)
                     = Dict.get k d).
           { intros d k0 H0. unfold Dict.get_default.
             destruct (Dict.get k0 d) as [w |]; [| congruence].
             now destruct (truthy w). }
           rewrite Esrc. rewrite (SA (heap A tgt)) by exact Ga.
           rewrite (SA (heap B tgt)) by (now apply str_in_keys).
           apply G.
        -- assert (Hu : unbound A (O_CMIRS s r)).
           { intros x Hx. assert (Hx' := Hok _ _ Hx). cbn in Hx'. subst x.
             rewrite Eb in Hx. congruence. }
           rewrite (U _ Hu).
           destruct (truthy (Dict.get_default k (heap A (O_CMIRS s r)))).
           ++ right; left. reflexivity.
           ++ apply G.
    + intros o Hu. assert (N : o <> tgt).
      { intros ->. apply (Hu mypcm_nonels). now rewrite EeA. }
      rewrite HoA, HoB by assumption. apply U.
      intros x. rewrite <- EeA. apply Hu.
Qed.
Lemma only_warns_seq (f g : step) : only_warns f -> only_warns g -> only_warns (f ;; g).
Proof.
  intros Hf Hg st. destruct (Hf st) as (ws & E). unfold seq. rewrite E.
  destruct (Hg (mkState (heap st) (env st) ws)) as (ws' & E'). rewrite E'.
  now exists ws'.
Qed.

Lemma only_warns_svp_idefesr (a : Args) (v : pyval) : only_warns (svp_idefesr a v).
Proof.
  unfold svp_idefesr. apply only_warns_seq; destruct (cmirs_solvent a);
    try apply only_warns_skip;
    apply only_warns_if; first [apply only_warns_warn | apply only_warns_skip].
Qed.

Lemma good_overwrite_svp (a : Args) (temp : dict) :
  cmirs_valid a -> good (overwrite_svp a temp).
Proof.
  intros Hv. induction temp as [| [k v] temp IH]; simpl.
  - apply good_skip.
  - repeat apply good_seq.
    + apply good_if; [now apply good_svp_rhoiso | apply good_skip].
    + apply good_if; [| apply good_skip].
      apply good_only_warns, only_warns_svp_idefesr.
    + apply good_if; [| apply good_skip].
      unfold svp_dielst. apply good_with_item. intros m.
      apply only_warns_if; [apply only_warns_warn | apply only_warns_skip].
    + apply good_setitem.
    + exact IH.
Qed.

Lemma good_overwrite_section (norm : dict -> dict + exn) (a : Args)
      (sec : string) (d : dict) :
  cmirs_valid a -> good (overwrite_section norm a sec d).
Proof.
  intros Hv. unfold overwrite_section.
  repeat apply good_seq; apply good_when;
    try (apply good_with_normalized; intros temp; apply good_setitems).
  - apply good_with_normalized. intros temp. apply good_seq.
    + apply good_with_item. intros m.
      apply only_warns_if; [apply only_warns_warn | apply only_warns_skip].
    + apply good_setitems.
  - apply good_with_normalized. intros temp. apply good_seq.
    + apply good_setitems.
    + apply good_setitem.
  - apply (good_with_env mynbo
             (fun oo => match oo with
                        | None => raise _
                        | Some _ => with_normalized norm d _
                        end)).
    intros [o |]; [| apply good_raise].
    apply good_with_normalized. intros temp. apply good_setitems.
  - apply (good_with_env my_geom_opt
             (fun oo => match oo with
                        | None => raise _
                        | Some _ => with_normalized norm d _
                        end)).
    intros [o |]; [| apply good_raise].
    apply good_with_normalized. intros temp. apply good_setitems.
  - apply good_with_normalized. intros temp. now apply good_overwrite_svp.
Qed.

Lemma good_overwrite_sections (norm : dict -> dict + exn) (a : Args)
      (ov : list (string * dict)) :
  cmirs_valid a -> good (overwrite_sections norm a ov).
Proof.
  intros Hv. induction ov as [| [sec d] ov IH]; simpl.
  - apply good_skip.
  - apply good_seq; [now apply good_overwrite_section | exact IH].
Qed.

Lemma good_apply_overwrite_inputs (norm : dict -> dict + exn) (a : Args) :
  cmirs_valid a -> good (apply_overwrite_inputs norm a).
Proof.
  intros Hv. unfold apply_overwrite_inputs.
  destruct (overwrite_inputs a); [now apply good_overwrite_sections | apply good_skip].
Qed.

(** A step of the merge that completed completes again from the state it
    reached, and changes nothing. *)
Lemma good_idempotent (f : step) (A F : State) :
  good f -> env_ok A -> heap_wf A -> f A = Done F ->
  exists B, f F = Done B /\ state_eq B F.
Proof.
  intros [G S] Hok W E.
  destruct (G A F E) as (Ee & K & U & WF).
  assert (Hsim : sim A F F).
  { split; [exact Ee | split].
    - intros o. split; [reflexivity | intros k; right; right; reflexivity].
    - exact U. }
  destruct (S A F F F Hok Hsim E) as (B & EB & (EeB & R & _)).
  { intros o. apply keys_incl_refl. }
  exists B. split; [exact EB |]. split.
  - exact EeB.
  - intros o. apply dict_sim_final; [apply (WF W) | apply R].
Qed.
(** *** A build that completes has a CMIRS solvent of the table, if any *)

Lemma derive_done_cmirs_valid (a : Args) (st s1 : State) :
  derive_sections a st = Done s1 -> cmirs_valid a.
Proof.
  intros E s Hs. destruct (str_in s CMIRS_solvents) eqn:Hin; [reflexivity |].
  exfalso. unfold derive_sections in E.
  do 7 (apply seq_done_inv in E as (? & _ & E)).
  apply seq_done_inv in E as (? & E & _).
  unfold setup_cmirs in E. rewrite Hs in E.
  do 3 (apply seq_done_inv in E as (? & _ & E)).
  apply seq_done_inv in E as (? & E & _).
  unfold with_solvent_entry in E. rewrite Hin in E. discriminate.
Qed.

(** *** Unique keys are kept *)

Lemma kw_skip : keeps_wf skip.
Proof. intros st H. exact H. Qed.

Lemma kw_raise (e : exn) : keeps_wf (raise e).
Proof. intros st H. exact H. Qed.

Lemma kw_warn (m : string) : keeps_wf (warn m).
Proof. intros st H. exact H. Qed.

Lemma kw_bind_var (x : var) (oo : option obj) : keeps_wf (bind_var x oo).
Proof. intros st H. exact H. Qed.

Lemma kw_seq (f g : step) : keeps_wf f -> keeps_wf g -> keeps_wf (f ;; g).
Proof.
  intros Hf Hg st H. unfold seq. specialize (Hf st H).
  destruct (f st) as [st1 | e st1]; [apply Hg |]; exact Hf.
Qed.

Lemma kw_setitem (x : var) (k : string) (v : pyval) : keeps_wf (setitem x k v).
Proof.
  intros st H. unfold setitem. destruct (env st x) as [o |]; [| exact H].
  intros o'. cbn. unfold upd_heap. destruct (obj_eq_dec o' o); [| apply H].
  apply DictFacts.wf_set, H.
Qed.

Lemma kw_setitems (x : var) (src : dict) : keeps_wf (setitems x src).
Proof.
  induction src as [| [k v] src IH]; simpl; [apply kw_skip |].
  apply kw_seq; [apply kw_setitem | exact IH].
Qed.

Lemma kw_copy_nbo (p : dict) : keeps_wf (copy_nbo p).
Proof.
  induction p as [| [k v] p IH]; simpl; [apply kw_skip |].
  apply kw_seq; [| exact IH].
  destruct (String.eqb k "version"); [apply kw_skip | apply kw_setitem].
Qed.

Lemma kw_with_state (F : State -> step) :
  (forall s, keeps_wf (F s)) -> keeps_wf (with_state F).
Proof. intros H st. apply H. Qed.

Lemma kw_with_item (x : var) (k : string) (cont : pyval -> step) :
  (forall v, keeps_wf (cont v)) -> keeps_wf (with_item x k cont).
Proof.
  intros H. apply kw_with_state. intros s.
  destruct (section s x) as [d |]; [| apply kw_raise].
  destruct (Dict.get k d); [apply H | apply kw_raise].
Qed.

Ltac kw_step :=
  lazymatch goal with
  | |- keeps_wf (_ ;; _) => apply kw_seq
  | |- keeps_wf skip => apply kw_skip
  | |- keeps_wf (raise _) => apply kw_raise
  | |- keeps_wf (warn _) => apply kw_warn
  | |- keeps_wf (setitem _ _ _) => apply kw_setitem
  | |- keeps_wf (bind_var _ _) => apply kw_bind_var
  | |- keeps_wf (setitems _ _) => apply kw_setitems
  | |- keeps_wf (copy_nbo _) => apply kw_copy_nbo
  | |- keeps_wf (with_solvent_entry _ _) => unfold with_solvent_entry
  | |- keeps_wf (with_coeffs _ _ _) => unfold with_coeffs
  | |- keeps_wf (with_state _) => apply kw_with_state; intros ?
  | |- keeps_wf (with_item _ _ _) => apply kw_with_item; intros ?
  | |- keeps_wf (if ?b then _ else _) => destruct b
  | |- keeps_wf (match ?x with _ => _ end) => destruct x
  end.

Lemma kw_derive_sections (a : Args) : keeps_wf (derive_sections a).
Proof. unfold_phases. repeat kw_step. Qed.

Lemma heap_wf_initial (a : Args) (table : string -> string -> dict) :
  args_wf a -> (forall s r, Dict.wf (table s r)) ->
  heap_wf (initial_state a table).
Proof.
  intros (Ho & Hs & Hn & Hg) Ht o. destruct o; cbn;
    try (apply DictFacts.wfb_wf; reflexivity); try apply Ht.
  - destruct (opt_variables a); [now apply Ho | constructor].
  - destruct (scan_variables a); [now apply Hs | constructor].
  - destruct (nbo_params a); [now apply Hn | constructor].
  - destruct (new_geom_opt a); [now apply Hg | constructor].
Qed.

(** *** The last phase on two equal states *)

Lemma setitem_state_eq (x : var) (k : string) (v : pyval) (s s' t : State) :
  state_eq s s' -> setitem x k v s = Done t ->
  exists t', setitem x k v s' = Done t' /\ state_eq t t'.
Proof.
  intros [Ee Eh]. unfold setitem. rewrite <- Ee.
  destruct (env s x) as [o |]; [| discriminate].
  intros [= <-]. eexists. split; [reflexivity |]. split; cbn.
  - exact Ee.
  - intros o'. unfold upd_heap. destruct (obj_eq_dec o' o); [| apply Eh].
    now rewrite Eh.
Qed.

Lemma extra_scf_print_state_eq (py_int : string -> option Z) (a : Args)
      (s s' t : State) :
  state_eq s s' -> apply_extra_scf_print py_int a s = Done t ->
  exists t', apply_extra_scf_print py_int a s' = Done t' /\ state_eq t t'.
Proof.
  intros Hs. unfold apply_extra_scf_print.
  destruct (extra_scf_print a).
  2:{ intros [= <-]. now exists s'. }
  intros E. apply seq_done_inv in E as (s1 & E1 & E2).
  destruct (setitem_state_eq _ _ _ s s' s1 Hs E1) as (s1' & E1' & Hs1).
  rewrite (seq_done _ _ _ _ E1').
  revert E2. unfold with_state, section.
  destruct Hs1 as [Ee Eh]. rewrite <- Ee.
  destruct (env s1 myrem) as [o |]; [| discriminate]. cbn [option_map].
  rewrite <- Eh.
  assert (Hs1 : state_eq s1 s1') by now split.
  destruct (Dict.get "scf_convergence" (heap s1 o)) as [v |].
  - destruct (int_of py_int v) as [z | e]; [| discriminate].
    destruct (z <? 8).
    + now apply setitem_state_eq.
    + intros [= <-]. now exists s1'.
  - now apply setitem_state_eq.
Qed.

(** ** Conflicting solvation models *)

Lemma conflict_raised (norm : dict -> dict + exn) (py_int : string -> option Z)
      (a : Args) (table : string -> string -> dict) :
  1 <= dft_rung a <= 5 -> 1 < solvent_def a ->
  exists st,
    before_solvation a table = Done st /\
    QChemDictSet_init norm py_int a table = Raised solvation_conflict st /\
    (forall x, In x [mypcm; mysolvent; mysmx; mysvp; mypcm_nonels] ->
               section st x = Some []) /\
    (forall s r, heap st (O_CMIRS s r) = table s r).
Proof.
  intros Hr Hs.
  unfold QChemDictSet_init, derive_sections, before_solvation.
  assert (Hc : check_solvent_def a = raise solvation_conflict).
  { unfold check_solvent_def. apply Z.ltb_lt in Hs. now rewrite Hs. }
  rewrite Hc. unfold set_dft_rung, set_geom_opt_max_cycles.
  destruct (str_in (lower (job_type a)) ["opt"; "ts"; "pes_scan"]);
    rung_cases Hr; rewrite Hr; cbn;
    (eexists; split; [reflexivity | split; [reflexivity | split]];
     [ intros x [<- | [<- | [<- | [<- | [<- | []]]]]]; reflexivity
     | intros; reflexivity ]).
Qed.

(** C1, as the claim states it, fails: with two solvation models and a DFT
    tier outside 1..5 the build raises the tier error, not the conflict
    error, because the tier is checked first. *)
Lemma C1_counterexample :
  at_least_two_set two_models_rung0 /\
  raised (build two_models_rung0) = Some dft_rung_error /\
  raised (build two_models_rung0) <> Some solvation_conflict.
Proof.
  split; [| split].
  - right; left. split; discriminate.
  - reflexivity.
  - discriminate.
Qed.

(** C1, amended: for every build input with a DFT tier in 1..5 in which two or
    more of the four solvation selectors are set, whichever they are, the
    build raises the conflict error, and it does so in a state where the
    solvation sections are still empty and the CMIRS table is untouched. *)
Theorem C1_conflicting_solvation
        (norm : dict -> dict + exn) (py_int : string -> option Z)
        (a : Args) (table : string -> string -> dict) :
  1 <= dft_rung a <= 5 -> at_least_two_set a ->
  exists st,
    before_solvation a table = Done st /\
    QChemDictSet_init norm py_int a table = Raised solvation_conflict st /\
    (forall x, In x [mypcm; mysolvent; mysmx; mysvp; mypcm_nonels] ->
               section st x = Some []) /\
    (forall s r, heap st (O_CMIRS s r) = table s r).
Proof.
  intros Hr H2. apply conflict_raised; [assumption |].
  now apply at_least_two_set_solvent_def.
Qed.

Lemma C1_conflicting_solvation_witness :
  1 <= dft_rung two_models <= 5 /\ at_least_two_set two_models /\
  exists st,
    before_solvation two_models CMIRS_SETTINGS = Done st /\
    build two_models = Raised solvation_conflict st /\
    (forall x, In x [mypcm; mysolvent; mysmx; mysvp; mypcm_nonels] ->
               section st x = Some []) /\
    (forall s r, heap st (O_CMIRS s r) = CMIRS_SETTINGS s r).
Proof.
  assert (R : 1 <= dft_rung two_models <= 5) by (simpl; lia).
  assert (T : at_least_two_set two_models)
    by (right; left; split; discriminate).
  split; [exact R | split; [exact T |]].
  exact (C1_conflicting_solvation normalize decimal_int two_models CMIRS_SETTINGS R T).
Defined.

(** ** An unsupported CMIRS solvent *)

(** C4, as the claim states it, fails: for "toluene" the build ends in the
    [KeyError] of the table lookup, which is neither of the exception
    classes the constructor raises for configuration mistakes. *)
Lemma C4_counterexample :
  raised (build toluene_job) = Some (KeyError "toluene") /\
  (forall msg, raised (build toluene_job) <> Some (ValueError msg)) /\
  (forall msg, raised (build toluene_job) <> Some (RuntimeError msg)).
Proof.
  assert (E : raised (build toluene_job) = Some (KeyError "toluene"))
    by (vm_compute; reflexivity).
  rewrite E. repeat split; intros; discriminate.
Qed.

(** C4, amended: for every build with a DFT tier in 1..5 and no other
    solvation model whose [cmirs_solvent] is not one of the five outer keys
    of the table, the build ends in the [KeyError] that the lookup
    [CMIRS_SETTINGS[cmirs_solvent]] raises for that name; the table is left
    as it was. *)
Theorem C4_unsupported_cmirs_solvent
        (norm : dict -> dict + exn) (py_int : string -> option Z)
        (a : Args) (table : string -> string -> dict) (s : string) :
  1 <= dft_rung a <= 5 ->
  pcm_dielectric a = None -> isosvp_dielectric a = None -> smd_solvent a = None ->
  cmirs_solvent a = Some s -> ~ In s CMIRS_solvents ->
  raised (QChemDictSet_init norm py_int a table) = Some (KeyError s) /\
  forall s' r, table_after (QChemDictSet_init norm py_int a table) s' r = table s' r.
Proof.
  intros Hr Hp Hi Hm Hc Hn.
  assert (Hs : str_in s CMIRS_solvents = false).
  { destruct (str_in s CMIRS_solvents) eqn:E; [| reflexivity].
    apply DictFacts.str_in_In in E. contradiction. }
  unfold table_after, QChemDictSet_init, derive_sections, check_solvent_def,
    solvent_def, setup_pcm, setup_isosvp, setup_smd, setup_cmirs,
    with_solvent_entry, set_dft_rung, set_geom_opt_max_cycles.
  rewrite Hp, Hi, Hm, Hc, Hs.
  destruct (str_in (lower (job_type a)) ["opt"; "ts"; "pes_scan"]);
    rung_cases Hr; rewrite Hr; cbn; split; intros; reflexivity.
Qed.

Lemma C4_unsupported_cmirs_solvent_witness :
  raised (build toluene_job) = Some (KeyError "toluene") /\
  forall s' r, table_after (build toluene_job) s' r = CMIRS_SETTINGS s' r.
Proof.
  apply (C4_unsupported_cmirs_solvent normalize decimal_int toluene_job
           CMIRS_SETTINGS "toluene"); try reflexivity.
  - simpl; lia.
  - simpl. intros [H | [H | [H | [H | [H | []]]]]]; discriminate.
Defined.

(** ** Overriding [$solvent] without a solvent method *)

(** C6: with no solvation model and an override of the [$solvent] section,
    the constructor reads [myrem["solvent_method"]], which was never set: the
    build ends in [KeyError] and no warning has been emitted. *)
Theorem C6_solvent_override_without_method
        (norm : dict -> dict + exn) (py_int : string -> option Z)
        (a : Args) (table : string -> string -> dict)
        (d temp : dict) (rest : list (string * dict)) :
  1 <= dft_rung a <= 5 ->
  pcm_dielectric a = None -> isosvp_dielectric a = None ->
  smd_solvent a = None -> cmirs_solvent a = None ->
  nbo_params a = None -> new_geom_opt a = None ->
  overwrite_inputs a = Some (("solvent", d) :: rest) -> norm d = inl temp ->
  raised (QChemDictSet_init norm py_int a table) = Some (KeyError "solvent_method") /\
  warned (final_state (QChemDictSet_init norm py_int a table)) = [].
Proof.
  intros Hr Hp Hi Hm Hc Hb Hg Ho Hd.
  unfold QChemDictSet_init, derive_sections, check_solvent_def,
    solvent_def, setup_pcm, setup_isosvp, setup_smd, setup_cmirs,
    setup_plots, setup_nbo, setup_new_geom_opt, apply_overwrite_inputs,
    set_dft_rung, set_geom_opt_max_cycles.
  rewrite Hp, Hi, Hm, Hc, Hb, Hg, Ho.
  cbn [overwrite_sections]. unfold overwrite_section.
  cbn [String.eqb Ascii.eqb Bool.eqb when]. unfold with_normalized.
  rewrite Hd.
  destruct (str_in (lower (job_type a)) ["opt"; "ts"; "pes_scan"]);
    destruct (plot_cubes a);
    rung_cases Hr; rewrite Hr; cbn; split; reflexivity.
Qed.

Lemma C6_solvent_override_without_method_witness :
  raised (build solvent_override_job) = Some (KeyError "solvent_method") /\
  warned (final_state (build solvent_override_job)) = [].
Proof.
  apply (C6_solvent_override_without_method normalize decimal_int
           solvent_override_job CMIRS_SETTINGS
           [("dielectric", VStr "10.0")] [("dielectric", VStr "10.0")] []);
    try reflexivity.
  simpl; lia.
Defined.

(** With SMD active the same override only warns, and the build completes. *)
Lemma solvent_override_with_smd_warns :
  let r := build (set_smd_solvent (Some "water") solvent_override_job) in
  raised r = None /\
  warned (final_state r) =
    ["The solvent section will be ignored unless solvent_method=pcm!"] /\
  result_section r mysolvent = Some [("dielectric", VStr "10.0")].
Proof. repeat split. Qed.

(** ** What a build leaves behind *)

(** C3: a build writes into dicts that outlive it.  Requesting the new
    optimizer with an empty dict leaves ["maxiter"] in the caller's dict; a
    CMIRS build adds ["delta"] and ["gaulag_n"] to the table entry of its
    solvent; and after a CMIRS build that overrides the contour value to
    0.0005, a later build with the default contour 0.001 gets the 0.0005
    coefficients. *)
Theorem C3_build_writes_shared_dicts :
  (new_geom_opt new_optimizer_job = Some [] /\
   raised (build new_optimizer_job) = None /\
   heap (final_state (build new_optimizer_job)) O_new_geom_opt
     = [("maxiter", VStr "200")]) /\
  (raised (build water_job) = None /\
   table_after (build water_job) "water" "0.001"
     = CMIRS_SETTINGS "water" "0.001" ++ [("delta", VStr "7"); ("gaulag_n", VStr "40")]) /\
  (raised (build water_0005_job) = None /\
   let later := QChemDictSet_init normalize decimal_int water_job
                  (table_after (build water_0005_job)) in
   option_map (Dict.get "rhoiso") (result_section later mysvp)
     = Some (Some (VStr "0.001")) /\
   option_map (Dict.get "a") (result_section later mypcm_nonels)
     = Some (Dict.get "a" (CMIRS_SETTINGS "water" "0.0005")) /\
   option_map (Dict.get "a") (result_section (build water_job) mypcm_nonels)
     = Some (Dict.get "a" (CMIRS_SETTINGS "water" "0.001")) /\
   Dict.get "a" (CMIRS_SETTINGS "water" "0.0005")
     <> Dict.get "a" (CMIRS_SETTINGS "water" "0.001")).
Proof. repeat split. discriminate. Qed.

(** ** The solvent name "other" *)

(** C10: a build with [smd_solvent="other"] is the build with
    [smd_solvent="custom"]: the two constructors end in the same state with
    the same exception, if any; without [custom_smd] (and with a valid tier
    and no second solvation model) that exception is the one asking for
    [custom_smd]; and [write] puts the same files on disk, [solvent_data]
    among them. *)
Theorem C10_other_is_custom
        (norm : dict -> dict + exn) (py_int : string -> option Z)
        (a : Args) (table : string -> string -> dict) (input_file : string) :
  QChemDictSet_init norm py_int (set_smd_solvent (Some "other") a) table
    = QChemDictSet_init norm py_int (set_smd_solvent (Some "custom") a) table /\
  (1 <= dft_rung a <= 5 ->
   pcm_dielectric a = None -> isosvp_dielectric a = None -> cmirs_solvent a = None ->
   custom_smd a = None ->
   raised (QChemDictSet_init norm py_int (set_smd_solvent (Some "other") a) table)
     = Some custom_smd_missing) /\
  write (set_smd_solvent (Some "other") a) input_file
    = write (set_smd_solvent (Some "custom") a) input_file /\
  (forall text, custom_smd a = Some text ->
     write (set_smd_solvent (Some "other") a) input_file
       = ([InputFile input_file; SolventData input_file text], None)).
Proof.
  split; [| split; [| split; [reflexivity |]]].
  - unfold QChemDictSet_init, derive_sections.
    replace (check_solvent_def (set_smd_solvent (Some "other") a))
      with (check_solvent_def (set_smd_solvent (Some "custom") a))
      by reflexivity.
    replace (setup_smd (set_smd_solvent (Some "other") a))
      with (setup_smd (set_smd_solvent (Some "custom") a))
      by reflexivity.
    reflexivity.
  - intros Hr Hp Hi Hc Hm.
    unfold QChemDictSet_init, derive_sections, check_solvent_def,
      solvent_def, setup_pcm, setup_isosvp, setup_smd,
      set_dft_rung, set_geom_opt_max_cycles.
    cbn [pcm_dielectric isosvp_dielectric cmirs_solvent smd_solvent custom_smd
         dft_rung job_type set_smd_solvent].
    rewrite Hp, Hi, Hc, Hm.
    destruct (str_in (lower (job_type a)) ["opt"; "ts"; "pes_scan"]);
      rung_cases Hr; rewrite Hr; reflexivity.
  - intros text Ht. unfold write. cbn. now rewrite Ht.
Qed.

Lemma C10_other_is_custom_witness :
  raised (build (set_smd_solvent (Some "other") (set_custom_smd None custom_smd_job)))
    = Some custom_smd_missing /\
  write (set_smd_solvent (Some "other") custom_smd_job) "mol.qin"
    = ([InputFile "mol.qin";
        SolventData "mol.qin" "90.00,1.415,0.00,0.735,20.2,0.00,0.00"], None).
Proof.
  split.
  - apply (C10_other_is_custom normalize decimal_int
             (set_custom_smd None custom_smd_job) CMIRS_SETTINGS "mol.qin");
      try reflexivity.
    simpl; lia.
  - apply (C10_other_is_custom normalize decimal_int custom_smd_job
             CMIRS_SETTINGS "mol.qin").
    reflexivity.
Defined.

(** ** The nonelectrostatic section of a CMIRS build *)

(** C2, as the claim states it, fails: the nonelectrostatic section of a
    benzene build does contain the keys ["c"], ["d"] and ["gamma"]; they
    carry the value None. *)
Lemma C2_counterexample :
  raised (build benzene_job) = None /\
  option_map (Dict.mem "gamma") (result_section (build benzene_job) mypcm_nonels)
    = Some true /\
  option_map (Dict.mem "c") (result_section (build benzene_job) mypcm_nonels)
    = Some true /\
  option_map (Dict.mem "d") (result_section (build benzene_job) mypcm_nonels)
    = Some true /\
  option_map (Dict.get "gamma") (result_section (build benzene_job) mypcm_nonels)
    = Some (Some VNone).
Proof. vm_compute. repeat split. Qed.

(** C2, amended: for every build with [cmirs_solvent="benzene"] and no other
    solvation model, run on the table as the module defines it, whose
    overrides name neither the [svp] nor the [pcm_nonels] section, a build
    that completes hands over a nonelectrostatic section with exactly the
    keys a, b, c, d, gamma, solvrho, delta, gaulag_n in this order: a, b and
    solvrho carry the benzene coefficients, c, d and gamma are present with
    the value None, delta is "7" and gaulag_n is "40". *)
Theorem C2_benzene_nonelectrostatic
        (norm : dict -> dict + exn) (py_int : string -> option Z)
        (a : Args) (st : State) :
  cmirs_solvent a = Some "benzene" ->
  pcm_dielectric a = None -> isosvp_dielectric a = None -> smd_solvent a = None ->
  ~ overrides_section a "svp" -> ~ overrides_section a "pcm_nonels" ->
  QChemDictSet_init norm py_int a CMIRS_SETTINGS = Done st ->
  section st mypcm_nonels = Some benzene_nonels.
Proof.
  intros Hc Hp Hi Hm Hsvp Hnon Hdone.
  rewrite init_after_solvation in Hdone.
  assert (Hov : forall ov sec d y k, overwrite_inputs a = Some ov -> In (sec, d) ov ->
                  may_write norm sec d y k -> outside_var mypcm_nonels y k = true).
  { intros ov sec d y k Ho Hin Hw. apply outside_var_true.
    destruct Hw as [(_ & -> & _) | [(-> & _) | (Hs & _)]].
    - discriminate.
    - exfalso. apply Hsvp. now exists ov, d.
    - intros ->. apply section_var_name in Hs. subst sec.
      apply Hnon. now exists ov, d. }
  assert (F := fp_after_solvation_away norm py_int a mypcm_nonels
                 (outside_var mypcm_nonels)
                 ltac:(discriminate) ltac:(discriminate) ltac:(discriminate)
                 ltac:(discriminate)
                 (fun y k => outside_var_true mypcm_nonels y k) Hov).
  assert (Hs : exists sc,
             (through_solvation a (initial_state a CMIRS_SETTINGS) = Done sc /\
              section sc mypcm_nonels = Some benzene_nonels /\ env_ok sc) \/
             (exists e, through_solvation a (initial_state a CMIRS_SETTINGS)
                        = Raised e sc)).
  { assert (Hok : forall s1,
              (forall x, x <> mysvp -> x <> mypcm_nonels ->
                         env s1 x = initial_env a x) ->
              env s1 mysvp = Some svp_defaults ->
              env s1 mypcm_nonels = Some (O_CMIRS "benzene" "0.001") ->
              env_ok s1).
    { intros s1 E1 E2 E3 x o.
      destruct (var_eq_dec x mysvp) as [-> | N1];
        [rewrite E2; intros [= <-]; reflexivity |].
      destruct (var_eq_dec x mypcm_nonels) as [-> | N2];
        [rewrite E3; intros [= <-]; reflexivity |].
      rewrite E1 by assumption. apply (env_ok_initial a CMIRS_SETTINGS). }
    unfold through_solvation, seed_rem, set_dft_rung, set_geom_opt_max_cycles,
      check_solvent_def, solvent_def, setup_pcm, setup_isosvp, setup_smd,
      setup_cmirs, with_solvent_entry.
    rewrite Hc, Hp, Hi, Hm.
    destruct (str_in (lower (job_type a)) ["opt"; "ts"; "pes_scan"]);
      destruct (dft_rung a =? 1); [| destruct (dft_rung a =? 2);
        [| destruct (dft_rung a =? 3); [| destruct (dft_rung a =? 4);
          [| destruct (dft_rung a =? 5)]]] | | destruct (dft_rung a =? 2);
        [| destruct (dft_rung a =? 3); [| destruct (dft_rung a =? 4);
          [| destruct (dft_rung a =? 5)]]]];
      cbn; eexists;
      first [ right; eexists; reflexivity
            | left; split; [reflexivity | split; [reflexivity |]];
              apply Hok; [intros x N1 N2; destruct x; congruence || reflexivity
                         | reflexivity | reflexivity] ]. }
  destruct Hs as (sc & [(Hsc & Hsec & Hok) | (e & Hsc)]).
  - rewrite (seq_done _ _ _ _ Hsc) in Hdone.
    destruct (F sc Hok) as (_ & B & _ & O).
    rewrite Hdone in B, O. cbn in B, O.
    unfold section in *. rewrite (B mypcm_nonels eq_refl).
    destruct (env sc mypcm_nonels) as [o |] eqn:E; [| discriminate].
    cbn in *. rewrite O; [assumption |].
    intros k. apply Hok in E. unfold outside_var. now rewrite E.
  - rewrite (seq_raised _ _ _ _ _ Hsc) in Hdone. discriminate.
Qed.

Lemma C2_benzene_nonelectrostatic_witness :
  section (final_state (build benzene_job)) mypcm_nonels = Some benzene_nonels.
Proof.
  apply (C2_benzene_nonelectrostatic normalize decimal_int benzene_job
           (final_state (build benzene_job)));
    [ reflexivity | reflexivity | reflexivity | reflexivity
    | intros (ov & d & H & _); discriminate
    | intros (ov & d & H & _); discriminate
    | vm_compute; reflexivity ].
Defined.

(** ** The DFT tier *)

(** C7, as the claim states it, fails: with tier 1 and an override of
    ["method"] in the [rem] section, the build completes and the functional
    keyword is the caller's, not the table's. *)
Lemma C7_counterexample :
  dft_rung functional_override_job = 1 /\
  raised (build functional_override_job) = None /\
  option_map (Dict.get "method") (result_section (build functional_override_job) myrem)
    = Some (Some (VStr "pbe")) /\
  VStr "pbe" <> VStr (tier_functional 1).
Proof. vm_compute. repeat split; discriminate. Qed.

Lemma tier_resolved (a : Args) (table : string -> string -> dict) :
  1 <= dft_rung a <= 5 ->
  exists s1 d,
    (seed_rem a ;; set_dft_rung a) (initial_state a table) = Done s1 /\
    env_ok s1 /\ env s1 myrem = Some (Fresh myrem) /\
    heap s1 (Fresh myrem) = d /\
    Dict.get "method" d = Some (VStr (tier_functional (dft_rung a))) /\
    Dict.get "dft_D" d = tier_dispersion (dft_rung a).
Proof.
  intros Hr.
  assert (Hok : forall s1, env s1 = initial_env a -> env_ok s1).
  { intros s1 E x o. rewrite E. apply (env_ok_initial a table). }
  unfold seed_rem, set_dft_rung, tier_functional, tier_dispersion.
  rung_cases Hr; rewrite Hr; cbn;
    (eexists; eexists; split; [reflexivity |]; split; [apply Hok; reflexivity |]);
    repeat split.
Qed.

Lemma tier_rejected (a : Args) (table : string -> string -> dict) :
  ~ (1 <= dft_rung a <= 5) ->
  exists s1, (seed_rem a ;; set_dft_rung a) (initial_state a table)
             = Raised dft_rung_error s1.
Proof.
  intros Hr. unfold seed_rem, set_dft_rung.
  replace (dft_rung a =? 1) with false by (symmetry; apply Z.eqb_neq; lia).
  replace (dft_rung a =? 2) with false by (symmetry; apply Z.eqb_neq; lia).
  replace (dft_rung a =? 3) with false by (symmetry; apply Z.eqb_neq; lia).
  replace (dft_rung a =? 4) with false by (symmetry; apply Z.eqb_neq; lia).
  replace (dft_rung a =? 5) with false by (symmetry; apply Z.eqb_neq; lia).
  cbn. eexists. reflexivity.
Qed.

(** C7, amended: for every tier in 1..5 the tier resolution sets the
    functional keyword to the entry of the fixed table (1 b3lyp, 2 b3lyp,
    3 wb97xd, 4 wb97xv, 5 wb97mv) and the dispersion flag [dft_D] to D3_BJ for
    tier 2 only, and a build that completes hands over these values for each
    of the two keys that the [rem] override does not set; for every tier
    outside 1..5 the build fails with the tier error. *)
Theorem C7_dft_tier
        (norm : dict -> dict + exn) (py_int : string -> option Z)
        (a : Args) (table : string -> string -> dict) :
  (~ (1 <= dft_rung a <= 5) ->
   raised (QChemDictSet_init norm py_int a table) = Some dft_rung_error) /\
  (1 <= dft_rung a <= 5 ->
   forall st, QChemDictSet_init norm py_int a table = Done st ->
     exists d, section st myrem = Some d /\
       (~ override_sets norm a "rem" "method" ->
        Dict.get "method" d = Some (VStr (tier_functional (dft_rung a)))) /\
       (~ override_sets norm a "rem" "dft_D" ->
        Dict.get "dft_D" d = tier_dispersion (dft_rung a))).
Proof.
  rewrite init_after_dft_rung. split.
  - intros Hr. destruct (tier_rejected a table Hr) as (s1 & E).
    now rewrite (seq_raised _ _ _ _ _ E).
  - intros Hr st Hdone.
    destruct (tier_resolved a table Hr) as (s1 & d1 & E & Hok & Hrem & Hd & Hm & Hdisp).
    rewrite (seq_done _ _ _ _ E) in Hdone.
    assert (Hsec : forall k, ~ In k later_rem_keys -> ~ override_sets norm a "rem" k ->
              env st myrem = Some (Fresh myrem) /\
              Dict.get k (heap st (Fresh myrem)) = Dict.get k d1).
    { intros k Hk Hno.
      destruct (fp_after_dft_rung norm py_int a k Hk Hno s1 Hok) as (_ & B & G & _).
      rewrite Hdone in B, G. cbn [final_state] in B, G.
      split.
      - rewrite (B myrem); [exact Hrem | reflexivity].
      - rewrite <- Hd. apply G. cbn. unfold outside_item.
        now rewrite var_eqb_refl, String.eqb_refl. }
    assert (Hbound : env st myrem = Some (Fresh myrem)).
    { destruct (fp_after_dft_rung_bindings norm py_int a s1 Hok) as (_ & B & _).
      rewrite Hdone in B. cbn [final_state] in B.
      rewrite (B myrem); [exact Hrem | reflexivity]. }
    exists (heap st (Fresh myrem)). unfold section. rewrite Hbound.
    split; [reflexivity | split]; intros Hno.
    + rewrite <- Hm. apply Hsec; [| assumption].
      simpl. intros H; repeat destruct H as [H | H]; try discriminate; exact H.
    + rewrite <- Hdisp. apply Hsec; [| assumption].
      simpl. intros H; repeat destruct H as [H | H]; try discriminate; exact H.
Qed.

Lemma C7_dft_tier_witness :
  raised (build two_models_rung0) = Some dft_rung_error /\
  exists d, section (final_state (build opt_job)) myrem = Some d /\
            Dict.get "method" d = Some (VStr "wb97xv") /\
            Dict.get "dft_D" d = None.
Proof.
  split.
  - apply (proj1 (C7_dft_tier normalize decimal_int two_models_rung0 CMIRS_SETTINGS)).
    simpl; lia.
  - destruct (proj2 (C7_dft_tier normalize decimal_int opt_job CMIRS_SETTINGS)
                ltac:(simpl; lia) (final_state (build opt_job))
                ltac:(vm_compute; reflexivity)) as (d & Hs & Hm & Hd).
    exists d. split; [exact Hs |].
    split; [apply Hm | apply Hd]; intros (ov & d0 & temp & H & _); discriminate.
Defined.

(** ** A custom SMD solvent *)

(** C8, as the claim states it, fails: with [smd_solvent="custom"], a
    [custom_smd] string and an override of the [smx] section, the build
    completes and the SMD solvent keyword is the caller's, not "other". *)
Lemma C8_counterexample :
  smd_solvent smx_override_job = Some "custom" /\
  custom_smd smx_override_job <> None /\
  raised (build smx_override_job) = None /\
  option_map (Dict.get "solvent") (result_section (build smx_override_job) mysmx)
    = Some (Some (VStr "water")).
Proof. vm_compute. repeat split; discriminate. Qed.

Lemma custom_smd_dispatch (a : Args) (table : string -> string -> dict) :
  smd_solvent a = Some "custom" ->
  pcm_dielectric a = None -> isosvp_dielectric a = None -> cmirs_solvent a = None ->
  1 <= dft_rung a <= 5 ->
  (custom_smd a = None ->
   exists s, through_solvation a (initial_state a table) = Raised custom_smd_missing s) /\
  (forall c, custom_smd a = Some c ->
   exists sc, through_solvation a (initial_state a table) = Done sc /\
              env_ok sc /\ section sc mysmx = Some [("solvent", VStr "other")]).
Proof.
  intros Hm Hp Hi Hc Hr.
  assert (Hok : forall s1, env s1 = initial_env a -> env_ok s1).
  { intros s1 E x o. rewrite E. apply (env_ok_initial a table). }
  unfold through_solvation, seed_rem, set_dft_rung, set_geom_opt_max_cycles,
    check_solvent_def, solvent_def, setup_pcm, setup_isosvp, setup_smd, setup_cmirs.
  rewrite Hm, Hp, Hi, Hc.
  split; [intros Hn | intros c Hn]; rewrite Hn;
    destruct (str_in (lower (job_type a)) ["opt"; "ts"; "pes_scan"]);
    rung_cases Hr; rewrite Hr; cbn; eexists;
    first [ reflexivity
          | split; [reflexivity | split; [apply Hok; reflexivity | reflexivity]] ].
Qed.

(** C8, amended: for every build with a DFT tier in 1..5, [smd_solvent="custom"]
    and no other solvation model: without [custom_smd] the build fails with
    the error that asks for it; with a [custom_smd] string the solvation
    dispatch accepts the request and sets the SMD solvent keyword to
    "other", the build completes when no NBO analysis, new optimizer or
    override is requested, and a build that completes with overrides that do
    not set the ["solvent"] key of the [smx] section hands over "other". *)
Theorem C8_custom_smd
        (norm : dict -> dict + exn) (py_int : string -> option Z)
        (a : Args) (table : string -> string -> dict) :
  smd_solvent a = Some "custom" ->
  pcm_dielectric a = None -> isosvp_dielectric a = None -> cmirs_solvent a = None ->
  1 <= dft_rung a <= 5 ->
  (custom_smd a = None ->
   raised (QChemDictSet_init norm py_int a table) = Some custom_smd_missing) /\
  (forall c, custom_smd a = Some c ->
     (exists sc, through_solvation a (initial_state a table) = Done sc /\
                 section sc mysmx = Some [("solvent", VStr "other")]) /\
     (nbo_params a = None -> new_geom_opt a = None -> overwrite_inputs a = None ->
      raised (QChemDictSet_init norm py_int a table) = None) /\
     (forall st, QChemDictSet_init norm py_int a table = Done st ->
        ~ override_sets norm a "smx" "solvent" ->
        exists d, section st mysmx = Some d /\
                  Dict.get "solvent" d = Some (VStr "other"))).
Proof.
  intros Hm Hp Hi Hc Hr.
  destruct (custom_smd_dispatch a table Hm Hp Hi Hc Hr) as (Hnone & Hsome).
  split.
  - intros Hn. destruct (Hnone Hn) as (s & E).
    rewrite init_after_solvation. now rewrite (seq_raised _ _ _ _ _ E).
  - intros c Hn. destruct (Hsome c Hn) as (sc & E & Hok & Hsmx).
    split; [now exists sc | split].
    + intros Hb Hg Ho.
      unfold QChemDictSet_init, derive_sections, seed_rem, set_dft_rung,
        set_geom_opt_max_cycles, check_solvent_def, solvent_def, setup_pcm,
        setup_isosvp, setup_smd, setup_cmirs, setup_plots, setup_nbo,
        setup_new_geom_opt, apply_overwrite_inputs, apply_extra_scf_print.
      rewrite Hm, Hp, Hi, Hc, Hn, Hb, Hg, Ho.
      destruct (str_in (lower (job_type a)) ["opt"; "ts"; "pes_scan"]);
        destruct (plot_cubes a); destruct (extra_scf_print a);
        rung_cases Hr; rewrite Hr; reflexivity.
    + intros st Hdone Hno.
      rewrite init_after_solvation, (seq_done _ _ _ _ E) in Hdone.
      assert (F := fp_after_solvation_away norm py_int a mysmx
                     (outside_item mysmx "solvent")
                     ltac:(discriminate) ltac:(discriminate) ltac:(discriminate)
                     ltac:(discriminate)
                     (fun y k N => outside_item_true mysmx y "solvent" k (or_introl N))
                     (override_outside_item norm a mysmx "solvent" Hno
                        ltac:(discriminate) ltac:(discriminate))).
      destruct (F sc Hok) as (_ & B & G & _).
      rewrite Hdone in B, G. cbn [final_state] in B, G.
      unfold section in *. rewrite (B mysmx eq_refl).
      destruct (env sc mysmx) as [o |] eqn:Eo; [| discriminate].
      cbn in *. eexists. split; [reflexivity |].
      rewrite G.
      * injection Hsmx as ->. reflexivity.
      * apply Hok in Eo. rewrite Eo. unfold outside_item.
        now rewrite var_eqb_refl, String.eqb_refl.
Qed.

Lemma C8_custom_smd_witness :
  raised (build (set_custom_smd None custom_smd_job)) = Some custom_smd_missing /\
  raised (build custom_smd_job) = None /\
  exists d, section (final_state (build custom_smd_job)) mysmx = Some d /\
            Dict.get "solvent" d = Some (VStr "other").
Proof.
  split; [| split].
  - apply (proj1 (C8_custom_smd normalize decimal_int
                    (set_custom_smd None custom_smd_job) CMIRS_SETTINGS
                    eq_refl eq_refl eq_refl eq_refl ltac:(simpl; lia))).
    reflexivity.
  - apply (proj2 (C8_custom_smd normalize decimal_int custom_smd_job CMIRS_SETTINGS
                    eq_refl eq_refl eq_refl eq_refl ltac:(simpl; lia))
                 "90.00,1.415,0.00,0.735,20.2,0.00,0.00" eq_refl); reflexivity.
  - apply (proj2 (C8_custom_smd normalize decimal_int custom_smd_job CMIRS_SETTINGS
                    eq_refl eq_refl eq_refl eq_refl ltac:(simpl; lia))
                 "90.00,1.415,0.00,0.735,20.2,0.00,0.00" eq_refl).
    + vm_compute. reflexivity.
    + intros (ov & d0 & temp & H & _). discriminate.
Defined.

(** ** The new optimizer's ["maxiter"] *)

(** C5, as the claim states it, fails: with ["maxiter"] omitted from
    [new_geom_opt] and set to "5" by an override of the [geom_opt] section,
    the build completes and the optimizer section holds "5", not the cycle
    limit "200". *)
Lemma C5_counterexample :
  new_geom_opt maxiter_override_job = Some [] /\
  raised (build maxiter_override_job) = None /\
  option_map (Dict.get "maxiter") (result_section (build maxiter_override_job) my_geom_opt)
    = Some (Some (VStr "5")) /\
  cycle_limit maxiter_override_job = VStr "200".
Proof. vm_compute. repeat split. Qed.

(** C5, amended: for every build that requests the new optimizer with a
    dict [g] and reaches the optimizer step (nothing before it raises): if
    ["maxiter"] in [g] is unequal to [str(geom_opt_max_cycles)] the build
    fails with the mismatch error; if it is equal, or omitted, the step
    completes with ["maxiter"] equal to the cycle limit in the optimizer
    section, the build completes when there are no overrides, and a build
    that completes with overrides that do not set ["maxiter"] in the
    [geom_opt] section hands over the cycle limit. *)
Theorem C5_new_optimizer_maxiter
        (norm : dict -> dict + exn) (py_int : string -> option Z)
        (a : Args) (table : string -> string -> dict) (g : dict) (s1 : State) :
  new_geom_opt a = Some g -> Dict.wf g ->
  before_new_geom_opt a (initial_state a table) = Done s1 ->
  (forall v, Dict.get "maxiter" g = Some v -> v <> cycle_limit a ->
     raised (QChemDictSet_init norm py_int a table) = Some maxiter_mismatch) /\
  (Dict.get "maxiter" g = Some (cycle_limit a) \/ Dict.get "maxiter" g = None ->
     (exists s2 d, derive_sections a (initial_state a table) = Done s2 /\
                   section s2 my_geom_opt = Some d /\
                   Dict.get "maxiter" d = Some (cycle_limit a)) /\
     (overwrite_inputs a = None ->
      raised (QChemDictSet_init norm py_int a table) = None) /\
     (forall st, QChemDictSet_init norm py_int a table = Done st ->
        ~ override_sets norm a "geom_opt" "maxiter" ->
        exists d, section st my_geom_opt = Some d /\
                  Dict.get "maxiter" d = Some (cycle_limit a))).
Proof.
  intros Hg Hwf Hpre.
  set (s0 := initial_state a table) in *.
  assert (Hok0 : env_ok s0) by apply env_ok_initial.
  destruct (fp_before_new_geom_opt a s0 Hok0) as (_ & B & _ & O).
  rewrite Hpre in B, O. cbn [final_state] in B, O.
  assert (Hrem : env s1 myrem = Some (Fresh myrem)) by (now rewrite B).
  assert (Hobj : heap s1 O_new_geom_opt = g).
  { rewrite O by reflexivity. cbn. now rewrite Hg. }
  assert (Hfresh : heap s1 (Fresh my_geom_opt) = []) by (now rewrite O).
  assert (Step := new_geom_opt_step a s1 g Hg Hrem Hobj Hfresh).
  assert (Hder : derive_sections a s0 = setup_new_geom_opt a s1).
  { rewrite derive_before_new_geom_opt. now apply seq_done. }
  assert (Hinit : QChemDictSet_init norm py_int a table
                  = (derive_sections a ;; merge_and_print norm py_int a) s0).
  { unfold QChemDictSet_init, merge_and_print, s0. reflexivity. }
  assert (Hfin : forall s2 d,
             derive_sections a s0 = Done s2 ->
             section s2 my_geom_opt = Some d ->
             Dict.get "maxiter" d = Some (cycle_limit a) ->
             (overwrite_inputs a = None ->
              raised (QChemDictSet_init norm py_int a table) = None) /\
             (forall st, QChemDictSet_init norm py_int a table = Done st ->
                ~ override_sets norm a "geom_opt" "maxiter" ->
                exists d', section st my_geom_opt = Some d' /\
                           Dict.get "maxiter" d' = Some (cycle_limit a))).
  { intros s2 d E2 Hsec Hmax. rewrite Hinit, (seq_done _ _ _ _ E2).
    assert (Hok2 : env_ok s2).
    { destruct (fp_derive_sections a s0 Hok0) as (H & _). now rewrite E2 in H. }
    split.
    - intros Ho.
      destruct (fp_derive_scf_convergence a s0 Hok0) as (_ & B2 & G2 & _).
      rewrite E2 in B2, G2. cbn [final_state] in B2, G2.
      destruct (extra_scf_print_completes py_int a s2 (Fresh myrem)) as (st & Est).
      + now rewrite B2.
      + now rewrite G2.
      + unfold merge_and_print, apply_overwrite_inputs. rewrite Ho.
        unfold seq, skip. now rewrite Est.
    - intros st Hdone Hno.
      destruct (fp_merge_and_print norm py_int a my_geom_opt "maxiter" Hno
                  ltac:(discriminate) ltac:(discriminate) ltac:(discriminate)
                  s2 Hok2) as (_ & B3 & G3 & _).
      rewrite Hdone in B3, G3. cbn [final_state] in B3, G3.
      unfold section in *. rewrite (B3 my_geom_opt eq_refl).
      destruct (env s2 my_geom_opt) as [o |] eqn:Eo; [| discriminate].
      cbn in *. eexists. split; [reflexivity |].
      rewrite G3.
      + injection Hsec as ->. assumption.
      + apply Hok2 in Eo. rewrite Eo. unfold outside_item.
        now rewrite var_eqb_refl, String.eqb_refl. }
  split.
  - intros v Gm Hv. rewrite Gm in Step.
    assert (Hne : py_eq v (cycle_limit a) = false).
    { unfold py_eq. destruct (pyval_eq_dec v (cycle_limit a)); congruence. }
    rewrite Hne in Step. destruct Step as (s2 & E).
    rewrite Hinit. rewrite <- Hder in E. now rewrite (seq_raised _ _ _ _ _ E).
  - intros [Gm | Gm]; rewrite Gm in Step.
    + assert (He : py_eq (cycle_limit a) (cycle_limit a) = true).
      { unfold py_eq. destruct (pyval_eq_dec _ _); congruence. }
      rewrite He in Step. destruct Step as (s2 & E & Hsec & _).
      rewrite <- Hder in E.
      assert (Hmax : Dict.get "maxiter" (Dict.update [] g) = Some (cycle_limit a)).
      { rewrite DictFacts.get_update by assumption. now rewrite Gm. }
      split; [exists s2, (Dict.update [] g); repeat split; assumption
            | exact (Hfin s2 _ E Hsec Hmax)].
    + destruct Step as (s2 & E & Hsec & _).
      rewrite <- Hder in E.
      assert (Hmax : Dict.get "maxiter"
                       (Dict.update [] (Dict.set "maxiter" (cycle_limit a) g))
                     = Some (cycle_limit a)).
      { rewrite DictFacts.get_update by now apply DictFacts.wf_set.
        now rewrite DictFacts.get_set_same. }
      split; [eexists s2, _; repeat split; eassumption
            | exact (Hfin s2 _ E Hsec Hmax)].
Qed.

Lemma C5_new_optimizer_maxiter_witness :
  raised (build maxiter_unequal_job) = Some maxiter_mismatch /\
  raised (build maxiter_equal_job) = None /\
  exists d, section (final_state (build new_optimizer_job)) my_geom_opt = Some d /\
            Dict.get "maxiter" d = Some (cycle_limit new_optimizer_job).
Proof.
  split; [| split].
  - apply (proj1 (C5_new_optimizer_maxiter normalize decimal_int maxiter_unequal_job
                    CMIRS_SETTINGS [("maxiter", VStr "300")]
                    (final_state (before_new_geom_opt maxiter_unequal_job
                                    (initial_state maxiter_unequal_job CMIRS_SETTINGS)))
                    eq_refl
                    (DictFacts.wfb_wf [("maxiter", VStr "300")] eq_refl)
                    ltac:(vm_compute; reflexivity))
                 (VStr "300") eq_refl).
    intros H. vm_compute in H. discriminate.
  - apply (proj2 (C5_new_optimizer_maxiter normalize decimal_int maxiter_equal_job
                    CMIRS_SETTINGS [("maxiter", VStr "200")]
                    (final_state (before_new_geom_opt maxiter_equal_job
                                    (initial_state maxiter_equal_job CMIRS_SETTINGS)))
                    eq_refl
                    (DictFacts.wfb_wf [("maxiter", VStr "200")] eq_refl)
                    ltac:(vm_compute; reflexivity))).
    + left. vm_compute. reflexivity.
    + reflexivity.
  - apply (proj2 (C5_new_optimizer_maxiter normalize decimal_int new_optimizer_job
                    CMIRS_SETTINGS []
                    (final_state (before_new_geom_opt new_optimizer_job
                                    (initial_state new_optimizer_job CMIRS_SETTINGS)))
                    eq_refl (DictFacts.wfb_wf [] eq_refl)
                    ltac:(vm_compute; reflexivity))).
    + right. reflexivity.
    + vm_compute. reflexivity.
    + intros (ov & d0 & temp & H & _). discriminate.
Defined.

(** ** The override merge, applied twice *)

Lemma CMIRS_SETTINGS_wf (s r : string) : Dict.wf (CMIRS_SETTINGS s r).
Proof.
  unfold CMIRS_SETTINGS.
  repeat match goal with
         | |- context [String.eqb ?x ?y] => destruct (String.eqb x y)
         end;
    apply DictFacts.wfb_wf; reflexivity.
Qed.

(** C9: for every build that completes (on dicts with unique keys, as Python
    dicts have), merging the same overrides a second time over the merged
    sections completes and changes no section and no dict; hence the body
    with the merge run twice completes with the same sections and the same
    dicts as the build. *)
Theorem C9_override_merge_idempotent
        (norm : dict -> dict + exn) (py_int : string -> option Z)
        (a : Args) (table : string -> string -> dict) (st : State) :
  args_wf a -> (forall s r, Dict.wf (table s r)) ->
  QChemDictSet_init norm py_int a table = Done st ->
  (forall s1 s2,
     derive_sections a (initial_state a table) = Done s1 ->
     apply_overwrite_inputs norm a s1 = Done s2 ->
     exists s3, apply_overwrite_inputs norm a s2 = Done s3 /\
                (forall x, section s3 x = section s2 x) /\
                (forall o, heap s3 o = heap s2 o)) /\
  exists st2,
    QChemDictSet_init_merge_twice norm py_int a table = Done st2 /\
    (forall x, section st2 x = section st x) /\
    (forall o, heap st2 o = heap st o).
Proof.
  intros Hargs Htable Hdone.
  assert (Hsec : forall s t, state_eq s t -> forall x, section s x = section t x).
  { intros s t [Ee Eh] x. unfold section. rewrite Ee.
    destruct (env t x); [cbn; now rewrite Eh | reflexivity]. }
  assert (Hmerge : forall s1 s2,
             derive_sections a (initial_state a table) = Done s1 ->
             apply_overwrite_inputs norm a s1 = Done s2 ->
             exists s3, apply_overwrite_inputs norm a s2 = Done s3 /\ state_eq s3 s2).
  { intros s1 s2 E1 E2.
    assert (Hok : env_ok s1).
    { destruct (fp_derive_sections a _ (env_ok_initial a table)) as (H & _).
      now rewrite E1 in H. }
    assert (W : heap_wf s1).
    { assert (H := kw_derive_sections a _ (heap_wf_initial a table Hargs Htable)).
      now rewrite E1 in H. }
    apply (good_idempotent _ s1 s2); try assumption.
    apply good_apply_overwrite_inputs. exact (derive_done_cmirs_valid a _ _ E1). }
  split.
  - intros s1 s2 E1 E2. destruct (Hmerge s1 s2 E1 E2) as (s3 & E3 & Heq).
    exists s3. split; [exact E3 | split; [now apply Hsec | apply Heq]].
  - unfold QChemDictSet_init in Hdone.
    apply seq_done_inv in Hdone as (s1 & E1 & Hdone).
    apply seq_done_inv in Hdone as (s2 & E2 & E4).
    destruct (Hmerge s1 s2 E1 E2) as (s3 & E3 & [Ee Eh]).
    assert (Heq : state_eq s2 s3) by (split; intros; symmetry; auto).
    destruct (extra_scf_print_state_eq py_int a s2 s3 st Heq E4) as (st2 & E5 & [Ee2 Eh2]).
    exists st2. split; [| split].
    + unfold QChemDictSet_init_merge_twice.
      rewrite (seq_done _ _ _ _ E1), (seq_done _ _ _ _ E2), (seq_done _ _ _ _ E3).
      exact E5.
    + intros x. apply Hsec. split; intros; symmetry; auto.
    + intros o. symmetry. apply Eh2.
Qed.

Lemma C9_override_merge_idempotent_witness :
  exists st2,
    QChemDictSet_init_merge_twice normalize decimal_int water_0005_job CMIRS_SETTINGS
      = Done st2 /\
    (forall x, section st2 x = section (final_state (build water_0005_job)) x) /\
    (forall o, heap st2 o = heap (final_state (build water_0005_job)) o).
Proof.
  refine (proj2 (C9_override_merge_idempotent normalize decimal_int water_0005_job
                   CMIRS_SETTINGS (final_state (build water_0005_job)) _
                   CMIRS_SETTINGS_wf _)).
  - repeat split; intros d H; discriminate.
  - vm_compute. reflexivity.
Defined.
(** * Further properties of the constructor *)

(** ** The first three phases *)

Lemma init_after_cycle_limit (norm : dict -> dict + exn) (py_int : string -> option Z)
      (a : Args) (table : string -> string -> dict) :
  QChemDictSet_init norm py_int a table
  = (seed_tier_cycles a ;; after_cycle_limit norm py_int a) (initial_state a table).
Proof.
  unfold QChemDictSet_init.
  enough (H : same_step
                (derive_sections a ;; apply_overwrite_inputs norm a ;;
                 apply_extra_scf_print py_int a)
                (seed_tier_cycles a ;; after_cycle_limit norm py_int a))
    by apply H.
  unfold derive_sections, seed_tier_cycles, after_cycle_limit.
  eapply same_step_trans; [| apply same_step_sym; reassoc ].
  reassoc.
Qed.

(** Either the tier is rejected, or the three phases end in a state with the
    initial bindings in which only the dict of [myrem] has changed. *)
Lemma seed_tier_cycles_run (a : Args) (table : string -> string -> dict) :
  (exists s, seed_tier_cycles a (initial_state a table) = Raised dft_rung_error s) \/
  (1 <= dft_rung a <= 5 /\
   exists h1,
     seed_tier_cycles a (initial_state a table) = Done (mkState h1 (initial_env a) []) /\
     (forall o, o <> Fresh myrem -> h1 o = initial_heap a table o) /\
     Dict.get "geom_opt_max_cycles" (h1 (Fresh myrem))
       = (if job_has_cycle_limit a then Some (cycle_limit a) else None) /\
     Dict.get "gen_scfman" (h1 (Fresh myrem)) = Some (VStr "true") /\
     Dict.get "solvent_method" (h1 (Fresh myrem)) = None).
Proof.
  unfold seed_tier_cycles, seed_rem, set_dft_rung, set_geom_opt_max_cycles,
    job_has_cycle_limit, cycle_limit.
  assert (Ho : forall (h : heap_t) d o, o <> Fresh myrem ->
             upd_heap h (Fresh myrem) d o = h o).
  { intros h d o N. now apply upd_heap_other. }
  destruct (str_in (lower (job_type a)) ["opt"; "ts"; "pes_scan"]);
    destruct (Z.eqb_spec (dft_rung a) 1) as [E1 | N1];
    [| destruct (Z.eqb_spec (dft_rung a) 2) as [E2 | N2];
       [| destruct (Z.eqb_spec (dft_rung a) 3) as [E3 | N3];
          [| destruct (Z.eqb_spec (dft_rung a) 4) as [E4 | N4];
             [| destruct (Z.eqb_spec (dft_rung a) 5) as [E5 | N5]]]]
     | | destruct (Z.eqb_spec (dft_rung a) 2) as [E2 | N2];
       [| destruct (Z.eqb_spec (dft_rung a) 3) as [E3 | N3];
          [| destruct (Z.eqb_spec (dft_rung a) 4) as [E4 | N4];
             [| destruct (Z.eqb_spec (dft_rung a) 5) as [E5 | N5]]]]];
    cbn;
    first [ left; eexists; reflexivity
          | right; split; [lia |]; eexists; split; [reflexivity |];
            split; [intros o N; repeat rewrite Ho by exact N; reflexivity |];
            repeat split ].
Qed.

Lemma fp_after_cycle_limit (norm : dict -> dict + exn)
      (py_int : string -> option Z) (a : Args) (k : string) :
  ~ In k rem_keys_after_cycles ->
  ~ override_sets norm a "rem" k ->
  footprint (other_var myrem) (outside_item myrem k) (after_cycle_limit norm py_int a).
Proof.
  intros Hk Hno.
  assert (S : forall y k', y <> myrem \/ In k' rem_keys_after_cycles ->
                           outside_item myrem k y k' = true).
  { intros y k' [N | Hin]; apply outside_item_true; [now left | right].
    intros ->. contradiction. }
  unfold after_cycle_limit.
  repeat (apply fp_seq;
          [ unfold_phases;
            repeat fp_step ltac:(apply S; first [left; discriminate | right; simpl; tauto])
          | ]).
  - apply fp_apply_overwrite_inputs.
    apply (override_outside_item norm a myrem k Hno); discriminate.
  - apply fp_apply_extra_scf_print; apply S; right; simpl; tauto.
Qed.

(** What the rest of the body leaves of an item of [myrem] it does not
    assign. *)
Lemma rem_item_after_cycle_limit (norm : dict -> dict + exn)
      (py_int : string -> option Z) (a : Args) (table : string -> string -> dict)
      (st : State) (k : string) :
  QChemDictSet_init norm py_int a table = Done st ->
  ~ In k rem_keys_after_cycles -> ~ override_sets norm a "rem" k ->
  exists h1,
    seed_tier_cycles a (initial_state a table) = Done (mkState h1 (initial_env a) []) /\
    section st myrem = Some (heap st (Fresh myrem)) /\
    Dict.get k (heap st (Fresh myrem)) = Dict.get k (h1 (Fresh myrem)).
Proof.
  intros Hdone Hk Hno. rewrite init_after_cycle_limit in Hdone.
  destruct (seed_tier_cycles_run a table) as [(s & E) | (_ & h1 & E & _)].
  { rewrite (seq_raised _ _ _ _ _ E) in Hdone. discriminate. }
  rewrite (seq_done _ _ _ _ E) in Hdone.
  assert (Hok : env_ok (mkState h1 (initial_env a) [])).
  { intros x o. apply (env_ok_initial a table). }
  destruct (fp_after_cycle_limit norm py_int a k Hk Hno _ Hok) as (_ & B & G & _).
  rewrite Hdone in B, G. cbn [final_state] in B, G.
  exists h1. split; [exact E | split].
  - unfold section. now rewrite (B myrem eq_refl).
  - apply G. cbn. unfold outside_item. now rewrite var_eqb_refl, String.eqb_refl.
Qed.

(** ** The cycle limit of the geometry optimization *)

Lemma cycle_limit_item (norm : dict -> dict + exn) (py_int : string -> option Z)
      (a : Args) (table : string -> string -> dict) (st : State) :
  QChemDictSet_init norm py_int a table = Done st ->
  ~ override_sets norm a "rem" "geom_opt_max_cycles" ->
  exists d, section st myrem = Some d /\
            Dict.get "geom_opt_max_cycles" d
            = if job_has_cycle_limit a then Some (cycle_limit a) else None.
Proof.
  intros Hdone Hno.
  destruct (rem_item_after_cycle_limit norm py_int a table st "geom_opt_max_cycles"
              Hdone) as (h1 & E & Hsec & Hget); [| exact Hno |].
  { simpl. intros H; repeat destruct H as [H | H]; try discriminate; exact H. }
  destruct (seed_tier_cycles_run a table) as [(s & E') | (_ & h1' & E' & _ & Hc & _)].
  { rewrite E in E'. discriminate. }
  rewrite E in E'. injection E' as <-.
  eexists. split; [exact Hsec |]. rewrite Hget. exact Hc.
Qed.

(** X1: the primary section of a build that completes holds
    ["geom_opt_max_cycles"] exactly when the lower-cased job type is one of
    opt, ts, pes_scan, and then with [str(geom_opt_max_cycles)], unless the
    [rem] override sets that key. *)
Theorem cycle_limit_by_job_type
        (norm : dict -> dict + exn) (py_int : string -> option Z)
        (a : Args) (table : string -> string -> dict) (st : State) :
  QChemDictSet_init norm py_int a table = Done st ->
  ~ override_sets norm a "rem" "geom_opt_max_cycles" ->
  exists d, section st myrem = Some d /\
            Dict.get "geom_opt_max_cycles" d
            = if job_has_cycle_limit a then Some (cycle_limit a) else None.
Proof. exact (cycle_limit_item norm py_int a table st). Qed.

Lemma cycle_limit_by_job_type_witness :
  exists d, section (final_state (build ts_job)) myrem = Some d /\
            Dict.get "geom_opt_max_cycles" d
            = if job_has_cycle_limit ts_job then Some (cycle_limit ts_job) else None.
Proof.
  apply (cycle_limit_by_job_type normalize decimal_int ts_job CMIRS_SETTINGS).
  - vm_compute. reflexivity.
  - intros (ov & d0 & temp & H & _). discriminate.
Defined.

(** ** The presets *)

Lemma Built_inj (r r' : outcome) : Built r = Built r' -> r = r'.
Proof. intros H. now injection H. Qed.

(** X2: a potential-energy-surface scan without scan variables is rejected by the
    preset itself, whatever the other arguments are; every other preset call
    reaches the parent constructor, and when that completes the primary section
    has no cycle limit for the single-point, force and frequency presets, the
    caller's limit for the optimization and transition-state presets, and
    "200" for the scan preset (which cannot pass one on), unless the [rem]
    override sets the key. *)
Theorem presets_cycle_limit
        (norm : dict -> dict + exn) (py_int : string -> option Z)
        (p : PresetArgs) (k : preset) (table : string -> string -> dict) :
  (forall o, preset_init norm py_int p (PPESScan o None) table
             = Rejected no_scan_variables) /\
  (forall a st,
     preset_args p k = inl a ->
     preset_init norm py_int p k table = Built (Done st) ->
     ~ override_sets norm a "rem" "geom_opt_max_cycles" ->
     exists d, section st myrem = Some d /\
               Dict.get "geom_opt_max_cycles" d = preset_cycle_limit k).
Proof.
  split; [reflexivity |].
  intros a st Ha Hb Hno. unfold preset_init in Hb. rewrite Ha in Hb.
  apply Built_inj in Hb. rename Hb into Hdone.
  destruct (cycle_limit_item norm py_int a table st Hdone Hno) as (d & Hs & Hg).
  exists d. split; [exact Hs |]. rewrite Hg.
  assert (Hj : forall job ov sv g n e,
             job_has_cycle_limit (preset_call p job ov sv g n e)
             = str_in (lower job) ["opt"; "ts"; "pes_scan"]) by reflexivity.
  assert (Hl : forall job ov sv g n e,
             cycle_limit (preset_call p job ov sv g n e) = VStr (str_of_Z g))
    by reflexivity.
  destruct k as [e | o g n | o g | | | o s]; cbn [preset_args] in Ha;
    try (injection Ha as <-;
         unfold SinglePointSet, OptSet, TransitionStateSet, ForceSet, FreqSet;
         rewrite Hj, ?Hl; reflexivity).
  unfold PESScanSet in Ha. destruct s; [| discriminate].
  injection Ha as <-. rewrite Hj, Hl. reflexivity.
Qed.

Lemma presets_cycle_limit_witness :
  exists d, section (final_state (build freq_job)) myrem = Some d /\
            Dict.get "geom_opt_max_cycles" d = None.
Proof.
  apply (proj2 (presets_cycle_limit normalize decimal_int preset_defaults PFreq
                  CMIRS_SETTINGS) freq_job (final_state (build freq_job)) eq_refl).
  - vm_compute. reflexivity.
  - intros (ov & d0 & temp & H & _). discriminate.
Defined.

(** ** Overrides of sections that were not requested *)

Lemma kb_setitem (x y : var) (k : string) (v : pyval) : keeps_binding x (setitem y k v).
Proof.
  intros st st'. unfold setitem. destruct (env st y); [| discriminate].
  now intros [= <-].
Qed.

Lemma kb_bind_var (x y : var) (oo : option obj) :
  y <> x -> keeps_binding x (bind_var y oo).
Proof.
  intros N st st' [= <-]. cbn. unfold upd_env.
  destruct (var_eq_dec x y); congruence.
Qed.

Lemma kb_skip (x : var) : keeps_binding x skip.
Proof. now intros st st' [= <-]. Qed.

Lemma kb_raise (x : var) (e : exn) : keeps_binding x (raise e).
Proof. intros st st' E. discriminate. Qed.

Lemma kb_seq (x : var) (f g : step) :
  keeps_binding x f -> keeps_binding x g -> keeps_binding x (f ;; g).
Proof.
  intros Hf Hg st st' E. apply seq_done_inv in E as (s1 & E1 & E2).
  now rewrite (Hg _ _ E2), (Hf _ _ E1).
Qed.

Lemma kb_with_state (x : var) (F : State -> step) :
  (forall s, keeps_binding x (F s)) -> keeps_binding x (with_state F).
Proof. intros H st st'. apply H. Qed.

Lemma kb_setitems (x y : var) (src : dict) : keeps_binding x (setitems y src).
Proof.
  induction src as [| [k v] src IH]; simpl; [apply kb_skip |].
  apply kb_seq; [apply kb_setitem | exact IH].
Qed.

Lemma kb_setup_new_geom_opt (a : Args) : keeps_binding mynbo (setup_new_geom_opt a).
Proof.
  unfold setup_new_geom_opt. destruct (new_geom_opt a).
  - repeat apply kb_seq.
    + apply kb_bind_var. discriminate.
    + apply kb_setitem.
    + apply kb_with_state. intros s. destruct (Dict.get _ _).
      * destruct (py_eq _ _); [apply kb_skip | apply kb_raise].
      * apply kb_setitem.
    + apply kb_with_state. intros s. apply kb_seq.
      * apply kb_bind_var. discriminate.
      * apply kb_setitems.
  - apply kb_bind_var. discriminate.
Qed.

(** Without NBO parameters the phases before the merge leave [mynbo] None. *)
Lemma derive_mynbo_none (a : Args) (st st' : State) :
  nbo_params a = None -> derive_sections a st = Done st' -> env st' mynbo = None.
Proof.
  intros Hn E. unfold derive_sections in E.
  do 9 (apply seq_done_inv in E as (? & _ & E)).
  apply seq_done_inv in E as (sb & En & Eg).
  rewrite (kb_setup_new_geom_opt a _ _ Eg).
  unfold setup_nbo in En. rewrite Hn in En. now injection En as <-.
Qed.

(** Without the new optimizer they leave [my_geom_opt] None. *)
Lemma derive_my_geom_opt_none (a : Args) (st st' : State) :
  new_geom_opt a = None -> derive_sections a st = Done st' ->
  env st' my_geom_opt = None.
Proof.
  intros Hn E. unfold derive_sections in E.
  do 10 (apply seq_done_inv in E as (? & _ & E)).
  unfold setup_new_geom_opt in E. rewrite Hn in E. now injection E as <-.
Qed.

Lemma overwrite_nbo_unbound (norm : dict -> dict + exn) (a : Args) (d : dict)
      (st : State) :
  env st mynbo = None ->
  overwrite_section norm a "nbo" d st = Raised nbo_not_run st.
Proof.
  intros Hn. unfold overwrite_section. cbn.
  unfold seq at 1. unfold with_state at 1. now rewrite Hn.
Qed.

Lemma overwrite_geom_opt_unbound (norm : dict -> dict + exn) (a : Args) (d : dict)
      (st : State) :
  env st my_geom_opt = None ->
  overwrite_section norm a "geom_opt" d st = Raised new_optimizer_not_used st.
Proof.
  intros Hn. unfold overwrite_section. cbn.
  unfold seq at 1. unfold with_state at 1. now rewrite Hn.
Qed.

Lemma overwrite_sections_blocked (norm : dict -> dict + exn) (a : Args)
      (x : var) (sec : string) (d : dict) (e : exn) (ov : list (string * dict)) :
  cmirs_valid a ->
  (forall st d', env st x = None ->
                 overwrite_section norm a sec d' st = Raised e st) ->
  In (sec, d) ov ->
  forall st st', env st x = None -> overwrite_sections norm a ov st <> Done st'.
Proof.
  intros Hv Hblock. induction ov as [| [sec0 d0] ov IH]; intros Hin st st' Hn E;
    [contradiction |].
  simpl in E. apply seq_done_inv in E as (s1 & E1 & E2).
  destruct Hin as [[= -> ->] | Hin].
  - rewrite (Hblock st d Hn) in E1. discriminate.
  - destruct (good_overwrite_section norm a sec0 d0 Hv) as [G _].
    destruct (G _ _ E1) as (Ee & _).
    apply (IH Hin s1 st'); [now rewrite Ee | exact E2].
Qed.

(** X3: an override of the [nbo] section without [nbo_params], or of the
    [geom_opt] section without [new_geom_opt], never lets the build complete;
    when the phases before the merge complete and that section is the first
    of the overrides, the build ends with the RuntimeError of lines 448 and
    454-456. *)
Theorem override_of_absent_section
        (norm : dict -> dict + exn) (py_int : string -> option Z)
        (a : Args) (table : string -> string -> dict) :
  (nbo_params a = None -> overrides_section a "nbo" ->
   forall st, QChemDictSet_init norm py_int a table <> Done st) /\
  (new_geom_opt a = None -> overrides_section a "geom_opt" ->
   forall st, QChemDictSet_init norm py_int a table <> Done st) /\
  (forall s1 d rest,
     derive_sections a (initial_state a table) = Done s1 ->
     (nbo_params a = None -> overwrite_inputs a = Some (("nbo", d) :: rest) ->
      QChemDictSet_init norm py_int a table = Raised nbo_not_run s1) /\
     (new_geom_opt a = None -> overwrite_inputs a = Some (("geom_opt", d) :: rest) ->
      QChemDictSet_init norm py_int a table = Raised new_optimizer_not_used s1)).
Proof.
  assert (Hnever : forall x sec e,
             (forall st d', env st x = None ->
                overwrite_section norm a sec d' st = Raised e st) ->
             (forall s1, derive_sections a (initial_state a table) = Done s1 ->
                         env s1 x = None) ->
             overrides_section a sec ->
             forall st, QChemDictSet_init norm py_int a table <> Done st).
  { intros x sec e Hblock Hnone (ov & d & Ho & Hin) st E.
    unfold QChemDictSet_init in E.
    apply seq_done_inv in E as (s1 & E1 & E).
    apply seq_done_inv in E as (s2 & E2 & _).
    unfold apply_overwrite_inputs in E2. rewrite Ho in E2.
    apply (overwrite_sections_blocked norm a x sec d e ov
             (derive_done_cmirs_valid a _ _ E1) Hblock Hin s1 s2 (Hnone s1 E1) E2). }
  split; [| split].
  - intros Hn. apply (Hnever mynbo "nbo" nbo_not_run).
    + intros st d' H. now apply overwrite_nbo_unbound.
    + intros s1 E1. now apply (derive_mynbo_none a _ _ Hn E1).
  - intros Hn. apply (Hnever my_geom_opt "geom_opt" new_optimizer_not_used).
    + intros st d' H. now apply overwrite_geom_opt_unbound.
    + intros s1 E1. now apply (derive_my_geom_opt_none a _ _ Hn E1).
  - intros s1 d rest E1. split; intros Hn Ho; unfold QChemDictSet_init;
      rewrite (seq_done _ _ _ _ E1); unfold apply_overwrite_inputs; rewrite Ho;
      cbn [overwrite_sections].
    + assert (R := overwrite_nbo_unbound norm a d s1 (derive_mynbo_none a _ _ Hn E1)).
      unfold seq in *. now rewrite R.
    + assert (R := overwrite_geom_opt_unbound norm a d s1
                     (derive_my_geom_opt_none a _ _ Hn E1)).
      unfold seq in *. now rewrite R.
Qed.

Lemma override_of_absent_section_witness :
  (forall st, build nbo_override_job <> Done st) /\
  (forall st, build freq_geom_opt_job <> Done st) /\
  raised (build freq_geom_opt_job) = Some new_optimizer_not_used.
Proof.
  split; [| split].
  - apply (proj1 (override_of_absent_section normalize decimal_int nbo_override_job
                    CMIRS_SETTINGS) eq_refl).
    eexists _, _. split; [reflexivity | left; reflexivity].
  - apply (proj1 (proj2 (override_of_absent_section normalize decimal_int
                           freq_geom_opt_job CMIRS_SETTINGS)) eq_refl).
    eexists _, _. split; [reflexivity | left; reflexivity].
  - assert (D : derive_sections freq_geom_opt_job
                  (initial_state freq_geom_opt_job CMIRS_SETTINGS)
                = Done (final_state (derive_sections freq_geom_opt_job
                         (initial_state freq_geom_opt_job CMIRS_SETTINGS))))
      by (vm_compute; reflexivity).
    assert (R := proj2 (proj2 (proj2 (override_of_absent_section normalize decimal_int
                           freq_geom_opt_job CMIRS_SETTINGS)) _
                           [("maxiter", VStr "50")] [] D) eq_refl eq_refl).
    unfold build. now rewrite R.
Defined.

(** ** Extra SCF printing *)

Lemma init_merge_then_print (norm : dict -> dict + exn) (py_int : string -> option Z)
      (a : Args) (table : string -> string -> dict) :
  QChemDictSet_init norm py_int a table
  = (derive_and_merge norm a ;; apply_extra_scf_print py_int a) (initial_state a table).
Proof.
  unfold QChemDictSet_init, derive_and_merge. symmetry. apply seq_assoc.
Qed.

(** X4: when extra SCF printing is requested, a build that completes has
    ["scf_final_print"] "3" in its primary section, and ["scf_convergence"] is
    "8" if the merged section had none or one whose [int] is below 8, and is
    the merged value if its [int] is 8 or more; nothing else changes in the
    last phase. *)
Theorem extra_scf_print_floor
        (norm : dict -> dict + exn) (py_int : string -> option Z)
        (a : Args) (table : string -> string -> dict) (st : State) :
  extra_scf_print a = true ->
  QChemDictSet_init norm py_int a table = Done st ->
  exists s2 d2 d,
    derive_and_merge norm a (initial_state a table) = Done s2 /\
    section s2 myrem = Some d2 /\ section st myrem = Some d /\
    Dict.get "scf_final_print" d = Some (VStr "3") /\
    match Dict.get "scf_convergence" d2 with
    | None => Dict.get "scf_convergence" d = Some (VStr "8")
    | Some v0 =>
        exists z, int_of py_int v0 = inl z /\
                  Dict.get "scf_convergence" d = Some (if z <? 8 then VStr "8" else v0)
    end /\
    (forall k, k <> "scf_final_print" -> k <> "scf_convergence" ->
               Dict.get k d = Dict.get k d2) /\
    (forall x, x <> myrem -> section st x = section s2 x).
Proof.
  intros Hx Hdone. rewrite init_merge_then_print in Hdone.
  apply seq_done_inv in Hdone as (s2 & E2 & E).
  unfold apply_extra_scf_print in E. rewrite Hx in E.
  apply seq_done_inv in E as (sa & Ea & Eb).
  assert (Hbound : exists o, env s2 myrem = Some o).
  { unfold setitem in Ea. destruct (env s2 myrem) as [o |]; [now exists o | discriminate]. }
  destruct Hbound as (o & Ho).
  rewrite (setitem_done _ _ _ _ _ Ho) in Ea. injection Ea as <-.
  set (da := Dict.set "scf_final_print" (VStr "3") (heap s2 o)) in *.
  assert (Hother : forall (s : State) (dd : dict) x,
             x <> myrem -> env_ok s2 -> env s = env s2 ->
             (forall o', o' <> o -> heap s o' = heap s2 o') ->
             section s x = section s2 x).
  { intros s dd x N Hok Ee Eh. unfold section. rewrite Ee.
    destruct (env s2 x) as [o' |] eqn:Ex; [| reflexivity].
    cbn. rewrite Eh; [reflexivity |].
    intros ->. apply Hok in Ex. apply Hok in Ho. congruence. }
  assert (Hok : env_ok s2).
  { unfold derive_and_merge in E2. apply seq_done_inv in E2 as (s1 & E1 & Em).
    destruct (fp_derive_sections a _ (env_ok_initial a table)) as (H1 & _).
    rewrite E1 in H1. cbn [final_state] in H1.
    destruct (fp_apply_overwrite_inputs norm a every_var everywhere
                ltac:(reflexivity) s1 H1) as (H2 & _).
    now rewrite Em in H2. }
  exists s2, (heap s2 o).
  unfold with_state, section in Eb. cbn [env heap option_map] in Eb.
  rewrite Ho in Eb. cbn [option_map] in Eb. rewrite upd_heap_same in Eb. fold da in Eb.
  assert (Gc : Dict.get "scf_convergence" da = Dict.get "scf_convergence" (heap s2 o)).
  { unfold da. now rewrite DictFacts.get_set_other by discriminate. }
  rewrite Gc in Eb.
  assert (Hset : forall v,
             setitem myrem "scf_convergence" v
               (mkState (upd_heap (heap s2) o da) (env s2) (warned s2)) = Done st ->
             section st myrem = Some (Dict.set "scf_convergence" v da) /\
             env st = env s2 /\
             (forall o', o' <> o -> heap st o' = heap s2 o')).
  { intros v Ev. unfold setitem in Ev. cbn [env heap warned] in Ev.
    rewrite Ho in Ev. rewrite upd_heap_same in Ev. injection Ev as <-.
    cbn [env heap]. split; [| split; [reflexivity |]].
    - unfold section. cbn [env heap]. rewrite Ho. cbn [option_map].
      now rewrite !upd_heap_same.
    - intros o' N. now rewrite !upd_heap_other by exact N. }
  assert (Hkeep : Done (mkState (upd_heap (heap s2) o da) (env s2) (warned s2)) = Done st ->
             section st myrem = Some da /\ env st = env s2 /\
             (forall o', o' <> o -> heap st o' = heap s2 o')).
  { intros [= <-]. cbn [env heap]. split; [| split; [reflexivity |]].
    - unfold section. cbn [env heap]. rewrite Ho. cbn [option_map].
      now rewrite upd_heap_same.
    - intros o' N. now rewrite upd_heap_other by exact N. }
  destruct (Dict.get "scf_convergence" (heap s2 o)) as [v0 |] eqn:G0.
  - destruct (int_of py_int v0) as [z | e] eqn:Ez; [| discriminate].
    destruct (z <? 8) eqn:Hz.
    + destruct (Hset _ Eb) as (Hs & Ee & Eh).
      eexists. split; [exact E2 |]. split; [unfold section; now rewrite Ho |].
      split; [exact Hs |]. split; [| split; [| split]].
      * rewrite DictFacts.get_set_other by discriminate. apply DictFacts.get_set_same.
      * exists z. split; [reflexivity | rewrite Hz; apply DictFacts.get_set_same].
      * intros k N1 N2. unfold da. now rewrite !DictFacts.get_set_other.
      * intros x N. now apply (Hother st []).
    + cbn [skip] in Eb. destruct (Hkeep Eb) as (Hs & Ee & Eh).
      eexists. split; [exact E2 |]. split; [unfold section; now rewrite Ho |].
      split; [exact Hs |]. split; [| split; [| split]].
      * apply DictFacts.get_set_same.
      * exists z. split; [reflexivity |]. rewrite Hz. now rewrite Gc.
      * intros k N1 N2. unfold da. now rewrite DictFacts.get_set_other.
      * intros x N. now apply (Hother st []).
  - destruct (Hset _ Eb) as (Hs & Ee & Eh).
    eexists. split; [exact E2 |]. split; [unfold section; now rewrite Ho |].
    split; [exact Hs |]. split; [| split; [| split]].
    + rewrite DictFacts.get_set_other by discriminate. apply DictFacts.get_set_same.
    + apply DictFacts.get_set_same.
    + intros k N1 N2. unfold da. now rewrite !DictFacts.get_set_other.
    + intros x N. now apply (Hother st []).
Qed.

Lemma extra_scf_print_floor_witness :
  (exists d, section (final_state (build loose_scf_job)) myrem = Some d /\
             Dict.get "scf_convergence" d = Some (VStr "8")) /\
  (exists d, section (final_state (build tight_scf_job)) myrem = Some d /\
             Dict.get "scf_convergence" d = Some (VStr "10")).
Proof.
  split.
  - destruct (extra_scf_print_floor normalize decimal_int loose_scf_job CMIRS_SETTINGS
                (final_state (build loose_scf_job)) eq_refl
                ltac:(vm_compute; reflexivity))
      as (s2 & d2 & d & _ & _ & Hs & _).
    exists d. split; [exact Hs |]. revert Hs. vm_compute. now intros [= <-].
  - destruct (extra_scf_print_floor normalize decimal_int tight_scf_job CMIRS_SETTINGS
                (final_state (build tight_scf_job)) eq_refl
                ltac:(vm_compute; reflexivity))
      as (s2 & d2 & d & _ & _ & Hs & _).
    exists d. split; [exact Hs |]. revert Hs. vm_compute. now intros [= <-].
Defined.

(** ** Custom van der Waals radii *)

Lemma overwrite_sections_app (norm : dict -> dict + exn) (a : Args)
      (ov1 ov2 : list (string * dict)) :
  same_step (overwrite_sections norm a (ov1 ++ ov2))
            (overwrite_sections norm a ov1 ;; overwrite_sections norm a ov2).
Proof.
  induction ov1 as [| [sec d] ov1 IH]; simpl.
  - intros st. reflexivity.
  - eapply same_step_trans; [apply seq_same_r, IH |].
    apply same_step_sym, seq_assoc.
Qed.

Lemma skip_done (st st' : State) : skip st = Done st' -> st' = st.
Proof. now intros [= <-]. Qed.

Lemma vdw_section_reads_radii (norm : dict -> dict + exn) (a : Args) (d : dict)
      (st st' : State) :
  overwrite_section norm a "van_der_waals" d st = Done st' -> radii_read st'.
Proof.
  unfold overwrite_section. cbn [String.eqb Ascii.eqb Bool.eqb when].
  intros E.
  repeat (apply seq_done_inv in E as (? & E0 & E); apply skip_done in E0; subst).
  apply seq_done_inv in E as (s1 & E & E0).
  assert (Hs : s1 = st').
  { repeat (apply seq_done_inv in E0 as (? & E1 & E0); apply skip_done in E1; subst).
    now apply skip_done in E0. }
  subst s1. unfold with_normalized in E.
  destruct (norm d) as [temp |]; [| discriminate].
  apply seq_done_inv in E as (s1 & _ & E).
  unfold setitem in E. destruct (env s1 mypcm) as [o |] eqn:Ho; [| discriminate].
  injection E as <-. exists (Dict.set "radii" (VStr "read") (heap s1 o)).
  unfold section. cbn [env heap]. rewrite Ho. cbn [option_map].
  rewrite upd_heap_same. split; [reflexivity | apply DictFacts.get_set_same].
Qed.

Lemma radii_read_kept (f : step) (st st' : State) :
  footprint (other_var mypcm) (outside_item mypcm "radii") f ->
  env_ok st -> f st = Done st' -> radii_read st -> radii_read st'.
Proof.
  intros Hf Hok E (d & Hd & Hg). destruct (Hf st Hok) as (_ & He & Hk & _).
  rewrite E in He, Hk. cbn [final_state] in He, Hk.
  unfold section in Hd. destruct (env st mypcm) as [o |] eqn:Ho; [| discriminate].
  injection Hd as <-. exists (heap st' o). unfold section.
  rewrite He, Ho by (unfold other_var; now rewrite var_eqb_refl).
  split; [reflexivity |]. rewrite Hk; [exact Hg |].
  apply Hok in Ho. rewrite Ho. unfold outside_item.
  now rewrite var_eqb_refl.
Qed.

Lemma env_ok_done (Rb : var -> bool) (Wk : var -> string -> bool) (f : step)
      (st st' : State) :
  footprint Rb Wk f -> env_ok st -> f st = Done st' -> env_ok st'.
Proof. intros Hf Hok E. destruct (Hf st Hok) as (H & _). now rewrite E in H. Qed.

Lemma fp_overwrite_section_any (norm : dict -> dict + exn) (a : Args)
      (sec : string) (d : dict) :
  footprint (other_var mypcm) everywhere (overwrite_section norm a sec d).
Proof. apply fp_overwrite_section. reflexivity. Qed.

Lemma radii_read_overwrite_sections (norm : dict -> dict + exn) (a : Args)
      (ov : list (string * dict)) (st st' : State) :
  keeps_radii norm ov -> env_ok st ->
  overwrite_sections norm a ov st = Done st' -> radii_read st -> radii_read st'.
Proof.
  revert st. induction ov as [| [sec d] ov IH]; simpl; intros st Hk Hok E Hr.
  - apply skip_done in E. now subst.
  - apply seq_done_inv in E as (s1 & E1 & E2).
    assert (Hok1 : env_ok s1)
      by exact (env_ok_done _ _ _ _ _ (fp_overwrite_section_any norm a sec d) Hok E1).
    apply (IH s1); [| exact Hok1 | exact E2 |].
    { intros d' temp Hin. apply Hk. now right. }
    destruct (String.eqb_spec sec "van_der_waals") as [-> | N].
    + exact (vdw_section_reads_radii _ _ _ _ _ E1).
    + refine (radii_read_kept _ st s1 _ Hok E1 Hr).
      apply fp_overwrite_section. intros x k [(Hs & _) | [(_ & ->) | (Hx & temp & Ht & Hin)]].
      * contradiction.
      * reflexivity.
      * unfold outside_item. destruct (var_eq_dec x mypcm) as [-> | Nx].
        2:{ now rewrite (var_eqb_neq _ _ Nx). }
        rewrite var_eqb_refl. cbn [andb negb].
        destruct (String.eqb_spec k "radii") as [-> | Nk]; [| reflexivity].
        exfalso. apply section_var_name in Hx. cbn in Hx. subst sec.
        apply (Hk d temp); [now left | exact Ht | exact Hin].
Qed.

(** X5: an override of the [van_der_waals] section leaves ["radii"] "read" in the
    PCM section of every build that completes, whatever the solvation model,
    unless a [pcm] override that comes later in [overwrite_inputs] assigns
    ["radii"] itself; a [pcm] override that comes earlier is overruled. *)
Theorem vdw_override_reads_radii
        (norm : dict -> dict + exn) (py_int : string -> option Z)
        (a : Args) (table : string -> string -> dict) (st : State)
        (ov1 ov2 : list (string * dict)) (d : dict) :
  overwrite_inputs a = Some (ov1 ++ ("van_der_waals", d) :: ov2) ->
  keeps_radii norm ov2 ->
  QChemDictSet_init norm py_int a table = Done st ->
  radii_read st.
Proof.
  intros Hov Hk Hdone. rewrite init_merge_then_print in Hdone.
  apply seq_done_inv in Hdone as (s2 & E2 & E3).
  unfold derive_and_merge in E2. apply seq_done_inv in E2 as (s1 & E1 & E2).
  unfold apply_overwrite_inputs in E2. rewrite Hov in E2.
  rewrite overwrite_sections_app in E2.
  apply seq_done_inv in E2 as (sa & Ea & Eb).
  cbn [overwrite_sections] in Eb. apply seq_done_inv in Eb as (sb & Eb & Ec).
  assert (Hok1 : env_ok s1)
    by exact (env_ok_done _ _ _ _ _ (fp_derive_sections a) (env_ok_initial a table) E1).
  assert (Hoka : env_ok sa).
  { refine (env_ok_done every_var everywhere _ _ _ _ Hok1 Ea).
    apply fp_overwrite_sections. reflexivity. }
  assert (Hokb : env_ok sb)
    by exact (env_ok_done _ _ _ _ _ (fp_overwrite_section_any norm a _ d) Hoka Eb).
  assert (Hok2 : env_ok s2).
  { refine (env_ok_done every_var everywhere _ _ _ _ Hokb Ec).
    apply fp_overwrite_sections. reflexivity. }
  refine (radii_read_kept _ s2 st _ Hok2 E3 _).
  - apply fp_apply_extra_scf_print; reflexivity.
  - apply (radii_read_overwrite_sections norm a ov2 sb s2 Hk Hokb Ec).
    exact (vdw_section_reads_radii _ _ _ _ _ Eb).
Qed.

Lemma vdw_override_reads_radii_witness :
  radii_read (final_state (build vdw_job)).
Proof.
  apply (vdw_override_reads_radii normalize decimal_int vdw_job CMIRS_SETTINGS
           (final_state (build vdw_job)) [("pcm", [("radii", VStr "bondi")])] []
           [("16", VStr "3.0")]).
  - reflexivity.
  - intros d temp [].
  - vm_compute. reflexivity.
Defined.

(** ** Writing the input after a construction *)

Lemma derive_done_custom_smd (a : Args) (st s1 : State) :
  derive_sections a st = Done s1 -> needs_solvent_data a = true ->
  exists text, custom_smd a = Some text.
Proof.
  intros E Hn. unfold needs_solvent_data in Hn.
  destruct (smd_solvent a) as [s |] eqn:Hs; [| discriminate].
  unfold derive_sections in E.
  do 6 (apply seq_done_inv in E as (? & _ & E)).
  apply seq_done_inv in E as (? & E & _).
  unfold setup_smd in E. rewrite Hs, Hn in E.
  do 3 (apply seq_done_inv in E as (? & _ & E)).
  destruct (custom_smd a) as [text |]; [now exists text | discriminate].
Qed.

(** X6: after a construction that completed, [write] raises nothing: it writes the
    input file, and the solvent data file exactly when the SMD solvent is
    "custom" or "other", with the text of [custom_smd], which is then set. *)
Theorem write_after_construction
        (norm : dict -> dict + exn) (py_int : string -> option Z)
        (a : Args) (table : string -> string -> dict) (st : State)
        (input_file : string) :
  QChemDictSet_init norm py_int a table = Done st ->
  if needs_solvent_data a then
    exists text, custom_smd a = Some text /\
                 write a input_file
                 = ([InputFile input_file; SolventData input_file text], None)
  else write a input_file = ([InputFile input_file], None).
Proof.
  intros Hdone. rewrite init_merge_then_print in Hdone.
  apply seq_done_inv in Hdone as (s2 & E2 & _).
  unfold derive_and_merge in E2. apply seq_done_inv in E2 as (s1 & E1 & _).
  destruct (needs_solvent_data a) eqn:Hn.
  - destruct (derive_done_custom_smd a _ _ E1 Hn) as (text & Ht).
    exists text. split; [exact Ht |].
    unfold needs_solvent_data in Hn. unfold write.
    destruct (smd_solvent a) as [s |]; [| discriminate].
    now rewrite Hn, Ht.
  - unfold needs_solvent_data in Hn. unfold write.
    destruct (smd_solvent a) as [s |]; [| reflexivity].
    now rewrite Hn.
Qed.

Lemma write_after_construction_witness :
  write custom_solvent_job "mol.qin"
  = ([InputFile "mol.qin";
      SolventData "mol.qin" "18.5,1.415,0.00,0.735,20.2,0.00,0.00"], None).
Proof.
  destruct (write_after_construction normalize decimal_int custom_solvent_job
              CMIRS_SETTINGS (final_state (build custom_solvent_job)) "mol.qin"
              ltac:(vm_compute; reflexivity)) as (text & Ht & Hw).
  injection Ht as <-. exact Hw.
Defined.

(** ** Dicts that outlive the call *)

Section Spares.

Variable o : obj.

Lemma sp_skip (V : var -> bool) : spares V V o skip.
Proof. intros st H. split; [reflexivity |]. now intros st' [= <-]. Qed.

Lemma sp_raise (V V' : var -> bool) (e : exn) : spares V V' o (raise e).
Proof. intros st H. split; [reflexivity | discriminate]. Qed.

Lemma sp_warn (V : var -> bool) (m : string) : spares V V o (warn m).
Proof. intros st H. split; [reflexivity |]. now intros st' [= <-]. Qed.

Lemma sp_seq (V V1 V2 : var -> bool) (f g : step) :
  spares V V1 o f -> spares V1 V2 o g -> spares V V2 o (f ;; g).
Proof.
  intros Hf Hg st H. unfold seq. destruct (Hf st H) as (Hh & Hd).
  destruct (f st) as [s1 | e s1]; cbn [final_state] in *.
  - destruct (Hg s1 (Hd s1 eq_refl)) as (Hh' & Hd').
    split; [now rewrite Hh' | exact Hd'].
  - split; [exact Hh | discriminate].
Qed.

Lemma sp_if (V V' : var -> bool) (b : bool) (f g : step) :
  spares V V' o f -> spares V V' o g -> spares V V' o (if b then f else g).
Proof. now destruct b. Qed.

Lemma sp_when (V : var -> bool) (b : bool) (f : step) :
  spares V V o f -> spares V V o (when b f).
Proof. intros H. destruct b; [exact H | apply sp_skip]. Qed.

Lemma sp_setitem (V : var -> bool) (x : var) (k : string) (v : pyval) :
  V x = false -> spares V V o (setitem x k v).
Proof.
  intros Hx st H. unfold setitem. destruct (env st x) as [o' |] eqn:E.
  - cbn [final_state heap]. split.
    + apply upd_heap_other. intros ->. apply H in E. congruence.
    + now intros st' [= <-].
  - split; [reflexivity | discriminate].
Qed.

Lemma sp_setitems (V : var -> bool) (x : var) (src : dict) :
  V x = false -> spares V V o (setitems x src).
Proof.
  intros Hx. induction src as [| [k v] src IH]; simpl.
  - apply sp_skip.
  - eapply sp_seq; [now apply sp_setitem | exact IH].
Qed.

Lemma sp_bind_away (V V' : var -> bool) (x : var) (oo : option obj) :
  oo <> Some o -> (forall y, y <> x -> V y = true -> V' y = true) ->
  spares V V' o (bind_var x oo).
Proof.
  intros N Hv st H. split; [reflexivity |].
  intros st' [= <-] y. cbn [env]. unfold upd_env.
  destruct (var_eq_dec y x) as [-> | Ny]; [congruence |].
  intros E. apply Hv; [exact Ny | now apply H].
Qed.


Lemma sp_with_state (V V' : var -> bool) (F : State -> step) :
  (forall s, spares V V' o (F s)) -> spares V V' o (with_state F).
Proof. intros H st. apply H. Qed.

Lemma sp_with_item (V V' : var -> bool) (x : var) (k : string) (cont : pyval -> step) :
  (forall v, spares V V' o (cont v)) -> spares V V' o (with_item x k cont).
Proof.
  intros H. apply sp_with_state. intros s.
  destruct (section s x) as [d |]; [| apply sp_raise].
  destruct (Dict.get k d); [apply H | apply sp_raise].
Qed.

Lemma sp_with_normalized (V V' : var -> bool) (norm : dict -> dict + exn)
      (d : dict) (cont : dict -> step) :
  (forall temp, norm d = inl temp -> spares V V' o (cont temp)) ->
  spares V V' o (with_normalized norm d cont).
Proof.
  intros H. unfold with_normalized.
  destruct (norm d) as [temp | e]; [now apply H | apply sp_raise].
Qed.

Lemma sp_copy_nbo (V : var -> bool) (p : dict) :
  V mynbo = false -> spares V V o (copy_nbo p).
Proof.
  intros Hx. induction p as [| [k v] p IH]; simpl.
  - apply sp_skip.
  - eapply sp_seq; [| exact IH].
    destruct (String.eqb k "version"); [apply sp_skip | now apply sp_setitem].
Qed.

Lemma sp_reselect_coeffs (V : var -> bool) (src : obj) (ks : list string) :
  V mypcm_nonels = false -> spares V V o (reselect_coeffs src ks).
Proof.
  intros Hx. induction ks as [| k ks IH]; simpl.
  - apply sp_skip.
  - eapply sp_seq; [| exact IH].
    apply sp_with_state. intros s.
    destruct (truthy _); [now apply sp_setitem | apply sp_skip].
Qed.

End Spares.

(** One step of a derivation that goes through no variable bound to [o]. *)
Ltac sp_step :=
  lazymatch goal with
  | |- spares _ _ _ (_ ;; _) => eapply sp_seq
  | |- spares _ _ _ skip => apply sp_skip
  | |- spares _ _ _ (raise _) => apply sp_raise
  | |- spares _ _ _ (warn _) => apply sp_warn
  | |- spares _ _ _ (setitem _ _ _) => apply sp_setitem; reflexivity
  | |- spares _ _ _ (setitems _ _) => apply sp_setitems; reflexivity
  | |- spares _ _ _ (copy_nbo _) => apply sp_copy_nbo; reflexivity
  | |- spares _ _ _ (reselect_coeffs _ _) => apply sp_reselect_coeffs; reflexivity
  | |- spares _ _ _ (with_solvent_entry _ _) => unfold with_solvent_entry
  | |- spares _ _ _ (with_coeffs _ _ _) => unfold with_coeffs
  | |- spares _ _ _ (when _ _) => apply sp_when
  | |- spares _ _ _ (with_state _) => apply sp_with_state; intros ?
  | |- spares _ _ _ (with_item _ _ _) => apply sp_with_item; intros ?
  | |- spares _ _ _ (with_normalized _ _ _) => apply sp_with_normalized; intros ? ?
  | |- spares _ _ _ (if ?b then _ else _) => destruct b
  | |- spares _ _ _ (match ?x with _ => _ end) => destruct x eqn:?
  end.

Ltac sp_bind :=
  lazymatch goal with
  | |- spares _ _ _ (bind_var _ _) =>
      apply sp_bind_away; [congruence | intros ? _ E; exact E]
  end.

Ltac sp := repeat (first [sp_step | sp_bind]).

(** *** The phases, for a dict that no variable holds *)

Ltac sp_phase :=
  unfold_phases; unfold cmirs_head, cmirs_tail, svp_rhoiso, svp_idefesr, svp_dielst,
    with_solvent_entry, with_coeffs; sp.





Lemma sp_setup_new_geom_opt (o : obj) (a : Args) :
  outlives o -> spares no_var no_var o (setup_new_geom_opt a).
Proof. intros [-> | (s & r & ->)]; sp_phase. Qed.

Lemma sp_setup_plots (o : obj) (a : Args) :
  outlives o -> spares no_var no_var o (setup_plots a).
Proof. intros [-> | (s & r & ->)]; sp_phase. Qed.


Lemma sp_setup_nbo_table (a : Args) (s r : string) :
  spares no_var no_var (O_CMIRS s r) (setup_nbo a).
Proof. sp_phase. Qed.

Lemma sp_through_smd (o : obj) (a : Args) :
  outlives o ->
  spares no_var no_var o
    (seed_rem a ;; set_dft_rung a ;; set_geom_opt_max_cycles a ;; check_solvent_def a ;;
     setup_pcm a ;; setup_isosvp a ;; setup_smd a).
Proof. intros [-> | (s & r & ->)]; sp_phase. Qed.

Lemma sp_setup_cmirs_nbo_params (a : Args) :
  spares no_var no_var O_nbo_params (setup_cmirs a).
Proof. sp_phase. Qed.


Lemma sp_cmirs_head (a : Args) (s s' r : string) :
  spares no_var no_var (O_CMIRS s r) (cmirs_head a s').
Proof. sp_phase. Qed.

Lemma sp_cmirs_tail (o : obj) : spares no_var no_var o cmirs_tail.
Proof. sp_phase. Qed.

(** *** The whole body *)













(** ** The contour values of CMIRS *)

Lemma never_done_seq_l (f g : step) : never_done f -> never_done (f ;; g).
Proof.
  intros H st st' E. apply seq_done_inv in E as (s1 & E & _). exact (H _ _ E).
Qed.

Lemma never_done_seq_r (f g : step) : never_done g -> never_done (f ;; g).
Proof.
  intros H st st' E. apply seq_done_inv in E as (s1 & _ & E). exact (H _ _ E).
Qed.

Lemma py_eq_false (v w : pyval) : v <> w -> py_eq v w = false.
Proof. intros N. unfold py_eq. destruct (pyval_eq_dec v w); [contradiction | reflexivity]. Qed.

Lemma svp_rhoiso_rejects (a : Args) (s : string) (v : pyval) :
  cmirs_solvent a = Some s -> ~ cmirs_contour v -> never_done (svp_rhoiso a v).
Proof.
  intros Hc Hv st st'. unfold svp_rhoiso. rewrite Hc.
  rewrite !py_eq_false; [discriminate | |];
    intros ->; apply Hv; [now right | now left].
Qed.

Lemma overwrite_svp_rejects (a : Args) (s : string) (temp : dict) (v : pyval) :
  cmirs_solvent a = Some s -> Dict.get "rhoiso" temp = Some v -> ~ cmirs_contour v ->
  never_done (overwrite_svp a temp).
Proof.
  intros Hc Hg Hv. induction temp as [| [k w] temp IH]; [discriminate |].
  cbn [overwrite_svp]. cbn [Dict.get] in Hg.
  destruct (String.eqb_spec "rhoiso" k) as [<- | N].
  - injection Hg as ->. apply never_done_seq_l.
    cbn [String.eqb Ascii.eqb Bool.eqb]. now apply (svp_rhoiso_rejects a s).
  - do 4 apply never_done_seq_r. now apply IH.
Qed.

Lemma overwrite_section_svp_rejects (norm : dict -> dict + exn) (a : Args)
      (s : string) (d temp : dict) (v : pyval) :
  cmirs_solvent a = Some s -> norm d = inl temp ->
  Dict.get "rhoiso" temp = Some v -> ~ cmirs_contour v ->
  never_done (overwrite_section norm a "svp" d).
Proof.
  intros Hc Hn Hg Hv. unfold overwrite_section.
  do 10 apply never_done_seq_r. apply never_done_seq_l.
  cbn [String.eqb Ascii.eqb Bool.eqb when]. unfold with_normalized. rewrite Hn.
  now apply (overwrite_svp_rejects a s temp v).
Qed.

Lemma overwrite_sections_reject (norm : dict -> dict + exn) (a : Args)
      (ov : list (string * dict)) (sec : string) (d : dict) :
  In (sec, d) ov -> never_done (overwrite_section norm a sec d) ->
  never_done (overwrite_sections norm a ov).
Proof.
  intros Hin Hn. induction ov as [| [sec' d'] ov IH]; [contradiction |].
  cbn [overwrite_sections]. destruct Hin as [[= -> ->] | Hin].
  - now apply never_done_seq_l.
  - apply never_done_seq_r. now apply IH.
Qed.

(** X8: with a CMIRS solvent, an [svp] override whose ["rhoiso"] is neither
    "0.001" nor "0.0005" is never accepted: no build with it completes,
    wherever the section stands among the overrides and the key among the
    keys of the section. *)
Theorem cmirs_rejects_other_contours
        (norm : dict -> dict + exn) (py_int : string -> option Z)
        (a : Args) (table : string -> string -> dict)
        (s : string) (ov : list (string * dict)) (d temp : dict) (v : pyval) :
  cmirs_solvent a = Some s ->
  overwrite_inputs a = Some ov -> In ("svp", d) ov -> norm d = inl temp ->
  Dict.get "rhoiso" temp = Some v -> ~ cmirs_contour v ->
  forall st, QChemDictSet_init norm py_int a table <> Done st.
Proof.
  intros Hc Hov Hin Hn Hg Hv st. unfold QChemDictSet_init.
  apply never_done_seq_r, never_done_seq_l.
  unfold apply_overwrite_inputs. rewrite Hov.
  apply (overwrite_sections_reject norm a ov "svp" d Hin).
  now apply (overwrite_section_svp_rejects norm a s d temp v).
Qed.

Lemma cmirs_rejects_other_contours_witness :
  (forall st, build water_0002_job <> Done st) /\
  raised (build water_0002_job)
  = Some (RuntimeError
            "CMIRS is only parameterized for RHOISO values of 0.001 or 0.0005! Exiting...").
Proof.
  split.
  - exact (cmirs_rejects_other_contours normalize decimal_int water_0002_job
             CMIRS_SETTINGS "water" [("svp", [("rhoiso", VStr "0.002")])]
             [("rhoiso", VStr "0.002")] [("rhoiso", VStr "0.002")] (VStr "0.002")
             eq_refl eq_refl (or_introl eq_refl) eq_refl eq_refl
             ltac:(intros [H | H]; discriminate H)).
  - vm_compute. reflexivity.
Defined.

(** ** The NBO step *)












(** ** The caller's [opt_variables] and [scan_variables] *)





(** ** The last assignment to an item *)

Lemma si_kept (x : var) (k : string) (f : step) :
  footprint (other_var x) (outside_item x k) f -> sets_item x k None f.
Proof.
  intros Hf st st' o Hok Hx E. destruct (Hf st Hok) as (Hok' & He & Hk & _).
  rewrite E in Hok', He, Hk. cbn [final_state] in Hok', He, Hk.
  split; [exact Hok' |]. split.
  - rewrite He; [exact Hx |]. unfold other_var. now rewrite var_eqb_refl.
  - cbn [last_value]. apply Hk. rewrite (Hok _ _ Hx). unfold outside_item.
    now rewrite var_eqb_refl, String.eqb_refl.
Qed.

Lemma si_set (x : var) (k : string) (v : pyval) :
  sets_item x k (Some v) (setitem x k v).
Proof.
  intros st st' o Hok Hx E. rewrite (setitem_done _ _ _ _ o Hx) in E.
  injection E as <-. cbn [env heap last_value]. split; [exact Hok |].
  split; [exact Hx |]. rewrite upd_heap_same. apply DictFacts.get_set_same.
Qed.

Lemma si_seq (x : var) (k : string) (w w1 w2 : option pyval) (f g : step) :
  sets_item x k w1 f -> sets_item x k w2 g -> w = last_value w1 w2 ->
  sets_item x k w (f ;; g).
Proof.
  intros Hf Hg -> st st' o Hok Hx E. apply seq_done_inv in E as (s1 & E1 & E2).
  destruct (Hf _ _ _ Hok Hx E1) as (Hok1 & Hx1 & G1).
  destruct (Hg _ _ _ Hok1 Hx1 E2) as (Hok2 & Hx2 & G2).
  split; [exact Hok2 |]. split; [exact Hx2 |].
  rewrite G2, G1. now destruct w2, w1.
Qed.

(** The items assigned one after the other. *)
Ltac si :=
  lazymatch goal with
  | |- sets_item _ _ _ (_ ;; _) => eapply si_seq; [si | si | reflexivity]
  | |- sets_item ?x ?k _ (setitem ?x ?k _) => apply si_set
  | |- sets_item _ _ _ _ => solve [apply si_kept; unfold_phases; fp]
  end.

Lemma si_merge_and_print_rem (norm : dict -> dict + exn) (py_int : string -> option Z)
      (a : Args) (k : string) :
  k <> "scf_final_print" -> k <> "scf_convergence" ->
  ~ override_sets norm a "rem" k ->
  sets_item myrem k None
    (apply_overwrite_inputs norm a ;; apply_extra_scf_print py_int a).
Proof.
  intros N1 N2 Hno. apply si_kept. apply fp_seq.
  - apply fp_apply_overwrite_inputs.
    apply (override_outside_item norm a myrem k Hno); discriminate.
  - apply fp_apply_extra_scf_print; apply outside_item_true; right; congruence.
Qed.

Lemma derive_done_one_model (a : Args) (st s1 : State) :
  derive_sections a st = Done s1 -> solvent_def a <= 1.
Proof.
  intros E. unfold derive_sections in E.
  do 3 (apply seq_done_inv in E as (? & _ & E)).
  apply seq_done_inv in E as (? & E & _).
  unfold check_solvent_def in E.
  destruct (Z.ltb_spec 1 (solvent_def a)); [discriminate | lia].
Qed.

Section Switches.

Variable a : Args.

Ltac switch_cases :=
  unfold derive_sections, seed_rem, setup_pcm, setup_isosvp, setup_smd, setup_cmirs,
    solvent_method_of, gen_scfman_of, ideriv_of;
  destruct (cmirs_solvent a), (smd_solvent a), (isosvp_dielectric a),
    (pcm_dielectric a); si.

Lemma si_derive_solvent_method :
  sets_item myrem "solvent_method" (solvent_method_of a) (derive_sections a).
Proof. switch_cases. Qed.

Lemma si_derive_gen_scfman :
  sets_item myrem "gen_scfman" (Some (gen_scfman_of a)) (derive_sections a).
Proof. switch_cases. Qed.

Lemma si_derive_ideriv :
  sets_item myrem "ideriv" (ideriv_of a) (derive_sections a).
Proof. switch_cases. Qed.

End Switches.

(** X11: a build that completes has at most one solvation model, and its primary
    section holds, for each of the three keys that the [rem] override does
    not assign: ["solvent_method"] "pcm", "isosvp", "smd" or "isosvp" for the
    PCM, isodensity, SMD or CMIRS model and no such key without a model;
    ["gen_scfman"] "false" for the isodensity and CMIRS models and "true"
    otherwise; ["ideriv"] "1" for SMD and no such key otherwise. *)
Theorem solvation_switches
        (norm : dict -> dict + exn) (py_int : string -> option Z)
        (a : Args) (table : string -> string -> dict) (st : State) :
  QChemDictSet_init norm py_int a table = Done st ->
  solvent_def a <= 1 /\
  exists d,
    section st myrem = Some d /\
    (~ override_sets norm a "rem" "solvent_method" ->
     Dict.get "solvent_method" d = solvent_method_of a) /\
    (~ override_sets norm a "rem" "gen_scfman" ->
     Dict.get "gen_scfman" d = Some (gen_scfman_of a)) /\
    (~ override_sets norm a "rem" "ideriv" ->
     Dict.get "ideriv" d = ideriv_of a).
Proof.
  intros Hdone. unfold QChemDictSet_init in Hdone.
  apply seq_done_inv in Hdone as (s1 & E1 & E2).
  split; [exact (derive_done_one_model a _ _ E1) |].
  pose proof (env_ok_initial a table) as Hok0.
  assert (Hr0 : env (initial_state a table) myrem = Some (Fresh myrem)) by reflexivity.
  assert (Hitem : forall k w,
             k <> "scf_final_print" -> k <> "scf_convergence" ->
             sets_item myrem k w (derive_sections a) ->
             ~ override_sets norm a "rem" k ->
             env st myrem = Some (Fresh myrem) /\
             Dict.get k (heap st (Fresh myrem)) = w).
  { intros k w N1 N2 Hd Hno.
    destruct (Hd _ _ _ Hok0 Hr0 E1) as (Hok1 & Hr1 & G1).
    destruct (si_merge_and_print_rem norm py_int a k N1 N2 Hno _ _ _ Hok1 Hr1 E2)
      as (_ & Hr & G).
    split; [exact Hr |]. rewrite G, G1. cbn. now destruct w. }
  assert (Hr : env st myrem = Some (Fresh myrem)).
  { destruct (fp_derive_scf_convergence a _ Hok0) as (Hok1 & He1 & _).
    rewrite E1 in Hok1, He1. cbn [final_state] in Hok1, He1.
    assert (F : footprint (other_var myrem) everywhere
                  (apply_overwrite_inputs norm a ;; apply_extra_scf_print py_int a)).
    { apply fp_seq; [apply fp_apply_overwrite_inputs | apply fp_apply_extra_scf_print];
        reflexivity. }
    destruct (F s1 Hok1) as (_ & He & _). rewrite E2 in He. cbn [final_state] in He.
    rewrite He by reflexivity. now rewrite He1. }
  exists (heap st (Fresh myrem)). split; [unfold section; now rewrite Hr |].
  split; [| split]; intros Hno.
  - exact (proj2 (Hitem "solvent_method" _ ltac:(discriminate) ltac:(discriminate)
                    (si_derive_solvent_method a) Hno)).
  - exact (proj2 (Hitem "gen_scfman" _ ltac:(discriminate) ltac:(discriminate)
                    (si_derive_gen_scfman a) Hno)).
  - exact (proj2 (Hitem "ideriv" _ ltac:(discriminate) ltac:(discriminate)
                    (si_derive_ideriv a) Hno)).
Qed.

Lemma solvation_switches_witness :
  (exists d, section (final_state (build smd_water_job)) myrem = Some d /\
             Dict.get "solvent_method" d = Some (VStr "smd") /\
             Dict.get "gen_scfman" d = Some (VStr "true") /\
             Dict.get "ideriv" d = Some (VStr "1")) /\
  (exists d, section (final_state (build isosvp_job)) myrem = Some d /\
             Dict.get "solvent_method" d = Some (VStr "isosvp") /\
             Dict.get "gen_scfman" d = Some (VStr "false") /\
             Dict.get "ideriv" d = None).
Proof.
  assert (Hno : forall j sec k, overwrite_inputs j = None -> ~ override_sets normalize j sec k).
  { intros j sec k Hj (ov & d & temp & Hov & _). congruence. }
  split.
  - destruct (solvation_switches normalize decimal_int smd_water_job CMIRS_SETTINGS
                (final_state (build smd_water_job)) ltac:(vm_compute; reflexivity))
      as (_ & d & Hs & H1 & H2 & H3).
    exists d. split; [exact Hs |].
    split; [exact (H1 (Hno smd_water_job _ _ eq_refl)) |].
    split; [exact (H2 (Hno smd_water_job _ _ eq_refl))
           | exact (H3 (Hno smd_water_job _ _ eq_refl))].
  - destruct (solvation_switches normalize decimal_int isosvp_job CMIRS_SETTINGS
                (final_state (build isosvp_job)) ltac:(vm_compute; reflexivity))
      as (_ & d & Hs & H1 & H2 & H3).
    exists d. split; [exact Hs |].
    split; [exact (H1 (Hno isosvp_job _ _ eq_refl)) |].
    split; [exact (H2 (Hno isosvp_job _ _ eq_refl))
           | exact (H3 (Hno isosvp_job _ _ eq_refl))].
Defined.

(** ** Warnings *)

Lemma q_skip : quiet skip.
Proof. intros st. reflexivity. Qed.

Lemma q_raise (e : exn) : quiet (raise e).
Proof. intros st. reflexivity. Qed.

Lemma q_bind_var (x : var) (oo : option obj) : quiet (bind_var x oo).
Proof. intros st. reflexivity. Qed.

Lemma q_setitem (x : var) (k : string) (v : pyval) : quiet (setitem x k v).
Proof. intros st. unfold setitem. now destruct (env st x). Qed.

Lemma q_seq (f g : step) : quiet f -> quiet g -> quiet (f ;; g).
Proof.
  intros Hf Hg st. unfold seq. specialize (Hf st).
  destruct (f st) as [s1 | e s1]; cbn [final_state] in *; [| exact Hf].
  now rewrite Hg.
Qed.

Lemma q_setitems (x : var) (src : dict) : quiet (setitems x src).
Proof.
  induction src as [| [k v] src IH]; simpl; [apply q_skip |].
  apply q_seq; [apply q_setitem | exact IH].
Qed.

Lemma q_copy_nbo (p : dict) : quiet (copy_nbo p).
Proof.
  induction p as [| [k v] p IH]; simpl; [apply q_skip |].
  apply q_seq; [| exact IH].
  destruct (String.eqb k "version"); [apply q_skip | apply q_setitem].
Qed.

Lemma q_with_state (F : State -> step) : (forall s, quiet (F s)) -> quiet (with_state F).
Proof. intros H st. apply H. Qed.

Lemma q_with_item (x : var) (k : string) (cont : pyval -> step) :
  (forall v, quiet (cont v)) -> quiet (with_item x k cont).
Proof.
  intros H. apply q_with_state. intros s.
  destruct (section s x) as [d |]; [| apply q_raise].
  destruct (Dict.get k d); [apply H | apply q_raise].
Qed.

Ltac q_step :=
  lazymatch goal with
  | |- quiet (_ ;; _) => apply q_seq
  | |- quiet skip => apply q_skip
  | |- quiet (raise _) => apply q_raise
  | |- quiet (setitem _ _ _) => apply q_setitem
  | |- quiet (bind_var _ _) => apply q_bind_var
  | |- quiet (setitems _ _) => apply q_setitems
  | |- quiet (copy_nbo _) => apply q_copy_nbo
  | |- quiet (with_solvent_entry _ _) => unfold with_solvent_entry
  | |- quiet (with_coeffs _ _ _) => unfold with_coeffs
  | |- quiet (with_state _) => apply q_with_state; intros ?
  | |- quiet (with_item _ _ _) => apply q_with_item; intros ?
  | |- quiet (if ?b then _ else _) => destruct b
  | |- quiet (match ?x with _ => _ end) => destruct x
  end.

Lemma q_derive_sections (a : Args) : quiet (derive_sections a).
Proof. unfold_phases. repeat q_step. Qed.

Lemma q_apply_extra_scf_print (py_int : string -> option Z) (a : Args) :
  quiet (apply_extra_scf_print py_int a).
Proof. unfold_phases. repeat q_step. Qed.

(** X12: every warning comes from the override merge: whether it returns or
    raises, a constructor called without [overwrite_inputs] (or with an empty
    one) emits none. *)
Theorem warnings_come_from_overrides
        (norm : dict -> dict + exn) (py_int : string -> option Z)
        (a : Args) (table : string -> string -> dict) :
  overwrite_inputs a = None \/ overwrite_inputs a = Some [] ->
  warned (final_state (QChemDictSet_init norm py_int a table)) = [].
Proof.
  intros Hov.
  assert (Q : quiet (derive_sections a ;; apply_overwrite_inputs norm a ;;
                     apply_extra_scf_print py_int a)).
  { apply q_seq; [apply q_derive_sections |].
    apply q_seq; [| apply q_apply_extra_scf_print].
    unfold apply_overwrite_inputs. destruct Hov as [-> | ->]; apply q_skip. }
  unfold QChemDictSet_init. now rewrite Q.
Qed.

Lemma warnings_come_from_overrides_witness :
  warned (final_state (build smd_water_job)) = [].
Proof.
  exact (warnings_come_from_overrides normalize decimal_int smd_water_job
           CMIRS_SETTINGS (or_introl eq_refl)).
Defined.
